(** * GitHub processor node: ingestion pipeline

    A shallow embedding of the metadata-only GitHub event processor
    (identifier codec, payload normalisation, SQLite index, repository
    locks, bundle and discovery handlers) together with the properties
    of the pipeline that are established on it.

    Conventions.
    - A Python [str] is a [string]; every [ascii] stands for one character.
    - A Python exception is a value of [exn]; a call that may raise returns
      a [res].
    - A JSON payload ([Dict[str, Any]]) is an association list read with
      first-match lookup; floating-point numbers are not represented.
    - The SQLite file is a record of its two tables.  [repositories] is a
      finite map keyed by its primary key; [events] is kept as the list of
      its rows, so that the number of rows per event identifier is
      something to prove rather than something the type gives. *)

From Stdlib Require Import String Ascii List ZArith Bool Lia.
From stdpp Require Import base option list gmap strings fin_maps.
Import ListNotations.

Local Open Scope string_scope.

(* ===================================================================== *)
(** * Part I: the embedding                                               *)
(* ===================================================================== *)

(** ** Python values, exceptions and string primitives *)

Module Py.

Inductive exn : Type :=
| ValueError (msg : string)
| KeyError (key : string)
| TypeError
| AttributeError
| IndexError
| IntegrityError      (* sqlite3: a NOT NULL constraint failed *)
| InterfaceError      (* sqlite3: a parameter of unsupported type;
                         named ProgrammingError from Python 3.11 on *)
| OverflowError       (* sqlite3: integer does not fit 64 bits *)
| MarkupError.        (* rich: console markup that does not parse *)

Inductive res (A : Type) : Type :=
| Ok (a : A)
| Raise (e : exn).
Arguments Ok {A} a.
Arguments Raise {A} e.

Definition bind {A B} (r : res A) (k : A -> res B) : res B :=
  match r with
  | Ok a => k a
  | Raise e => Raise e
  end.

#[local] Unset Elimination Schemes.
Inductive json : Type :=
| JNull
| JBool (b : bool)
| JNum (z : Z)
| JStr (s : string)
| JArr (l : list json)
| JObj (d : list (string * json)).
#[local] Set Elimination Schemes.

Definition dict := list (string * json).

(** [d.get(k)] on the association list. *)
Fixpoint lookup (k : string) (d : dict) : option json :=
  match d with
  | [] => None
  | (k', v) :: d' => if String.eqb k k' then Some v else lookup k d'
  end.

(** [k in d] *)
Definition contains (k : string) (d : dict) : bool :=
  match lookup k d with Some _ => true | None => false end.

(** [d.get(k, default)] on a dict. *)
Definition get (d : dict) (k : string) (default : json) : json :=
  match lookup k d with Some v => v | None => default end.

(** [v[k]] with a string key: only a dict can be indexed that way. *)
Definition getitem (v : json) (k : string) : res json :=
  match v with
  | JObj d =>
      match lookup k d with
      | Some x => Ok x
      | None => Raise (KeyError k)
      end
  | _ => Raise TypeError
  end.

(** [v.get(k, default)] on an arbitrary value: only a dict has [get]. *)
Definition get_method (v : json) (k : string) (default : json) : res json :=
  match v with
  | JObj d => Ok (get d k default)
  | _ => Raise AttributeError
  end.

(** Truth value of a payload value in a condition. *)
Definition truthy (v : json) : bool :=
  match v with
  | JNull => false
  | JBool b => b
  | JNum z => negb (Z.eqb z 0)
  | JStr s => negb (String.eqb s "")
  | JArr l => match l with [] => false | _ => true end
  | JObj d => match d with [] => false | _ => true end
  end.

(** [v == s] for a string literal [s]. *)
Definition eq_str (v : json) (s : string) : bool :=
  match v with
  | JStr s' => String.eqb s' s
  | _ => false
  end.

(** What the interpreter supplies and the embedding leaves open: the
    text [str(v)] of a value that is not a string, and [str.title]. *)
Class Runtime : Type := {
  str_other : json -> string;
  str_title : string -> string
}.

(** [f"{v}"] *)
Definition format `{Runtime} (v : json) : string :=
  match v with
  | JStr s => s
  | _ => str_other v
  end.

(** [s.startswith(p)] *)
Fixpoint startswith (p s : string) : bool :=
  match p, s with
  | EmptyString, _ => true
  | String a p', String b s' => Ascii.eqb a b && startswith p' s'
  | String _ _, EmptyString => false
  end.

(** The rest of [s] after the prefix [p], when [p] is a prefix. *)
Fixpoint strip_prefix (p s : string) : option string :=
  match p, s with
  | EmptyString, _ => Some s
  | String a p', String b s' =>
      if Ascii.eqb a b then strip_prefix p' s' else None
  | String _ _, EmptyString => None
  end.

(** Cut [s] at the first occurrence of [sep]. *)
Fixpoint split_once (sep s : string) : option (string * string) :=
  match strip_prefix sep s with
  | Some rest => Some (EmptyString, rest)
  | None =>
      match s with
      | EmptyString => None
      | String a s' =>
          match split_once sep s' with
          | Some (before, rest) => Some (String a before, rest)
          | None => None
          end
      end
  end.

(** [s.split(sep, 1)] for a non-empty separator. *)
Definition split1 (sep s : string) : list string :=
  match split_once sep s with
  | Some (before, rest) => [before; rest]
  | None => [s]
  end.

(** [s.split(c)] for a one-character separator. *)
Fixpoint split (c : ascii) (s : string) : list string :=
  match s with
  | EmptyString => [EmptyString]
  | String a s' =>
      if Ascii.eqb a c then EmptyString :: split c s'
      else
        match split c s' with
        | h :: t => String a h :: t
        | [] => [String a EmptyString]
        end
  end.

(** [sep.join(l)] for a one-character separator. *)
Fixpoint join (c : ascii) (l : list string) : string :=
  match l with
  | [] => EmptyString
  | [x] => x
  | x :: l' => x ++ String c (join c l')
  end.

(** [s.replace(c, by)] for a one-character pattern. *)
Fixpoint replace (c : ascii) (by_ : string) (s : string) : string :=
  match s with
  | EmptyString => EmptyString
  | String a s' =>
      if Ascii.eqb a c then by_ ++ replace c by_ s'
      else String a (replace c by_ s')
  end.

(** [x in l] for a list of strings. *)
Fixpoint mem (x : string) (l : list string) : bool :=
  match l with
  | [] => false
  | y :: l' => String.eqb y x || mem x l'
  end.

(** [l.index(x)]; [None] stands for the [ValueError] of an absent item. *)
Fixpoint index (x : string) (l : list string) : option nat :=
  match l with
  | [] => None
  | y :: l' =>
      if String.eqb y x then Some 0
      else match index x l' with Some i => Some (S i) | None => None end
  end.

(** [s[:n]] *)
Fixpoint take (n : nat) (s : string) : string :=
  match n, s with
  | S n', String a s' => String a (take n' s')
  | _, _ => EmptyString
  end.

End Py.

Import Py.

#[global] Instance res_bind : MBind res := fun _ _ k r => Py.bind r k.

(** ** utils.py *)

Module Utils.

Definition rid_prefix : string := "orn:github.repo:".

Definition invalid_rid (repo_rid : string) : exn :=
  ValueError ("Invalid GitHub repository RID format: " ++ repo_rid).

(** [repo_rid.split("orn:github.repo:", 1)[1]] *)
Definition owner_repo_part (repo_rid : string) : res string :=
  match nth_error (split1 rid_prefix repo_rid) 1 with
  | Some s => Ok s
  | None => Raise IndexError
  end.

Definition repo_rid_to_dirname (repo_rid : string) : res string :=
  if negb (startswith rid_prefix repo_rid) then Raise (invalid_rid repo_rid)
  else
    owner_repo ← owner_repo_part repo_rid;
    Ok (replace "/" "__" owner_repo ++ ".git").

Definition owner_repo_to_repo_rid `{Runtime} (owner repo : json) : string :=
  "orn:github.repo:" ++ format owner ++ "/" ++ format repo.

Definition repo_rid_to_owner_repo (repo_rid : string) : res (string * string) :=
  if negb (startswith rid_prefix repo_rid) then Raise (invalid_rid repo_rid)
  else
    owner_repo ← owner_repo_part repo_rid;
    match split1 "/" owner_repo with
    | [owner; repo] => Ok (owner, repo)
    | _ => Raise (invalid_rid repo_rid)
    end.

End Utils.

(** ** index_db.py *)

Module IndexDb.

(** A stored value: what [sqlite3] binds for a Python parameter.  The
    conversions of column affinity are not applied: a cell shows the
    value that was bound.  SQLite itself keeps a number bound for a
    [TEXT] column as its text, and a text that reads as a number, bound
    for a [TIMESTAMP] column, as that number; where a statement names a
    stored cell, it is for a value that is stored as it is bound: a
    text in a [TEXT] column, a text that is no number in a [TIMESTAMP]
    column. *)
Inductive cell : Type :=
| CNull
| CInt (z : Z)
| CText (s : string).

Definition bind_param (v : json) : res cell :=
  match v with
  | JNull => Ok CNull
  | JBool b => Ok (CInt (if b then 1 else 0))
  | JNum z =>
      if ((- 2 ^ 63 <=? z) && (z <? 2 ^ 63))%Z then Ok (CInt z)
      else Raise OverflowError
  | JStr s => Ok (CText s)
  | JArr _ => Raise InterfaceError
  | JObj _ => Raise InterfaceError
  end.

(** A column declared [NOT NULL] (without a default) rejects NULL. *)
Definition not_null (c : cell) : res cell :=
  match c with
  | CNull => Raise IntegrityError
  | _ => Ok c
  end.

(** Table [repositories]; the primary key [repo_rid] is the map key. *)
Record repo_row : Type := {
  repo_url : cell;
  first_indexed : string;
  last_updated : string
}.

(** Table [events]. *)
Record event_row : Type := {
  event_rid : string;
  ev_repo_rid : string;
  event_type : cell;
  timestamp : cell;
  commit_sha : cell;
  summary : string;
  bundle_rid : string
}.

Record db : Type := {
  repositories : gmap string repo_row;
  events : list event_row
}.

(** [initialize_db]: both tables exist and are empty. *)
Definition initialize_db : db := {| repositories := ∅; events := [] |}.

(** *** Connections and statements

    [sqlite3.connect] works on a private copy of the committed state;
    [conn.commit()] publishes it, and a connection that is dropped
    without a commit (an exception left the function) publishes
    nothing.  The functions do not close the connection on that path:
    until the interpreter has collected it, it keeps its lock on the
    file, and a write made in the meantime raises.  The database here is
    the committed content; that a call finds the file locked is not part
    of it, so what is said of a call that follows a failed one is said
    of the content only. *)

Record conn : Type := { committed : db; pending : db }.

Definition connect (d : db) : conn := {| committed := d; pending := d |}.
Definition commit (c : conn) : db := pending c.
Definition dropped (c : conn) : db := committed c.

Definition with_pending (c : conn) (d : db) : conn :=
  {| committed := committed c; pending := d |}.

(** [SELECT 1 FROM repositories WHERE repo_rid = ?] followed by
    [cursor.fetchone()] used as a condition. *)
Definition select_repository (c : conn) (repo_rid : string) : bool :=
  bool_decide (is_Some (repositories (pending c) !! repo_rid)).

(** [UPDATE repositories SET last_updated = CURRENT_TIMESTAMP,
    repo_url = ? WHERE repo_rid = ?] *)
Definition update_repository (now : string) (c : conn)
    (repo_url_ : json) (repo_rid : string) : res conn :=
  url ← bind_param repo_url_;
  match repositories (pending c) !! repo_rid with
  | None => Ok c
  | Some row =>
      url' ← not_null url;
      Ok (with_pending c
            {| repositories :=
                 <[repo_rid := {| repo_url := url';
                                  first_indexed := first_indexed row;
                                  last_updated := now |}]>
                   (repositories (pending c));
               events := events (pending c) |})
  end.

(** [INSERT INTO repositories (repo_rid, repo_url) VALUES (?, ?)];
    the two timestamps take their default, [CURRENT_TIMESTAMP]. *)
Definition insert_repository (now : string) (c : conn)
    (repo_rid : string) (repo_url_ : json) : res conn :=
  url ← bind_param repo_url_;
  url' ← not_null url;
  match repositories (pending c) !! repo_rid with
  | Some _ => Raise IntegrityError
  | None =>
      Ok (with_pending c
            {| repositories :=
                 <[repo_rid := {| repo_url := url';
                                  first_indexed := now;
                                  last_updated := now |}]>
                   (repositories (pending c));
               events := events (pending c) |})
  end.

(** [INSERT OR REPLACE INTO events (...) VALUES (?, ?, ?, ?, ?, ?, ?)]:
    rows that hold the same primary key are deleted, then the new row
    is added.  A NULL in a [NOT NULL] column aborts the statement. *)
Definition insert_or_replace_event (c : conn)
    (event_rid_ repo_rid : string) (event_type_ timestamp_ commit_sha_ : json)
    (summary_ bundle_rid_ : string) : res conn :=
  ty ← bind_param event_type_;
  ts ← bind_param timestamp_;
  sha ← bind_param commit_sha_;
  ty' ← not_null ty;
  ts' ← not_null ts;
  Ok (with_pending c
        {| repositories := repositories (pending c);
           events :=
             filter (λ r, event_rid r ≠ event_rid_) (events (pending c))
             ++ [ {| event_rid := event_rid_;
                     ev_repo_rid := repo_rid;
                     event_type := ty';
                     timestamp := ts';
                     commit_sha := sha;
                     summary := summary_;
                     bundle_rid := bundle_rid_ |} ] |}).

(** The outcome of a function of this module: what it raised, if
    anything, and the database file it leaves behind. *)
Definition finish (c0 : conn) (r : res conn) : res unit * db :=
  match r with
  | Ok c => (Ok tt, commit c)
  | Raise e => (Raise e, dropped c0)
  end.

Definition add_repository (now : string) (d : db)
    (repo_rid : string) (repo_url_ : json) : res unit * db :=
  let c := connect d in
  finish c
    (if select_repository c repo_rid
     then update_repository now c repo_url_ repo_rid
     else insert_repository now c repo_rid repo_url_).

Definition add_event_metadata (now : string) (d : db)
    (event_rid_ repo_rid : string) (event_type_ timestamp_ commit_sha_ : json)
    (summary_ bundle_rid_ : string) : res unit * db :=
  let c := connect d in
  finish c
    (c1 ← insert_or_replace_event c event_rid_ repo_rid
            event_type_ timestamp_ commit_sha_ summary_ bundle_rid_;
     if negb (select_repository c1 repo_rid)
     then insert_repository now c1 repo_rid (JStr ("orn:" ++ repo_rid))
     else Ok c1).

(** [update_repository_latest_commit]: sets [last_updated]; errors are
    logged, not raised.  The text is kept as it is given (see [cell] for
    a text that reads as a number). *)
Definition update_repository_latest_commit (d : db)
    (repo_rid latest_commit_sha timestamp_ : string) : db :=
  {| repositories :=
       alter (λ row, {| repo_url := repo_url row;
                        first_indexed := first_indexed row;
                        last_updated := timestamp_ |})
             repo_rid (repositories d);
     events := events d |}.

(** [prune_old_data]: [expired] is the comparison of a row's timestamp
    with the cutoff SQLite computes from the clock and [days_to_keep]. *)
Definition prune_old_data (expired : cell -> bool) (d : db) : db :=
  {| repositories := repositories d;
     events := filter (λ r, expired (timestamp r) = false) (events d) |}.

(** [get_events_for_repo] without ordering and paging: the rows of one
    repository. *)
Definition events_of_repo (d : db) (repo_rid : string) : list event_row :=
  filter (λ r, ev_repo_rid r = repo_rid) (events d).

(** Rows stored under one event identifier. *)
Definition rows_of_event (d : db) (event_rid_ : string) : list event_row :=
  filter (λ r, event_rid r = event_rid_) (events d).

End IndexDb.

(** ** utils.py: summaries *)

Module Summary.
Import Utils.

(** [commit_sha[:7]] *)
Definition slice7 (v : json) : res json :=
  match v with
  | JStr s => Ok (JStr (take 7 s))
  | JArr l => Ok (JArr (firstn 7 l))
  | _ => Raise TypeError
  end.

(** [additional_info.get(k, default) if additional_info else default] *)
Definition info_get (additional_info : option dict) (k : string)
    (default : json) : json :=
  match additional_info with
  | Some ((_ :: _) as d) => get d k default
  | _ => default
  end.

Definition summarize_event `{Runtime} (event_type_ : json) (repo_rid : string)
    (commit_sha_ : json) (additional_info : option dict) : res string :=
  names ← match repo_rid_to_owner_repo repo_rid with
          | Ok p => Ok p
          | Raise (ValueError _) => Ok ("unknown", "unknown")
          | Raise e => Raise e
          end;
  let where_ := fst names ++ "/" ++ snd names in
  if eq_str event_type_ "push" then
    if truthy commit_sha_ then
      short ← slice7 commit_sha_;
      Ok ("Push to " ++ where_ ++ ": " ++ format short)
    else Ok ("Push to " ++ where_)
  else if eq_str event_type_ "pull_request" then
    let action := info_get additional_info "action" (JStr "updated") in
    let pr_number := info_get additional_info "number" (JStr "unknown") in
    Ok ("Pull request #" ++ format pr_number ++ " " ++ format action
        ++ " in " ++ where_)
  else if eq_str event_type_ "issues" then
    let action := info_get additional_info "action" (JStr "updated") in
    let issue_number := info_get additional_info "number" (JStr "unknown") in
    Ok ("Issue #" ++ format issue_number ++ " " ++ format action
        ++ " in " ++ where_)
  else if eq_str event_type_ "release" then
    let tag := info_get additional_info "tag_name" (JStr "unknown") in
    Ok ("Release " ++ format tag ++ " created in " ++ where_)
  else
    match event_type_ with
    | JStr s => Ok (str_title (replace "_" " " s) ++ " event in " ++ where_)
    | _ => Raise AttributeError
    end.

End Summary.

(** ** repository.py *)

Module Repository.
Import Utils IndexDb Summary.

(** The dictionary [process_github_event_bundle] returns.  The message
    of an error is the text of the exception, which is kept as the
    exception itself. *)
Inductive outcome : Type :=
| Success (kobj_rid repo_rid : string) (commit_sha_ : json)
| Skipped (message : string) (kobj_rid : string)
| Error (e : exn) (kobj_rid : string).

Definition status (o : outcome) : string :=
  match o with
  | Success _ _ _ => "success"
  | Skipped _ _ => "skipped"
  | Error _ _ => "error"
  end.

(** What the first part of the [try] block settles: the four variables
    [owner], [repo], [repo_url], [event_source], or an early return. *)
Inductive shape : Type :=
| Extracted (owner repo repo_url_ event_source : json)
| Skip (message : string).

(** [commit_url.split('/')]: only a string has [split]. *)
Definition split_url (commit_url : json) : res (string * list string) :=
  match commit_url with
  | JStr s => Ok (s, split "/" s)
  | _ => Raise AttributeError
  end.

(** The owner and repository named by the commit URL. *)
Definition parse_commit_url (commit_url : string) (url_parts : list string)
    : res (string * string) :=
  if mem "repos" url_parts then
    match index "repos" url_parts with
    | None => Raise (ValueError "'repos' is not in list")
    | Some repos_index =>
        if (repos_index + 2 <? length url_parts)%nat then
          match nth_error url_parts (repos_index + 1),
                nth_error url_parts (repos_index + 2) with
          | Some owner, Some repo => Ok (owner, repo)
          | _, _ => Raise IndexError
          end
        else
          Raise (ValueError ("Cannot parse owner/repo from URL: " ++ commit_url))
    end
  else
    Raise (ValueError ("Cannot parse repository from commit URL: " ++ commit_url)).

(** Lines 44-90: the [if]/[elif] chain over the payload formats. *)
Definition extract `{Runtime} (payload : dict) : res shape :=
  if contains "repository" payload then
    r1 ← getitem (JObj payload) "repository";
    o ← getitem r1 "owner";
    owner ← getitem o "login";
    r2 ← getitem (JObj payload) "repository";
    repo ← getitem r2 "name";
    r3 ← getitem (JObj payload) "repository";
    repo_url_ ← getitem r3 "clone_url";
    Ok (Extracted owner repo repo_url_ (get payload "event_type" (JStr "push")))
  else if contains "event_source_type" payload && contains "payload" payload then
    est ← getitem (JObj payload) "event_source_type";
    if eq_str est "backfill_repo_details" then
      p1 ← getitem (JObj payload) "payload";
      o ← getitem p1 "owner";
      owner ← getitem o "login";
      p2 ← getitem (JObj payload) "payload";
      repo ← getitem p2 "name";
      p3 ← getitem (JObj payload) "payload";
      repo_url_ ← getitem p3 "clone_url";
      Ok (Extracted owner repo repo_url_ (JStr "repository"))
    else if eq_str est "backfill_commit" then
      p ← getitem (JObj payload) "payload";
      commit_url ← getitem p "url";
      parts ← split_url commit_url;
      names ← parse_commit_url (fst parts) (snd parts);
      Ok (Extracted (JStr (fst names)) (JStr (snd names))
            (JStr ("https://github.com/" ++ fst names ++ "/" ++ snd names ++ ".git"))
            (JStr "commit"))
    else
      Ok (Skip ("Unknown backfill event type: " ++ format est))
  else
    Ok (Skip "Event doesn't match any known format").

(** Lines 100-116: [commit_sha], [commit_timestamp], [commit_message]. *)
Definition commit_fields (payload : dict) : res (json * json * json) :=
  if contains "event_source_type" payload
     && eq_str (get payload "event_source_type" JNull) "backfill_commit" then
    p1 ← getitem (JObj payload) "payload";
    sha ← getitem p1 "sha";
    p2 ← getitem (JObj payload) "payload";
    commit_info ← getitem p2 "commit";
    author ← getitem commit_info "author";
    date ← getitem author "date";
    msg ← getitem commit_info "message";
    Ok (sha, date, msg)
  else if contains "head_commit" payload then
    let commit_payload := get payload "head_commit" (JObj []) in
    sha ← get_method commit_payload "id" JNull;
    ts ← get_method commit_payload "timestamp" (JStr "");
    msg ← get_method commit_payload "message" (JStr "");
    Ok (sha, ts, msg)
  else
    Ok (JNull, JStr "", JStr "").

(** Lines 118-122: the event type that is stored. *)
Definition event_type_of (payload : dict) (event_source : json) : json :=
  if contains "event_source_type" payload then event_source
  else get payload "event_type" (JStr "push").

(** Lines 124-152: one of the two [add_event_metadata] calls; its
    summary argument is evaluated before the call is made. *)
Definition store_event `{Runtime} (now : string) (d : db)
    (kobj_rid repo_rid_str : string) (event_type_str timestamp_ : json)
    (commit_sha_ : json) (payload : dict) : res unit * db :=
  match summarize_event event_type_str repo_rid_str commit_sha_
          (Some payload) with
  | Raise e => (Raise e, d)
  | Ok text =>
      add_event_metadata now d kobj_rid repo_rid_str
        event_type_str timestamp_ commit_sha_ text kobj_rid
  end.

(** Lines 92-163, after the four variables are known.  Every storage
    call opens, commits and closes its own connection. *)
Definition store `{Runtime} (now : string) (d : db) (kobj_rid : string)
    (payload : dict) (owner repo repo_url_ event_source : json)
    : res outcome * db :=
  let repo_rid_str := owner_repo_to_repo_rid owner repo in
  match add_repository now d repo_rid_str repo_url_ with
  | (Raise e, d1) => (Raise e, d1)
  | (Ok _, d1) =>
      match commit_fields payload with
      | Raise e => (Raise e, d1)
      | Ok (commit_sha_, commit_timestamp, _) =>
          let event_type_str := event_type_of payload event_source in
          let stored :=
            if truthy commit_sha_ then
              store_event now d1 kobj_rid repo_rid_str event_type_str
                commit_timestamp commit_sha_ payload
            else
              store_event now d1 kobj_rid repo_rid_str event_type_str
                (JStr "") JNull payload in
          match stored with
          | (Raise e, d2) => (Raise e, d2)
          | (Ok _, d2) => (Ok (Success kobj_rid repo_rid_str commit_sha_), d2)
          end
      end
  end.

(** [RepositoryService.process_github_event_bundle]: the [try] block
    and its [except Exception] clause. *)
Definition process_github_event_bundle `{Runtime} (now : string) (d : db)
    (kobj_rid : string) (payload : dict) : outcome * db :=
  match extract payload with
  | Raise e => (Error e kobj_rid, d)
  | Ok (Skip message) => (Skipped message kobj_rid, d)
  | Ok (Extracted owner repo repo_url_ event_source) =>
      match store now d kobj_rid payload owner repo repo_url_ event_source with
      | (Ok o, d') => (o, d')
      | (Raise e, d') => (Error e kobj_rid, d')
      end
  end.

End Repository.

(** ** os.path

    The three functions of [os.path] that the lock keys go through, as
    CPython's [posixpath] defines them.  [cwd] is what [os.getcwd()]
    returns. *)

Module OsPath.

Definition isabs (path : string) : bool := startswith "/" path.

Fixpoint endswith_sep (path : string) : bool :=
  match path with
  | EmptyString => false
  | String a EmptyString => Ascii.eqb a "/"
  | String _ rest => endswith_sep rest
  end.

(** [os.path.join(a, p)] *)
Definition join (a p : string) : string :=
  if startswith "/" p then p
  else if String.eqb a "" || endswith_sep a then a ++ p
  else a ++ "/" ++ p.

(** POSIX keeps exactly two leading slashes and folds three or more. *)
Definition initial_slashes (path : string) : nat :=
  if startswith "/" path then
    if startswith "//" path && negb (startswith "///" path) then 2 else 1
  else 0.

(** One turn of the loop over the components.  [stack] is [new_comps]
    with its last element first. *)
Definition norm_step (initial : nat) (stack : list string) (comp : string)
    : list string :=
  if String.eqb comp "" || String.eqb comp "." then stack
  else if negb (String.eqb comp "..") then comp :: stack
  else
    match stack with
    | [] => if Nat.eqb initial 0 then comp :: stack else stack
    | top :: below =>
        if String.eqb top ".." then comp :: stack else below
    end.

Definition norm_comps (initial : nat) (comps : list string) : list string :=
  rev (fold_left (norm_step initial) comps []).

Fixpoint slashes (n : nat) : string :=
  match n with
  | O => EmptyString
  | S n' => String "/" (slashes n')
  end.

Definition normpath (path : string) : string :=
  if String.eqb path "" then "."
  else
    let initial := initial_slashes path in
    let p := slashes initial
             ++ Py.join "/" (norm_comps initial (split "/" path)) in
    if String.eqb p "" then "." else p.

Definition abspath (cwd path : string) : string :=
  normpath (if isabs path then path else join cwd path).

End OsPath.

(** ** cache_manager.py *)

Module CacheManager.
Import Utils IndexDb.

Definition get_repo_dir (cwd base_path repo_rid : string) : res string :=
  if negb (startswith rid_prefix repo_rid) then Raise (invalid_rid repo_rid)
  else
    dir_name ← repo_rid_to_dirname repo_rid;
    Ok (OsPath.abspath cwd (OsPath.normpath (OsPath.join base_path dir_name))).

(** The key under which a repository directory is locked. *)
Definition lock_key (cwd repo_dir : string) : string :=
  OsPath.abspath cwd (OsPath.normpath repo_dir).

(** [repo_locks.setdefault(key, asyncio.Lock())].  The dictionary
    [repo_locks] is a [gmap string bool]: the lock of every key that has
    been referenced, with [true] for a lock that is held.  An entry, once
    made, stays: only [clear_locks], which the tests call, empties the
    dictionary. *)
Definition setdefault (key : string) (locks : gmap string bool)
    : gmap string bool :=
  match locks !! key with
  | Some _ => locks
  | None => <[key := false]> locks
  end.

Definition clear_locks (locks : gmap string bool) : gmap string bool := ∅.

(** *** One call, run to completion

    [with_repo_lock] when nothing else runs in between.  A held lock
    makes [acquire] wait for ever: there is then no result ([None]). *)
Definition with_repo_lock {A : Type} (cwd repo_dir : string)
    (coro : db -> res A * db) (locks : gmap string bool) (d : db)
    : option (res A * gmap string bool * db) :=
  let key := lock_key cwd repo_dir in
  let locks1 := setdefault key locks in
  match locks1 !! key with
  | Some true => None
  | _ =>
      let held := <[key := true]> locks1 in
      let '(r, d') := coro d in
      Some (r, <[key := false]> held, d')
  end.

(** *** Several calls in flight

    Tasks of one event loop, each executing [with_repo_lock].  The
    awaited operation is a sequence of storage steps, between which
    the task may be suspended. *)
Inductive exit : Type :=
| Returned
| Raised (e : exn)
| Cancelled.

Definition body := list (db -> res unit * db).

Inductive task : Type :=
| Created (repo_dir : string) (b : body)   (* called, nothing done yet *)
| Waiting (key : string) (b : body)        (* suspended in [acquire] *)
| Holding (key : string) (b : body)        (* inside [async with lock] *)
| Done (x : exit).

Record sys : Type := {
  locks : gmap string bool;
  index : db;
  tasks : list task
}.

Inductive step (cwd : string) : sys -> sys -> Prop :=
| step_lookup s i repo_dir b :
    tasks s !! i = Some (Created repo_dir b) ->
    step cwd s
      {| locks := setdefault (lock_key cwd repo_dir) (locks s);
         index := index s;
         tasks := <[i := Waiting (lock_key cwd repo_dir) b]> (tasks s) |}
| step_acquire s i key b :
    tasks s !! i = Some (Waiting key b) ->
    locks s !! key = Some false ->
    step cwd s
      {| locks := <[key := true]> (locks s);
         index := index s;
         tasks := <[i := Holding key b]> (tasks s) |}
| step_run s i key f b d' :
    tasks s !! i = Some (Holding key (f :: b)) ->
    f (index s) = (Ok tt, d') ->
    step cwd s
      {| locks := locks s;
         index := d';
         tasks := <[i := Holding key b]> (tasks s) |}
| step_raise s i key f b e d' :
    tasks s !! i = Some (Holding key (f :: b)) ->
    f (index s) = (Raise e, d') ->
    step cwd s
      {| locks := <[key := false]> (locks s);
         index := d';
         tasks := <[i := Done (Raised e)]> (tasks s) |}
| step_return s i key :
    tasks s !! i = Some (Holding key []) ->
    step cwd s
      {| locks := <[key := false]> (locks s);
         index := index s;
         tasks := <[i := Done Returned]> (tasks s) |}
| step_cancel_holding s i key b :
    tasks s !! i = Some (Holding key b) ->
    step cwd s
      {| locks := <[key := false]> (locks s);
         index := index s;
         tasks := <[i := Done Cancelled]> (tasks s) |}
| step_cancel_waiting s i key b :
    tasks s !! i = Some (Waiting key b) ->
    step cwd s
      {| locks := locks s;
         index := index s;
         tasks := <[i := Done Cancelled]> (tasks s) |}.

(** The states a run can reach when every task starts at its call. *)
Definition initial (s : sys) : Prop :=
  (∀ key, locks s !! key ≠ Some true) ∧
  (∀ i t, tasks s !! i = Some t → ∃ repo_dir b, t = Created repo_dir b).

Inductive reachable (cwd : string) : sys -> Prop :=
| reach_init s : initial s -> reachable cwd s
| reach_step s s' : reachable cwd s -> step cwd s s' -> reachable cwd s'.

End CacheManager.

(** ** handlers.py *)

Module Handlers.
Import IndexDb Repository.

(** *** What the handlers see of [koi_net] and [rid_lib] *)

Inductive rid_type : Type :=
| KoiNetNode
| KoiNetEdge
| GitHubEvent
| OtherRid (name : string).

Definition rid_type_eqb (a b : rid_type) : bool :=
  match a, b with
  | KoiNetNode, KoiNetNode => true
  | KoiNetEdge, KoiNetEdge => true
  | GitHubEvent, GitHubEvent => true
  | OtherRid x, OtherRid y => String.eqb x y
  | _, _ => false
  end.

(** A resource identifier: its class and its text, [str(rid)]. *)
Record RID : Type := { rtype : rid_type; text : string }.

Record Manifest : Type := {
  m_rid : RID;
  m_timestamp : string;
  sha256_hash : string
}.

(** Both fields of a bundle are required ones. *)
Record Bundle : Type := { manifest : Manifest; contents : dict }.

Inductive EventType : Type := NEW | UPDATE | FORGET.

Inductive KnowledgeSource : Type := Internal | External.

Record KnowledgeObject : Type := {
  rid : RID;
  k_manifest : option Manifest;
  k_contents : option dict;
  normalized_event_type : option EventType;
  source : KnowledgeSource
}.

(** The property [kobj.bundle]. *)
Definition bundle (kobj : KnowledgeObject) : option Bundle :=
  match k_manifest kobj, k_contents kobj with
  | Some m, Some c => Some {| manifest := m; contents := c |}
  | _, _ => None
  end.

Definition set_normalized (kobj : KnowledgeObject) (t : EventType)
    : KnowledgeObject :=
  {| rid := rid kobj;
     k_manifest := k_manifest kobj;
     k_contents := k_contents kobj;
     normalized_event_type := Some t;
     source := source kobj |}.

(** What a handler hands back to the pipeline. *)
Inductive handled : Type :=
| STOP_CHAIN
| Return (kobj : KnowledgeObject)
| ReturnNone.

Record RepositoryService : Type := { index_db_path : string }.

(** The state the bundle handler works on: the node's cache
    ([proc.cache]), the module variable [repository_service], the
    database file behind [index_db_path], and [repo_locks]. *)
Record node : Type := {
  cache : gmap string Bundle;
  repository_service : option RepositoryService;
  index : db;
  repo_locks : gmap string bool
}.

Definition set_index (n : node) (d : db) : node :=
  {| cache := cache n;
     repository_service := repository_service n;
     index := d;
     repo_locks := repo_locks n |}.

Definition set_cache (n : node) (c : gmap string Bundle) : node :=
  {| cache := c;
     repository_service := repository_service n;
     index := index n;
     repo_locks := repo_locks n |}.

(** *** handle_event_bundle *)

(** What the handler writes to the log about the delivery. *)
Inductive report : Type :=
| Unchanged                 (* "unchanged (same hash), skipping processing" *)
| NotProcessed              (* no service, no bundle or empty contents *)
| Processed (o : outcome).

(** Lines 55-60.  [prev] is a bundle or [None]; a bundle and its
    manifest are objects, which count as true in a condition. *)
Definition hash_changed (prev : option Bundle) (kobj : KnowledgeObject)
    : bool :=
  match prev, k_manifest kobj with
  | Some p, Some m =>
      negb (String.eqb (sha256_hash (manifest p)) (sha256_hash m))
  | _, _ => true
  end.

Definition is_update (prev : option Bundle) : bool :=
  match prev with Some _ => true | None => false end.

Definition handle_event_bundle `{Runtime} (now : string) (n : node)
    (kobj : KnowledgeObject) : handled * report * node :=
  let prev := cache n !! text (rid kobj) in
  if is_update prev && negb (hash_changed prev kobj) then
    (STOP_CHAIN, Unchanged, n)
  else
    let kobj' := set_normalized kobj (if is_update prev then UPDATE else NEW) in
    match repository_service n with
    | None => (Return kobj', NotProcessed, n)
    | Some _ =>
        match bundle kobj' with
        | None => (Return kobj', NotProcessed, n)
        | Some b =>
            if negb (truthy (JObj (contents b))) then
              (Return kobj', NotProcessed, n)
            else
              let '(result, d') :=
                process_github_event_bundle now (index n)
                  (text (rid kobj')) (contents b) in
              (Return kobj', Processed result, set_index n d')
        end
    end.

(** The classification the handler makes of a delivery. *)
Inductive classification : Type := IsNew | IsUpdated | IsUnchanged.

Definition classify (h : handled) : option classification :=
  match h with
  | STOP_CHAIN => Some IsUnchanged
  | Return kobj =>
      match normalized_event_type kobj with
      | Some NEW => Some IsNew
      | Some UPDATE => Some IsUpdated
      | _ => None
      end
  | ReturnNone => None
  end.

(** The step of the [koi_net] pipeline around the bundle handlers: a
    knowledge object that comes back marked new or updated has its
    bundle written to the cache ("return kobj to allow caching"). *)
Definition deliver `{Runtime} (now : string) (n : node)
    (kobj : KnowledgeObject) : handled * report * node :=
  match handle_event_bundle now n kobj with
  | (Return k, rep, n') =>
      match normalized_event_type k, bundle k with
      | Some NEW, Some b | Some UPDATE, Some b =>
          (Return k, rep, set_cache n' (<[text (rid k) := b]> (cache n')))
      | _, _ => (Return k, rep, n')
      end
  | other => other
  end.

(** *** handle_network_discovery *)

Record NodeProfile : Type := {
  provides_event : list rid_type;
  provides_state : list rid_type
}.

(** The peer and the library calls the handler depends on. *)
Record Network : Type := {
  validate_contents : dict -> res NodeProfile;
  fetch_rids : RID -> list rid_type -> res (option (list RID));
  fetch_bundles : RID -> list RID -> res (list Bundle)
}.

Inductive EdgeType : Type := WEBHOOK | POLL.

(** What the handler asks of the processor and of the network. *)
Inductive action : Type :=
| ProposeEdge (source_ target : RID) (edge_type : EdgeType)
    (rid_types : list rid_type)
| FetchRids (peer : RID) (rid_types : list rid_type)
| FetchBundles (peer : RID) (rids : list RID)
| HandleBundle (b : Bundle) (source_ : KnowledgeSource).

Definition provides (t : rid_type) (profile : NodeProfile) : bool :=
  existsb (rid_type_eqb t) (provides_event profile).

(** Lines 155-164: the cold-start catch-up and its [except] clause. *)
Definition catch_up (net : Network) (peer : RID) : list action :=
  FetchRids peer [GitHubEvent] ::
  match fetch_rids net peer [GitHubEvent] with
  | Ok (Some (r :: rs)) =>
      FetchBundles peer (r :: rs) ::
      match fetch_bundles net peer (r :: rs) with
      | Ok bundles => map (λ b, HandleBundle b External) bundles
      | Raise _ => []
      end
  | _ => []
  end.

Definition handle_network_discovery (net : Network) (identity : RID)
    (kobj : KnowledgeObject) : handled * list action :=
  match normalized_event_type kobj with
  | Some NEW =>
      match source kobj with
      | Internal => (ReturnNone, [])
      | External =>
          match bundle kobj with
          | None => (ReturnNone, [])
          | Some b =>
              match validate_contents net (contents b) with
              | Raise _ => (Return kobj, [])
              | Ok profile =>
                  if negb (provides GitHubEvent profile) then (ReturnNone, [])
                  else
                    let proposal :=
                      match rtype (rid kobj) with
                      | KoiNetNode =>
                          [ProposeEdge identity (rid kobj) WEBHOOK [GitHubEvent]]
                      | _ => []
                      end in
                    (Return kobj, (proposal ++ catch_up net (rid kobj))%list)
              end
          end
      end
  | _ => (ReturnNone, [])
  end.

(** The registration [rid_types=[KoiNetNode]]: the pipeline calls the
    handler for knowledge objects of that class only. *)
Definition registered_for_discovery (kobj : KnowledgeObject) : bool :=
  rid_type_eqb (rtype (rid kobj)) KoiNetNode.

End Handlers.


(** ** Vocabulary of the statements *)

(** An interpreter to evaluate concrete runs with.  The runs in this
    file format strings only and never call [str.title]. *)
Definition demo_runtime : Runtime :=
  {| str_other := λ _, "<object>"; str_title := λ s, s |}.

(** [c] occurs in [s]. *)
Fixpoint has_char (c : ascii) (s : string) : bool :=
  match s with
  | EmptyString => false
  | String a s' => Ascii.eqb a c || has_char c s'
  end.

(** The decoding failure as the specification words it: the namespace
    prefix is missing, or what follows it does not split on its first
    ["/"] into two non-empty segments. *)
Definition spec_malformed (repo_rid : string) : bool :=
  match strip_prefix Utils.rid_prefix repo_rid with
  | None => true
  | Some remainder =>
      match split_once "/" remainder with
      | None => true
      | Some (owner, repo) => String.eqb owner "" || String.eqb repo ""
      end
  end.

(** No row of [events] is an orphan: its [repo_rid] is a key of
    [repositories]. *)
Definition no_orphans (d : IndexDb.db) : Prop :=
  Forall (λ r, is_Some (IndexDb.repositories d !! IndexDb.ev_repo_rid r))
         (IndexDb.events d).

(** The calls of [index_db] that write, and a run of them. *)
Inductive db_call : Type :=
| CallAddRepository (now repo_rid : string) (repo_url_ : json)
| CallAddEventMetadata (now event_rid_ repo_rid : string)
    (event_type_ timestamp_ commit_sha_ : json) (summary_ bundle_rid_ : string)
| CallUpdateLatestCommit (repo_rid latest_commit_sha timestamp_ : string)
| CallPrune (expired : IndexDb.cell -> bool).

Definition run_call (d : IndexDb.db) (c : db_call) : IndexDb.db :=
  match c with
  | CallAddRepository now repo_rid repo_url_ =>
      snd (IndexDb.add_repository now d repo_rid repo_url_)
  | CallAddEventMetadata now e r ty ts sha text b =>
      snd (IndexDb.add_event_metadata now d e r ty ts sha text b)
  | CallUpdateLatestCommit r sha ts =>
      IndexDb.update_repository_latest_commit d r sha ts
  | CallPrune expired => IndexDb.prune_old_data expired d
  end.

Definition run_calls (d : IndexDb.db) (cs : list db_call) : IndexDb.db :=
  fold_left run_call cs d.

(** Payloads of concrete runs. *)
Definition acme_repository : json :=
  JObj [("owner", JObj [("login", JStr "acme")]);
        ("name", JStr "widgets");
        ("clone_url", JStr "https://github.com/acme/widgets.git")].

(** A push as the webhook delivers it. *)
Definition push_payload : dict :=
  [("repository", acme_repository);
   ("head_commit", JObj [("id", JStr "abc1234");
                         ("timestamp", JStr "2024-05-01T10:00:00Z");
                         ("message", JStr "Fix the build")])].

(** The same push with a head commit whose timestamp is [null]. *)
Definition push_without_time : dict :=
  [("repository", acme_repository);
   ("head_commit", JObj [("id", JStr "abc1234"); ("timestamp", JNull)])].

(** A commit as the back-fill delivers it. *)
Definition backfill_commit_payload : dict :=
  [("event_source_type", JStr "backfill_commit");
   ("payload",
    JObj [("url", JStr "https://api.example.com/repos/acme/widgets/commits/abc123");
          ("sha", JStr "abc123");
          ("commit", JObj [("author", JObj [("date", JStr "2024-04-30T08:00:00Z")]);
                           ("message", JStr "Initial import")])])].

(** [v[k1][k2]...] *)
Fixpoint path (v : json) (keys : list string) : res json :=
  match keys with
  | [] => Ok v
  | k :: keys' => x ← getitem v k; path x keys'
  end.

(** The three payload shapes, each by its own loose test. *)
Definition webhook_shape (p : dict) : bool := contains "repository" p.

Definition backfill_shape (kind : string) (p : dict) : bool :=
  contains "event_source_type" p && contains "payload" p
  && eq_str (get p "event_source_type" JNull) kind.

Definition unrecognized (p : dict) : bool :=
  negb (webhook_shape p)
  && negb (backfill_shape "backfill_repo_details" p)
  && negb (backfill_shape "backfill_commit" p).

(** A node that is up, with nothing stored, cached or locked yet. *)
Definition fresh_node : Handlers.node :=
  {| Handlers.cache := ∅;
     Handlers.repository_service :=
       Some {| Handlers.index_db_path := "index.db" |};
     Handlers.index := IndexDb.initialize_db;
     Handlers.repo_locks := ∅ |}.

(** The delivery of [push_payload] as event [orn:github.event:1]. *)
Definition push_delivery : Handlers.KnowledgeObject :=
  let event_rid :=
    {| Handlers.rtype := Handlers.GitHubEvent;
       Handlers.text := "orn:github.event:1" |} in
  {| Handlers.rid := event_rid;
     Handlers.k_manifest :=
       Some {| Handlers.m_rid := event_rid;
               Handlers.m_timestamp := "2024-05-01T10:00:05Z";
               Handlers.sha256_hash := "9f2c" |};
     Handlers.k_contents := Some push_payload;
     Handlers.normalized_event_type := None;
     Handlers.source := Handlers.External |}.

(** The delivery of [push_without_time] as event [orn:github.event:2]. *)
Definition untimed_delivery : Handlers.KnowledgeObject :=
  let event_rid :=
    {| Handlers.rtype := Handlers.GitHubEvent;
       Handlers.text := "orn:github.event:2" |} in
  {| Handlers.rid := event_rid;
     Handlers.k_manifest :=
       Some {| Handlers.m_rid := event_rid;
               Handlers.m_timestamp := "2024-05-01T10:00:06Z";
               Handlers.sha256_hash := "77e0" |};
     Handlers.k_contents := Some push_without_time;
     Handlers.normalized_event_type := None;
     Handlers.source := Handlers.External |}.

(** A node that is up before its repository service has been set. *)
Definition idle_node : Handlers.node :=
  {| Handlers.cache := ∅;
     Handlers.repository_service := None;
     Handlers.index := IndexDb.initialize_db;
     Handlers.repo_locks := ∅ |}.

(** A peer that advertises GitHub events, the answer [history] it gives
    when asked for the identifiers of its events, and the knowledge
    object that announces it. *)
Definition sensor_rid : Handlers.RID :=
  {| Handlers.rtype := Handlers.KoiNetNode;
     Handlers.text := "orn:koi-net.node:github-sensor" |}.

Definition processor_rid : Handlers.RID :=
  {| Handlers.rtype := Handlers.KoiNetNode;
     Handlers.text := "orn:koi-net.node:processor" |}.

Definition sensor_network (history : option (list Handlers.RID))
    : Handlers.Network :=
  {| Handlers.validate_contents := λ _,
       Ok {| Handlers.provides_event := [Handlers.GitHubEvent];
             Handlers.provides_state := [] |};
     Handlers.fetch_rids := λ _ _, Ok history;
     Handlers.fetch_bundles := λ _ _, Ok [] |}.

Definition sensor_discovery : Handlers.KnowledgeObject :=
  {| Handlers.rid := sensor_rid;
     Handlers.k_manifest :=
       Some {| Handlers.m_rid := sensor_rid;
               Handlers.m_timestamp := "2024-05-01T09:00:00Z";
               Handlers.sha256_hash := "51ab" |};
     Handlers.k_contents := Some [("node_type", JStr "FULL")];
     Handlers.normalized_event_type := Some Handlers.NEW;
     Handlers.source := Handlers.External |}.

(** Task [i] is inside [async with lock] for [key]. *)
Definition holding (ts : list CacheManager.task) (i : nat) (key : string)
    : Prop :=
  exists b, ts !! i = Some (CacheManager.Holding key b).

(** At most one task is inside the guarded region of a key. *)
Definition exclusive (s : CacheManager.sys) : Prop :=
  forall i j key,
    holding (CacheManager.tasks s) i key ->
    holding (CacheManager.tasks s) j key -> i = j.

(** A lock is held exactly while some task is inside its region. *)
Definition held_while_inside (s : CacheManager.sys) : Prop :=
  forall key,
    CacheManager.locks s !! key = Some true <->
    exists i, holding (CacheManager.tasks s) i key.

(** Two guarded operations on one repository directory, given once as
    a relative and once as an absolute path. *)
Definition two_tasks : CacheManager.sys :=
  {| CacheManager.locks := ∅;
     CacheManager.index := IndexDb.initialize_db;
     CacheManager.tasks :=
       [CacheManager.Created "repos/acme__widgets.git" [];
        CacheManager.Created "/srv/repos/acme__widgets.git" []] |}.

(** [s] is the path component [d], or ends in ["/"] followed by [d]. *)
Definition ends_with_component (d s : string) : Prop :=
  s = d \/ exists x, s = x ++ String "/" d.

(** A component that names a directory entry. *)
Definition plain_name (d : string) : Prop :=
  has_char "/" d = false /\ d <> "" /\ d <> "." /\ d <> "..".

(** The identifier of an owner and a repository given as strings. *)
Definition rid_of (owner repo : string) : string :=
  Utils.rid_prefix ++ owner ++ "/" ++ repo.

(** Components of a path: one that the normalisation loop keeps on its
    stack (it is never [""] or ["."]), one that holds no separator, and
    one that is an entry of an absolute normal form (never [".."]). *)
Definition kept (c : string) : Prop := c <> "" /\ c <> ".".

Definition free (c : string) : Prop := has_char "/" c = false.

Definition entry (c : string) : Prop := kept c /\ c <> ".." /\ free c.

(** [two_tasks] after both tasks have looked their lock up and the
    first has acquired it. *)
Definition one_inside : CacheManager.sys :=
  let key := "/srv/repos/acme__widgets.git" in
  {| CacheManager.locks := <[key := true]> (<[key := false]> ∅);
     CacheManager.index := IndexDb.initialize_db;
     CacheManager.tasks :=
       [CacheManager.Holding key []; CacheManager.Waiting key []] |}.

(* ===================================================================== *)
(** * Part I, continued: the rest of the code                             *)
(* ===================================================================== *)

(** ** utils.py: directories, URLs, references *)

Module MoreUtils.
Import Utils.

(** The directory with the owner as a level of its own. *)
Definition get_repo_dir_from_rid (base_path repo_rid : string) : res string :=
  if negb (startswith rid_prefix repo_rid) then Raise (invalid_rid repo_rid)
  else
    owner_repo ← owner_repo_part repo_rid;
    Ok (OsPath.join base_path (owner_repo ++ ".git")).

(** [s.endswith(suffix)] *)
Fixpoint endswith (suffix s : string) : bool :=
  String.eqb suffix s
  || match s with
     | EmptyString => false
     | String _ s' => endswith suffix s'
     end.

(** [s.rstrip(c)] for one character. *)
Fixpoint rstrip (c : ascii) (s : string) : string :=
  match s with
  | EmptyString => EmptyString
  | String a s' =>
      let r := rstrip c s' in
      if String.eqb r "" && Ascii.eqb a c then EmptyString else String a r
  end.

(** [s[:-n]] *)
Definition drop_last (n : nat) (s : string) : string :=
  take (String.length s - n) s.

(** What [get_repo_rid_from_url] reads of the result of [urlparse]. *)
Record ParseResult : Type := { netloc : string; url_path : string }.

(** [urlparse] is the library's; it is an argument here. *)
Definition get_repo_rid_from_url `{Runtime}
    (urlparse : string -> res ParseResult) (repo_url : string) : res string :=
  parsed ← urlparse repo_url;
  if negb (endswith "github.com" (netloc parsed)) then
    Raise (ValueError ("Not a GitHub URL: " ++ repo_url))
  else
    let path := rstrip "/" (url_path parsed) in
    let path := if endswith ".git" path then drop_last 4 path else path in
    let parts := filter (λ part, part ≠ "") (split "/" path) in
    if (length parts <? 2)%nat then
      Raise (ValueError ("Invalid GitHub URL format: " ++ repo_url))
    else
      match parts with
      | owner :: repo :: _ =>
          Ok (owner_repo_to_repo_rid (JStr owner) (JStr repo))
      | _ => Raise IndexError
      end.

(** The class [[a-zA-Z0-9\-_.\/]] of the pattern. *)
Definition ref_char (c : ascii) : bool :=
  let n := nat_of_ascii c in
  ((48 <=? n) && (n <=? 57) || (65 <=? n) && (n <=? 90)
   || (97 <=? n) && (n <=? 122)
   || (n =? 45) || (n =? 95) || (n =? 46) || (n =? 47))%nat.

Definition newline : string := String (ascii_of_nat 10) EmptyString.

(** [re.match(r'^[a-zA-Z0-9\-_.\/]+$', s)]: one or more characters of the
    class, up to the end of the string or to a newline that ends it. *)
Fixpoint ref_match (s : string) : bool :=
  match s with
  | EmptyString => false
  | String c rest =>
      ref_char c
      && (ref_match rest || String.eqb rest "" || String.eqb rest newline)
  end.

Definition sanitize_git_reference (reference : string) : res string :=
  if negb (ref_match reference) then
    Raise (ValueError ("Invalid Git reference format: " ++ reference))
  else Ok reference.

Definition backslash : ascii := ascii_of_nat 92.

Definition format_unix_path (path : string) : string :=
  replace backslash "/" path.

End MoreUtils.

(** ** cache_manager.py: the lock of a directory *)

Module LockRegistry.
Import CacheManager.

(** [get_repo_lock]: the lock is named by its key; the dictionary may
    have grown by it. *)
Definition get_repo_lock (cwd repo_dir : string) (locks : gmap string bool)
    : string * gmap string bool :=
  let key := lock_key cwd repo_dir in
  (key, setdefault key locks).

End LockRegistry.

(** ** index_db.py: the queries *)

Module Queries.
Import IndexDb.

(** The columns [get_events_for_repo] selects. *)
Record event_info : Type := {
  i_event_rid : string;
  i_event_type : cell;
  i_timestamp : cell;
  i_commit_sha : cell;
  i_summary : string;
  i_bundle_rid : string
}.

Definition select_info (r : event_row) : event_info :=
  {| i_event_rid := event_rid r;
     i_event_type := event_type r;
     i_timestamp := timestamp r;
     i_commit_sha := commit_sha r;
     i_summary := summary r;
     i_bundle_rid := bundle_rid r |}.

(** [LIMIT ? OFFSET ?]: a negative offset counts as none, a negative
    limit as no limit. *)
Definition page {A : Type} (limit offset : Z) (rows : list A) : list A :=
  let rest := skipn (Z.to_nat offset) rows in
  if (limit <? 0)%Z then rest else firstn (Z.to_nat limit) rest.

(** [get_events_for_repo].  The parameters are bound first: an integer
    outside 64 bits raises.  [order] is [ORDER BY timestamp DESC]: the
    sequence in which SQLite hands the selected rows over. *)
Definition get_events_for_repo (order : list event_row -> list event_row)
    (d : db) (repo_rid : string) (limit offset : Z)
    : res (list event_info) :=
  _ ← bind_param (JStr repo_rid);
  _ ← bind_param (JNum limit);
  _ ← bind_param (JNum offset);
  Ok (map select_info (page limit offset (order (events_of_repo d repo_rid)))).

(** [timestamp < datetime('now', '-' || ? || ' days')], the condition of
    the [DELETE] in [prune_old_data].  [cutoff] is the value of the
    right-hand side: a text [YYYY-MM-DD HH:MM:SS], or NULL ([None]) when
    the modifier is not a valid one, as for a negative [days_to_keep].
    A comparison with NULL is not true; a number sorts before every
    text; two texts are compared byte by byte. *)
Definition expired_before (cutoff : option string) (c : cell) : bool :=
  match cutoff, c with
  | None, _ => false
  | Some _, CNull => false
  | Some _, CInt _ => true
  | Some limit, CText t => String.ltb t limit
  end.

End Queries.

(** ** cli.py *)

Module Cli.
Import Utils IndexDb Queries.

(** [sub in s] *)
Definition str_contains (sub s : string) : bool :=
  match split_once sub s with Some _ => true | None => false end.

(** The first lines of [show_events_cmd] and of [add_repo_cmd]: an
    argument [owner/repo] is turned into an identifier, anything else is
    taken for one. *)
Definition resolve_repo_arg `{Runtime} (repo_arg : string) : res string :=
  if str_contains "/" repo_arg && negb (startswith "orn:" repo_arg) then
    match split1 "/" repo_arg with
    | [owner; repo] => Ok (owner_repo_to_repo_rid (JStr owner) (JStr repo))
    | _ => Raise (ValueError "not enough values to unpack")
    end
  else Ok repo_arg.

(** What the command line depends on and the embedding leaves open:
    [Console().print] of rich, which reads its argument as markup and
    raises on markup it cannot parse, and the text [str(e)] of an
    exception. *)
Record Console : Type := {
  console_print : string -> res unit;
  str_exn : exn -> string
}.

(** The three texts [add_repo_cmd] prints. *)
Definition adding_text (owner repo : string) : string :=
  "Adding repository [cyan]" ++ owner ++ "/" ++ repo
  ++ "[/cyan] to database...".

Definition added_text (repo_rid : string) : string :=
  "[green]Repository added successfully:[/green] " ++ repo_rid.

Definition error_text (console : Console) (e : exn) : string :=
  "[red]Error adding repository:[/red] " ++ str_exn console e.

(** The [try] block of [add_repo_cmd]: what it raised, if anything, the
    texts that were printed, and the database. *)
Definition try_add_repo (console : Console) (now : string) (d : db)
    (repo_rid : string) : res unit * list string * db :=
  match repo_rid_to_owner_repo repo_rid with
  | Raise e => (Raise e, [], d)
  | Ok (owner, repo) =>
      let repo_url := "https://github.com/" ++ owner ++ "/" ++ repo in
      match console_print console (adding_text owner repo) with
      | Raise e => (Raise e, [], d)
      | Ok _ =>
          match add_repository now d repo_rid (JStr repo_url) with
          | (Raise e, d') => (Raise e, [adding_text owner repo], d')
          | (Ok _, d') =>
              match console_print console (added_text repo_rid) with
              | Raise e => (Raise e, [adding_text owner repo], d')
              | Ok _ =>
                  (Ok tt, [adding_text owner repo; added_text repo_rid], d')
              end
          end
      end
  end.

(** [add_repo_cmd]: the [try] block and its [except Exception] clause,
    which prints as well and is not guarded. *)
Definition add_repo_cmd `{Runtime} (console : Console) (now : string)
    (d : db) (repo_arg : string) : res unit * list string * db :=
  match resolve_repo_arg repo_arg with
  | Raise e => (Raise e, [], d)
  | Ok repo_rid =>
      match try_add_repo console now d repo_rid with
      | (Ok _, printed, d') => (Ok tt, printed, d')
      | (Raise e, printed, d') =>
          match console_print console (error_text console e) with
          | Raise e' => (Raise e', printed, d')
          | Ok _ => (Ok tt, (printed ++ [error_text console e])%list, d')
          end
      end
  end.

End Cli.

(** ** handlers.py: the service the handlers use *)

Module ServiceSetup.
Import Handlers.

(** [set_repository_service]: the module variable is assigned. *)
Definition set_repository_service (n : node) (service : RepositoryService)
    : node :=
  {| cache := cache n;
     repository_service := Some service;
     index := index n;
     repo_locks := repo_locks n |}.

End ServiceSetup.

(** ** Vocabulary of the further statements *)

(** Every character of [s] passes [test]. *)
Fixpoint all_chars (test : ascii -> bool) (s : string) : bool :=
  match s with
  | EmptyString => true
  | String a s' => test a && all_chars test s'
  end.

(** Every repository identifier in the database can be decoded. *)
Definition decodable (d : IndexDb.db) : Prop :=
  forall k,
    is_Some (IndexDb.repositories d !! k) ->
    exists owner repo, Utils.repo_rid_to_owner_repo k = Ok (owner, repo).

(** No two rows of [events] hold the same identifier. *)
Definition unique_events (d : IndexDb.db) : Prop :=
  NoDup (map IndexDb.event_rid (IndexDb.events d)).

(** What [urlparse] gives for a URL [scheme://host/path] that has no
    query and no fragment. *)
Definition parse_plain_url (url : string) : res MoreUtils.ParseResult :=
  match split_once "://" url with
  | None => Ok {| MoreUtils.netloc := ""; MoreUtils.url_path := url |}
  | Some (_, rest) =>
      match split_once "/" rest with
      | None => Ok {| MoreUtils.netloc := rest; MoreUtils.url_path := "" |}
      | Some (host, p) =>
          Ok {| MoreUtils.netloc := host; MoreUtils.url_path := "/" ++ p |}
      end
  end.

(** A value that [v[:7]] accepts. *)
Definition sliceable (v : json) : bool :=
  match v with
  | JStr _ => true
  | JArr _ => true
  | _ => false
  end.

(** The path of the URL of a repository, as GitHub shows it or as
    [git clone] takes it. *)
Definition repo_path (owner repo : string) (dot_git : bool) : string :=
  "/" ++ owner ++ "/" ++ repo ++ (if dot_git then ".git" else "").

(** The references that the pattern of [sanitize_git_reference] matches:
    a non-empty run of characters of the class, and possibly one newline
    after it. *)
Definition reference_shape (reference : string) : Prop :=
  exists body,
    body <> "" /\ all_chars MoreUtils.ref_char body = true /\
    (reference = body \/ reference = body ++ MoreUtils.newline).

(** The table [repositories] after [add_repository] has stored the
    cell [url] for [repo_rid]. *)
Definition upserted (now repo_rid : string) (url : IndexDb.cell)
    (m : gmap string IndexDb.repo_row) : gmap string IndexDb.repo_row :=
  <[repo_rid :=
      {| IndexDb.repo_url := url;
         IndexDb.first_indexed :=
           match m !! repo_rid with
           | Some row => IndexDb.first_indexed row
           | None => now
           end;
         IndexDb.last_updated := now |}]> m.

(** The table [repositories] after [add_event_metadata] has made sure
    that [repo_rid] has a row. *)
Definition ensured (now repo_rid : string)
    (m : gmap string IndexDb.repo_row) : gmap string IndexDb.repo_row :=
  match m !! repo_rid with
  | Some _ => m
  | None =>
      <[repo_rid := {| IndexDb.repo_url := IndexDb.CText ("orn:" ++ repo_rid);
                       IndexDb.first_indexed := now;
                       IndexDb.last_updated := now |}]> m
  end.

(** The three cells of an event row that are bound from values of the
    payload, as the [INSERT OR REPLACE] accepts them. *)
Definition event_cells (event_type_ timestamp_ commit_sha_ : json)
    : res (IndexDb.cell * IndexDb.cell * IndexDb.cell) :=
  ty ← IndexDb.bind_param event_type_;
  ts ← IndexDb.bind_param timestamp_;
  sha ← IndexDb.bind_param commit_sha_;
  ty' ← IndexDb.not_null ty;
  ts' ← IndexDb.not_null ts;
  Ok (ty', ts', sha).

(** The table [events] after a row for [event_rid_] has been written. *)
Definition replaced (event_rid_ : string) (row : IndexDb.event_row)
    (rows : list IndexDb.event_row) : list IndexDb.event_row :=
  (filter (λ r, IndexDb.event_rid r ≠ event_rid_) rows ++ [row])%list.

(** The database after [process_github_event_bundle]: [url] is the cell
    stored for the repository, if [add_repository] was reached and
    succeeded, and [row] the event row, if one was written. *)
Definition written (now repo_rid kobj_rid : string)
    (url : option IndexDb.cell) (row : option IndexDb.event_row)
    (d : IndexDb.db) : IndexDb.db :=
  match url with
  | None => d
  | Some u =>
      {| IndexDb.repositories :=
           upserted now repo_rid u (IndexDb.repositories d);
         IndexDb.events :=
           match row with
           | None => IndexDb.events d
           | Some x => replaced kobj_rid x (IndexDb.events d)
           end |}
  end.

(** What changes the database of a node that is run through its
    service and its command line. *)
Inductive command : Type :=
| Ingest (now kobj_rid : string) (payload : dict)
| AddRepo (now repo_arg : string)
| Prune (expired : IndexDb.cell -> bool)
| LatestCommit (repo_rid latest_commit_sha timestamp_ : string).

Definition run_command `{Runtime} (console : Cli.Console) (d : IndexDb.db)
    (c : command) : IndexDb.db :=
  match c with
  | Ingest now kobj_rid payload =>
      snd (Repository.process_github_event_bundle now d kobj_rid payload)
  | AddRepo now repo_arg => snd (Cli.add_repo_cmd console now d repo_arg)
  | Prune expired => IndexDb.prune_old_data expired d
  | LatestCommit repo_rid sha ts =>
      IndexDb.update_repository_latest_commit d repo_rid sha ts
  end.

Definition run_commands `{Runtime} (console : Cli.Console)
    (d : IndexDb.db) (cs : list command) : IndexDb.db :=
  fold_left (run_command console) cs d.

(** A terminal that prints every text. *)
Definition plain_console : Cli.Console :=
  {| Cli.console_print := λ _, Ok tt;
     Cli.str_exn := λ e, match e with ValueError m => m | _ => "error" end |}.

(** The identifier [add_repo_cmd] and [show_events_cmd] take for an
    argument. *)
Definition resolved (repo_arg : string) : string :=
  if has_char "/" repo_arg && negb (startswith "orn:" repo_arg)
  then Utils.rid_prefix ++ repo_arg
  else repo_arg.

(* ===================================================================== *)
(** * Part II: properties                                                 *)
(* ===================================================================== *)

(** ** Strings *)

#[local] Arguments String.append !_ _ / : simpl nomatch.

Section Strings.

Lemma append_nil_r (s : string) : s ++ "" = s.
Proof. induction s as [|a s IH]; simpl; [reflexivity | now rewrite IH]. Qed.

Lemma append_assoc (a b c : string) : (a ++ b) ++ c = a ++ (b ++ c).
Proof. induction a as [|x a IH]; simpl; [reflexivity | now rewrite IH]. Qed.

Lemma strip_prefix_app (p s : string) : strip_prefix p (p ++ s) = Some s.
Proof.
  induction p as [|a p IH]; simpl; [reflexivity |].
  now rewrite Ascii.eqb_refl.
Qed.

Lemma strip_prefix_Some (p s r : string) :
  strip_prefix p s = Some r <-> s = p ++ r.
Proof.
  split.
  - revert s. induction p as [|a p IH]; intros s Hs; simpl in *.
    + congruence.
    + destruct s as [|b s]; [discriminate |].
      destruct (Ascii.eqb_spec a b) as [->|]; [| discriminate].
      now rewrite (IH _ Hs).
  - intros ->. apply strip_prefix_app.
Qed.

Lemma startswith_strip (p s : string) :
  startswith p s = true <-> exists r, strip_prefix p s = Some r.
Proof.
  revert s. induction p as [|a p IH]; intros s; simpl.
  - split; eauto.
  - destruct s as [|b s].
    + split; [discriminate | intros [r Hr]; discriminate].
    + destruct (Ascii.eqb_spec a b) as [->|]; simpl.
      * apply IH.
      * split; [discriminate | intros [r Hr]; discriminate].
Qed.

Lemma startswith_false_strip (p s : string) :
  startswith p s = false <-> strip_prefix p s = None.
Proof.
  destruct (startswith p s) eqn:E.
  - apply startswith_strip in E as [r Hr]. rewrite Hr. split; discriminate.
  - split; [intros _ | reflexivity].
    destruct (strip_prefix p s) as [r|] eqn:Hr; [| reflexivity].
    assert (startswith p s = true) by (apply startswith_strip; eauto).
    congruence.
Qed.

(** A string that begins with the separator is cut right there. *)
Lemma split_once_prefix (sep s rest : string) :
  strip_prefix sep s = Some rest -> split_once sep s = Some ("", rest).
Proof. intros H. destruct s; simpl in *; now rewrite H. Qed.

Lemma has_char_app (c : ascii) (a b : string) :
  has_char c (a ++ b) = has_char c a || has_char c b.
Proof.
  induction a as [|x a IH]; simpl; [reflexivity |].
  now rewrite IH, orb_assoc.
Qed.

Lemma has_char_sep (c : ascii) (a b : string) :
  has_char c (a ++ String c b) = true.
Proof.
  rewrite has_char_app. simpl. rewrite Ascii.eqb_refl. apply orb_true_r.
Qed.

(** Cutting at the first occurrence of a character. *)
Lemma split_once_char (c a : ascii) (s : string) :
  split_once (String c "") (String a s) =
  if Ascii.eqb c a then Some ("", s)
  else match split_once (String c "") s with
       | Some (before, rest) => Some (String a before, rest)
       | None => None
       end.
Proof.
  change (split_once (String c "") (String a s)) with
    (match (if Ascii.eqb c a then Some s else None) with
     | Some rest => Some ("", rest)
     | None =>
         match split_once (String c "") s with
         | Some (before, rest) => Some (String a before, rest)
         | None => None
         end
     end).
  now destruct (Ascii.eqb c a).
Qed.

Lemma split_once_char_app (c : ascii) (owner repo : string) :
  has_char c owner = false ->
  split_once (String c "") (owner ++ String c repo) = Some (owner, repo).
Proof.
  induction owner as [|a owner IH]; intros H.
  - change ("" ++ String c repo) with (String c repo).
    now rewrite split_once_char, Ascii.eqb_refl.
  - simpl in H. apply orb_false_iff in H as [Ha Ho].
    change (String a owner ++ String c repo)
      with (String a (owner ++ String c repo)).
    rewrite split_once_char, Ascii.eqb_sym, Ha.
    now rewrite (IH Ho).
Qed.

Lemma split_once_char_Some (c : ascii) (s owner repo : string) :
  split_once (String c "") s = Some (owner, repo) ->
  s = owner ++ String c repo /\ has_char c owner = false.
Proof.
  revert owner. induction s as [|a s IH]; intros owner H.
  - discriminate.
  - rewrite split_once_char in H.
    destruct (Ascii.eqb_spec c a) as [<-|Hne].
    + injection H as <- <-. split; reflexivity.
    + destruct (split_once (String c "") s) as [[b r]|] eqn:E; [| discriminate].
      injection H as <- <-.
      destruct (IH b eq_refl) as [-> Hb]. split; [reflexivity |].
      simpl. rewrite Hb, orb_false_r.
      apply Ascii.eqb_neq. congruence.
Qed.

Lemma split_once_char_None (c : ascii) (s : string) :
  split_once (String c "") s = None <-> has_char c s = false.
Proof.
  induction s as [|a s IH]; [simpl; tauto |].
  rewrite split_once_char. simpl.
  rewrite (Ascii.eqb_sym a c).
  destruct (Ascii.eqb c a); simpl.
  - split; discriminate.
  - destruct (split_once (String c "") s) as [[b r]|].
    + split; [discriminate |]. intros H. apply IH in H. discriminate.
    + split; [intros _; now apply IH | reflexivity].
Qed.

End Strings.

(** ** The identifier codec *)

Section Codec.
Import Utils.

Lemma owner_repo_part_strip (repo_rid remainder : string) :
  strip_prefix rid_prefix repo_rid = Some remainder ->
  owner_repo_part repo_rid = Ok remainder.
Proof.
  intros H. unfold owner_repo_part, split1.
  now rewrite (split_once_prefix _ _ _ H).
Qed.

(** Decoding, read off the two cuts it makes. *)
Lemma repo_rid_to_owner_repo_cuts (repo_rid : string) :
  repo_rid_to_owner_repo repo_rid =
  match strip_prefix rid_prefix repo_rid with
  | None => Raise (invalid_rid repo_rid)
  | Some remainder =>
      match split_once "/" remainder with
      | Some (owner, repo) => Ok (owner, repo)
      | None => Raise (invalid_rid repo_rid)
      end
  end.
Proof.
  unfold repo_rid_to_owner_repo.
  destruct (strip_prefix rid_prefix repo_rid) as [remainder|] eqn:E.
  - assert (startswith rid_prefix repo_rid = true) as ->
      by (apply startswith_strip; eauto).
    rewrite (owner_repo_part_strip _ _ E). cbn [negb mbind res_bind Py.bind].
    unfold split1.
    now destruct (split_once "/" remainder) as [[owner repo]|].
  - apply startswith_false_strip in E. now rewrite E.
Qed.

Lemma owner_repo_to_repo_rid_str `{Runtime} (owner repo : string) :
  owner_repo_to_repo_rid (JStr owner) (JStr repo)
  = rid_prefix ++ owner ++ "/" ++ repo.
Proof. reflexivity. Qed.

(** C6. Decoding the identifier that encodes an owner and a repository
    gives back that owner and that repository: for every pair of
    segments, the owner being a segment in that it holds no ["/"],
    [repo_rid_to_owner_repo (owner_repo_to_repo_rid owner repo)] is
    [(owner, repo)]. *)
Theorem codec_round_trip `{Runtime} (owner repo : string) :
  has_char "/" owner = false ->
  repo_rid_to_owner_repo (owner_repo_to_repo_rid (JStr owner) (JStr repo))
  = Ok (owner, repo).
Proof.
  intros Hseg.
  rewrite owner_repo_to_repo_rid_str, repo_rid_to_owner_repo_cuts.
  rewrite strip_prefix_app.
  change (owner ++ "/" ++ repo) with (owner ++ String "/" repo).
  now rewrite (split_once_char_app _ _ _ Hseg).
Qed.

Lemma codec_round_trip_witness :
  has_char "/" "acme" = false /\
  repo_rid_to_owner_repo
    (@owner_repo_to_repo_rid demo_runtime (JStr "acme") (JStr "widgets"))
  = Ok ("acme", "widgets").
Proof.
  split; [reflexivity |].
  apply (@codec_round_trip demo_runtime "acme" "widgets"). reflexivity.
Defined.

(** An owner that is not a segment does not come back. *)
Example codec_owner_with_slash :
  repo_rid_to_owner_repo
    (@owner_repo_to_repo_rid demo_runtime (JStr "a/b") (JStr "c"))
  = Ok ("a", "b/c").
Proof. reflexivity. Qed.

(** C7, as the specification states it, fails: an identifier whose
    remainder has an empty segment is malformed in the specification's
    sense and is decoded all the same. *)
Lemma decode_accepts_empty_segment :
  spec_malformed "orn:github.repo:acme/" = true /\
  repo_rid_to_owner_repo "orn:github.repo:acme/" = Ok ("acme", "").
Proof. split; reflexivity. Qed.

(** C7, amended. [repo_rid_to_owner_repo] fails, with the error for an
    invalid identifier, exactly when the input lacks the prefix
    ["orn:github.repo:"] or what follows the prefix holds no ["/"]; on
    every other input it returns what precedes and what follows the
    first ["/"], either of which may be empty. *)
Theorem decode_fails_exactly (repo_rid : string) :
  (repo_rid_to_owner_repo repo_rid = Raise (invalid_rid repo_rid) <->
     startswith rid_prefix repo_rid = false \/
     exists remainder,
       repo_rid = rid_prefix ++ remainder /\ has_char "/" remainder = false) /\
  (forall owner repo,
     repo_rid_to_owner_repo repo_rid = Ok (owner, repo) <->
     repo_rid = rid_prefix ++ owner ++ "/" ++ repo /\
     has_char "/" owner = false) /\
  (repo_rid_to_owner_repo repo_rid = Raise (invalid_rid repo_rid) \/
   exists owner repo, repo_rid_to_owner_repo repo_rid = Ok (owner, repo)).
Proof.
  rewrite repo_rid_to_owner_repo_cuts.
  destruct (strip_prefix rid_prefix repo_rid) as [remainder|] eqn:E.
  - pose proof (proj1 (strip_prefix_Some _ _ _) E) as Hrid.
    destruct (split_once "/" remainder) as [[o r]|] eqn:S.
    + apply split_once_char_Some in S as [Hrem Ho].
      split; [| split].
      * split; [discriminate |].
        intros [Hp | (rem' & Heq & Hno)].
        -- apply startswith_false_strip in Hp. congruence.
        -- rewrite Heq in E. rewrite strip_prefix_app in E.
           injection E as ->. rewrite Hrem, has_char_sep in Hno.
           discriminate.
      * intros owner repo. split.
        -- intros [= <- <-]. split; [| exact Ho]. now rewrite Hrid, Hrem.
        -- intros [Heq Hno]. rewrite Heq in E. rewrite strip_prefix_app in E.
           injection E as E. rewrite Hrem in E.
           assert (split_once "/" (o ++ String "/" r) = Some (o, r)) as S1
             by now apply split_once_char_app.
           assert (split_once "/" (owner ++ String "/" repo) = Some (owner, repo))
             as S2 by now apply split_once_char_app.
           change (owner ++ "/" ++ repo) with (owner ++ String "/" repo) in E.
           rewrite E in S2. congruence.
      * right. eauto.
    + apply split_once_char_None in S.
      split; [| split].
      * split; [| reflexivity]. intros _. right. eauto.
      * intros owner repo. split; [discriminate |].
        intros [Heq Hno]. rewrite Heq in E. rewrite strip_prefix_app in E.
        injection E as E. rewrite <- E in S.
        change (owner ++ "/" ++ repo) with (owner ++ String "/" repo) in S.
        rewrite has_char_sep in S. discriminate.
      * now left.
  - split; [| split].
    + split; [| reflexivity]. intros _. left. now apply startswith_false_strip.
    + intros owner repo. split; [discriminate |].
      intros [Heq _]. rewrite Heq, strip_prefix_app in E. discriminate.
    + now left.
Qed.

Lemma decode_fails_exactly_witness :
  repo_rid_to_owner_repo "orn:github.repo:acme/widgets"
  = Ok ("acme", "widgets").
Proof.
  apply (decode_fails_exactly "orn:github.repo:acme/widgets").
  split; reflexivity.
Defined.

End Codec.

(** ** The index database *)

Section Storage.
Import IndexDb.

Lemma bind_Ok {A B} (r : res A) (k : A -> res B) (b : B) :
  (r ≫= k) = Ok b -> exists a, r = Ok a /\ k a = Ok b.
Proof. destruct r as [a|e]; simpl; [eauto | discriminate]. Qed.

Lemma update_repository_Ok now c url rid c' :
  update_repository now c url rid = Ok c' ->
  committed c' = committed c /\
  events (pending c') = events (pending c) /\
  (forall k, is_Some (repositories (pending c) !! k) ->
             is_Some (repositories (pending c') !! k)).
Proof.
  unfold update_repository. intros H.
  apply bind_Ok in H as (u & _ & H).
  destruct (repositories (pending c) !! rid) as [row|] eqn:E.
  - apply bind_Ok in H as (u' & _ & H). injection H as <-. simpl.
    repeat split. intros k Hk.
    destruct (decide (rid = k)) as [->|Hne].
    + rewrite lookup_insert_eq. eauto.
    + now rewrite lookup_insert_ne.
  - injection H as <-. repeat split; auto.
Qed.

Lemma insert_repository_Ok now c rid url c' :
  insert_repository now c rid url = Ok c' ->
  committed c' = committed c /\
  events (pending c') = events (pending c) /\
  repositories (pending c) !! rid = None /\
  (exists u, bind_param url = Ok u /\ u <> CNull /\
     repositories (pending c') =
       <[rid := {| repo_url := u; first_indexed := now; last_updated := now |}]>
         (repositories (pending c))).
Proof.
  unfold insert_repository. intros H.
  apply bind_Ok in H as (u & Hu & H).
  apply bind_Ok in H as (u' & Hu' & H).
  destruct (repositories (pending c) !! rid) eqn:E; [discriminate |].
  injection H as <-. simpl. repeat split.
  exists u'. destruct u; simpl in Hu'; try discriminate;
    injection Hu' as <-; repeat split; auto; discriminate.
Qed.

Lemma insert_or_replace_event_Ok c e rid ty ts sha text b c' :
  insert_or_replace_event c e rid ty ts sha text b = Ok c' ->
  committed c' = committed c /\
  repositories (pending c') = repositories (pending c) /\
  exists row,
    events (pending c') =
      (filter (λ r, event_rid r ≠ e) (events (pending c)) ++ [row])%list /\
    event_rid row = e /\ ev_repo_rid row = rid /\
    bind_param ty = Ok (event_type row) /\
    bind_param ts = Ok (timestamp row) /\
    bind_param sha = Ok (commit_sha row) /\
    summary row = text /\ bundle_rid row = b.
Proof.
  unfold insert_or_replace_event. intros H.
  apply bind_Ok in H as (ty1 & Hty & H).
  apply bind_Ok in H as (ts1 & Hts & H).
  apply bind_Ok in H as (sha1 & Hsha & H).
  apply bind_Ok in H as (ty2 & Hty2 & H).
  apply bind_Ok in H as (ts2 & Hts2 & H).
  injection H as <-. simpl. repeat split.
  eexists. split; [reflexivity |]. simpl.
  assert (ty2 = ty1) as -> by (destruct ty1; simpl in Hty2; congruence).
  assert (ts2 = ts1) as -> by (destruct ts1; simpl in Hts2; congruence).
  repeat split; assumption.
Qed.

(** A call that raises leaves the database file as it found it. *)
Lemma add_repository_atomic now d rid url e d' :
  add_repository now d rid url = (Raise e, d') -> d' = d.
Proof.
  unfold add_repository, finish.
  destruct (if select_repository _ _ then _ else _); intros H;
    inversion H; reflexivity.
Qed.

Lemma add_event_metadata_atomic now d ev rid ty ts sha text b e d' :
  add_event_metadata now d ev rid ty ts sha text b = (Raise e, d') -> d' = d.
Proof.
  unfold add_event_metadata, finish.
  destruct (_ ≫= _); intros H; inversion H; reflexivity.
Qed.

Lemma add_repository_effect now d rid url r d' :
  add_repository now d rid url = (r, d') ->
  events d' = events d /\
  (forall k, is_Some (repositories d !! k) -> is_Some (repositories d' !! k)) /\
  (r = Ok tt -> is_Some (repositories d' !! rid)).
Proof.
  unfold add_repository, finish, select_repository. simpl.
  case_bool_decide as Hsel.
  - destruct (update_repository _ _ _ _) as [c'|e] eqn:E;
      intros H; inversion H; subst; clear H.
    + apply update_repository_Ok in E as (_ & Hev & Hdom). simpl in *.
      split_and!; auto.
    + split_and!; auto; discriminate.
  - destruct (insert_repository _ _ _ _) as [c'|e] eqn:E;
      intros H; inversion H; subst; clear H.
    + apply insert_repository_Ok in E as (_ & Hev & Hnone & u & _ & _ & Hrepo).
      simpl in *. unfold commit. rewrite Hrepo.
      split_and!; auto.
      * intros k Hk. destruct (decide (rid = k)) as [->|Hne].
        -- rewrite lookup_insert_eq. eauto.
        -- now rewrite lookup_insert_ne.
      * intros _. rewrite lookup_insert_eq. eauto.
    + split_and!; auto; discriminate.
Qed.

(** What a successful [add_event_metadata] leaves: exactly one row under
    the event identifier, a repository row for it, and the placeholder
    with its URL when there was none. *)
Lemma add_event_metadata_effect now d ev rid ty ts sha text b d' :
  add_event_metadata now d ev rid ty ts sha text b = (Ok tt, d') ->
  (exists row,
     events d' = (filter (λ r, event_rid r ≠ ev) (events d) ++ [row])%list /\
     event_rid row = ev /\ ev_repo_rid row = rid /\
     bind_param ty = Ok (event_type row) /\
     bind_param ts = Ok (timestamp row) /\
     bind_param sha = Ok (commit_sha row)) /\
  (forall k, is_Some (repositories d !! k) -> is_Some (repositories d' !! k)) /\
  is_Some (repositories d' !! rid) /\
  (is_Some (repositories d !! rid) -> repositories d' = repositories d) /\
  (repositories d !! rid = None ->
   repositories d' =
     <[rid := {| repo_url := CText ("orn:" ++ rid);
                 first_indexed := now; last_updated := now |}]>
       (repositories d)).
Proof.
  unfold add_event_metadata, finish.
  destruct (insert_or_replace_event _ _ _ _ _ _ _ _) as [c1|e] eqn:E1;
    [| discriminate].
  cbn [mbind res_bind Py.bind].
  apply insert_or_replace_event_Ok in E1
    as (_ & Hrepo & row & Hev & H1 & H2 & H3 & H4 & H5 & _).
  simpl in Hrepo, Hev.
  unfold select_repository. case_bool_decide as Hsel; simpl.
  - intros H; inversion H; subst; clear H.
    unfold commit. rewrite Hrepo in Hsel |- *.
    split; [exists row; auto 10 |].
    split_and!; auto.
    intros Hnone. rewrite Hnone in Hsel. now destruct Hsel.
  - destruct (insert_repository _ _ _ _) as [c2|e] eqn:E2; [| discriminate].
    intros H; inversion H; subst; clear H.
    apply insert_repository_Ok in E2 as (_ & Hev2 & Hnone & u & Hu & _ & Hrepo2).
    injection Hu as <-. unfold commit. rewrite Hrepo2, Hev2, Hrepo.
    split; [exists row; auto 10 |].
    rewrite Hrepo in Hnone.
    split_and!.
    + intros k Hk. destruct (decide (ev_repo_rid row = k)) as [->|Hne].
      * rewrite lookup_insert_eq. eauto.
      * now rewrite lookup_insert_ne.
    + rewrite lookup_insert_eq. eauto.
    + intros Hs. rewrite Hnone in Hs. now destruct Hs.
    + reflexivity.
Qed.

End Storage.

(** ** Orphans *)

Section Orphans.
Import IndexDb.

Lemma no_orphans_weaken (d d' : db) :
  no_orphans d ->
  (forall k, is_Some (repositories d !! k) -> is_Some (repositories d' !! k)) ->
  events d' = events d ->
  no_orphans d'.
Proof.
  unfold no_orphans. intros Hd Hdom ->.
  eapply Forall_impl; [exact Hd |]. intros r Hr. now apply Hdom.
Qed.

Lemma no_orphans_add_repository now d rid url :
  no_orphans d -> no_orphans (snd (add_repository now d rid url)).
Proof.
  intros Hd. destruct (add_repository now d rid url) as [r d'] eqn:E.
  apply add_repository_effect in E as (Hev & Hdom & _).
  now apply (no_orphans_weaken d).
Qed.

Lemma no_orphans_add_event_metadata now d ev rid ty ts sha text b :
  no_orphans d ->
  no_orphans (snd (add_event_metadata now d ev rid ty ts sha text b)).
Proof.
  intros Hd.
  destruct (add_event_metadata now d ev rid ty ts sha text b) as [[[]|e] d'] eqn:E.
  - apply add_event_metadata_effect in E
      as ((row & Hev & _ & Hrid & _) & Hdom & Hsome & _).
    simpl. unfold no_orphans. rewrite Hev. apply Forall_app. split.
    + apply Forall_forall. intros r Hr.
      apply list_elem_of_filter in Hr as [_ Hr].
      apply Hdom. unfold no_orphans in Hd.
      rewrite Forall_forall in Hd. now apply Hd.
    + constructor; [| constructor]. now rewrite Hrid.
  - apply add_event_metadata_atomic in E as ->. exact Hd.
Qed.

Lemma no_orphans_update d rid sha ts :
  no_orphans d -> no_orphans (update_repository_latest_commit d rid sha ts).
Proof.
  intros Hd. apply (no_orphans_weaken d); [exact Hd | | reflexivity].
  intros k [row Hk]. simpl. rewrite lookup_alter.
  case_decide; subst; rewrite Hk; simpl; eauto.
Qed.

Lemma no_orphans_prune expired d :
  no_orphans d -> no_orphans (prune_old_data expired d).
Proof.
  unfold no_orphans. simpl. intros Hd.
  apply Forall_forall. intros r Hr.
  apply list_elem_of_filter in Hr as [_ Hr].
  rewrite Forall_forall in Hd. now apply Hd.
Qed.

Lemma no_orphans_run_call d c : no_orphans d -> no_orphans (run_call d c).
Proof.
  destruct c; simpl.
  - apply no_orphans_add_repository.
  - apply no_orphans_add_event_metadata.
  - apply no_orphans_update.
  - apply no_orphans_prune.
Qed.

Lemma no_orphans_run_calls cs d : no_orphans d -> no_orphans (run_calls d cs).
Proof.
  revert d. induction cs as [|c cs IH]; intros d Hd; simpl; [exact Hd |].
  apply IH. now apply no_orphans_run_call.
Qed.

(** C10. Writing event metadata keeps every event row attached to a
    repository row.  When the repository is absent at that time, the
    placeholder row, with the URL ["orn:" ++ repo_rid], is inserted in
    the transaction that inserts the event row: both are there after a
    call that returns, neither after a call that raises.  Hence no
    sequence of writing calls, from the empty database on, leaves an
    orphan. *)
Theorem event_rows_reference_repositories
    (now ev rid : string) (ty ts sha : json) (text b : string)
    (d : db) (calls : list db_call) :
  let result := add_event_metadata now d ev rid ty ts sha text b in
  (no_orphans d -> no_orphans (snd result)) /\
  (fst result = Ok tt -> repositories d !! rid = None ->
     repositories (snd result) !! rid =
       Some {| repo_url := CText ("orn:" ++ rid);
               first_indexed := now; last_updated := now |} /\
     exists row, row ∈ events (snd result) /\
                 event_rid row = ev /\ ev_repo_rid row = rid) /\
  (fst result <> Ok tt -> snd result = d) /\
  no_orphans (run_calls initialize_db calls).
Proof.
  cbv zeta. split_and!.
  - apply no_orphans_add_event_metadata.
  - destruct (add_event_metadata now d ev rid ty ts sha text b)
      as [r d'] eqn:E. simpl. intros -> Hnone.
    apply add_event_metadata_effect in E
      as ((row & Hev & Hid & Hrid & _) & _ & _ & _ & Hnew).
    rewrite (Hnew Hnone), lookup_insert_eq. split; [reflexivity |].
    exists row. rewrite Hev. split_and!; auto.
    apply elem_of_app. right. apply list_elem_of_singleton. reflexivity.
  - destruct (add_event_metadata now d ev rid ty ts sha text b)
      as [[[]|e] d'] eqn:E; simpl; intros Hr.
    + now destruct Hr.
    + now apply add_event_metadata_atomic in E.
  - apply no_orphans_run_calls. constructor.
Qed.

Lemma event_rows_reference_repositories_witness :
  repositories
    (snd (add_event_metadata "t1" initialize_db "orn:github.event:1"
            "orn:github.repo:acme/widgets" (JStr "push") (JStr "") JNull
            "Push to acme/widgets" "orn:github.event:1"))
    !! "orn:github.repo:acme/widgets"
  = Some {| repo_url := CText "orn:orn:github.repo:acme/widgets";
            first_indexed := "t1"; last_updated := "t1" |}.
Proof.
  pose proof (event_rows_reference_repositories "t1" "orn:github.event:1"
    "orn:github.repo:acme/widgets" (JStr "push") (JStr "") JNull
    "Push to acme/widgets" "orn:github.event:1" initialize_db [])
    as (_ & H & _).
  apply H; reflexivity.
Defined.

End Orphans.

(** ** Ingestion and its storage calls *)

Section Ingestion.
Import IndexDb Summary Repository.

Lemma store_event_cases `{Runtime} now d k rid ty ts sha payload r d' :
  store_event now d k rid ty ts sha payload = (r, d') ->
  (exists e, r = Raise e /\ d' = d) \/
  (exists text,
     r = Ok tt /\
     add_event_metadata now d k rid ty ts sha text k = (Ok tt, d')).
Proof.
  unfold store_event.
  destruct (summarize_event ty rid sha (Some payload)) as [text|e].
  - destruct (add_event_metadata now d k rid ty ts sha text k)
      as [[[]|e] d2] eqn:E; intros Heq; inversion Heq; subst; clear Heq.
    + right. eauto.
    + left. apply add_event_metadata_atomic in E. eauto.
  - intros Heq; inversion Heq; subst. left. eauto.
Qed.

(** The storage calls behind a run of [store]: the repository upsert,
    committed on its own, and then at most the event upsert. *)
Lemma store_cases `{Runtime} now d k payload owner repo url source_ r d' :
  store now d k payload owner repo url source_ = (r, d') ->
  let rid := Utils.owner_repo_to_repo_rid owner repo in
  (exists e, r = Raise e /\ d' = d) \/
  (exists e, r = Raise e /\ add_repository now d rid url = (Ok tt, d')) \/
  (exists d1 ts sha text commit_sha_,
     r = Ok (Success k rid commit_sha_) /\
     add_repository now d rid url = (Ok tt, d1) /\
     add_event_metadata now d1 k rid (event_type_of payload source_)
       ts sha text k = (Ok tt, d')).
Proof.
  unfold store. cbv zeta.
  destruct (add_repository now d _ url) as [[[]|e] d1] eqn:E1.
  - destruct (commit_fields payload) as [[[sha ts] msg]|e].
    + destruct (truthy sha).
      * destruct (store_event _ _ _ _ _ _ _ _) as [r2 d2] eqn:E2.
        apply store_event_cases in E2 as [(e & -> & ->)|(text & -> & E2)];
          intros Heq; inversion Heq; subst; clear Heq.
        -- right. left. eauto.
        -- right. right. eauto 10.
      * destruct (store_event _ _ _ _ _ _ _ _) as [r2 d2] eqn:E2.
        apply store_event_cases in E2 as [(e & -> & ->)|(text & -> & E2)];
          intros Heq; inversion Heq; subst; clear Heq.
        -- right. left. eauto.
        -- right. right. eauto 10.
    + intros Heq; inversion Heq; subst. right. left. eauto.
  - intros Heq; inversion Heq; subst.
    apply add_repository_atomic in E1. left. eauto.
Qed.




End Ingestion.

(** ** The payload formats *)

Section Formats.
Import IndexDb Summary Repository.
Context `{Runtime}.

Ltac res_cases :=
  repeat match goal with
  | |- context [getitem ?v ?k] =>
      let x := fresh "x" in
      destruct (getitem v k) as [x|];
      cbn [mbind res_bind Py.bind]; [| try reflexivity]
  end.

Lemma extract_webhook (p : dict) :
  webhook_shape p = true ->
  extract p =
    (owner ← path (JObj p) ["repository"; "owner"; "login"];
     repo ← path (JObj p) ["repository"; "name"];
     url ← path (JObj p) ["repository"; "clone_url"];
     Ok (Extracted owner repo url (get p "event_type" (JStr "push")))).
Proof.
  unfold webhook_shape, extract. intros ->.
  cbn [path mbind res_bind Py.bind].
  destruct (getitem (JObj p) "repository") as [r|];
    cbn [mbind res_bind Py.bind]; [| reflexivity].
  res_cases; reflexivity.
Qed.

Lemma backfill_est (kind : string) (p : dict) :
  backfill_shape kind p = true ->
  contains "event_source_type" p && contains "payload" p = true /\
  exists est, getitem (JObj p) "event_source_type" = Ok est /\
              eq_str est kind = true.
Proof.
  unfold backfill_shape. intros Hs.
  apply andb_true_iff in Hs as [Hk He]. split; [exact Hk |].
  apply andb_true_iff in Hk as [Hk _].
  unfold contains in Hk. unfold get in He. unfold getitem.
  destruct (lookup "event_source_type" p) as [est|]; [| discriminate].
  eauto.
Qed.

Lemma eq_str_inj (v : json) (a b : string) :
  eq_str v a = true -> eq_str v b = true -> a = b.
Proof.
  destruct v; simpl; try discriminate.
  intros Ha Hb. apply String.eqb_eq in Ha, Hb. congruence.
Qed.

Lemma extract_repo_details (p : dict) :
  webhook_shape p = false ->
  backfill_shape "backfill_repo_details" p = true ->
  extract p =
    (owner ← path (JObj p) ["payload"; "owner"; "login"];
     repo ← path (JObj p) ["payload"; "name"];
     url ← path (JObj p) ["payload"; "clone_url"];
     Ok (Extracted owner repo url (JStr "repository"))).
Proof.
  unfold webhook_shape, extract. intros -> Hs.
  apply backfill_est in Hs as (-> & est & -> & He).
  cbn [path mbind res_bind Py.bind]. rewrite He.
  destruct (getitem (JObj p) "payload") as [r|];
    cbn [mbind res_bind Py.bind]; [| reflexivity].
  res_cases; reflexivity.
Qed.

Lemma extract_backfill_commit (p : dict) :
  webhook_shape p = false ->
  backfill_shape "backfill_commit" p = true ->
  extract p =
    (commit_url ← path (JObj p) ["payload"; "url"];
     parts ← split_url commit_url;
     names ← parse_commit_url (fst parts) (snd parts);
     Ok (Extracted (JStr (fst names)) (JStr (snd names))
           (JStr ("https://github.com/" ++ fst names ++ "/" ++ snd names ++ ".git"))
           (JStr "commit"))).
Proof.
  unfold webhook_shape, extract. intros -> Hs.
  apply backfill_est in Hs as (-> & est & -> & He).
  cbn [path mbind res_bind Py.bind].
  destruct (eq_str est "backfill_repo_details") eqn:Hd.
  - pose proof (eq_str_inj _ _ _ He Hd). discriminate.
  - rewrite He. res_cases; reflexivity.
Qed.

Lemma extract_unrecognized (p : dict) :
  unrecognized p = true ->
  extract p = Ok (Skip "Event doesn't match any known format") \/
  exists est,
    lookup "event_source_type" p = Some est /\
    extract p = Ok (Skip ("Unknown backfill event type: " ++ format est)).
Proof.
  unfold unrecognized, webhook_shape, backfill_shape, extract.
  intros Hu.
  apply andb_true_iff in Hu as [Hu H3]. apply andb_true_iff in Hu as [H1 H2].
  apply negb_true_iff in H1, H2, H3. rewrite H1.
  destruct (contains "event_source_type" p && contains "payload" p) eqn:Hk;
    [| now left].
  right. simpl in H2, H3.
  apply andb_true_iff in Hk as [Hk _]. unfold contains in Hk.
  unfold get in H2, H3. unfold getitem.
  destruct (lookup "event_source_type" p) as [est|]; [| discriminate].
  exists est. split; [reflexivity |].
  cbn [mbind res_bind Py.bind]. now rewrite H2, H3.
Qed.

(** The rows under an identifier after its row has been replaced. *)
Lemma rows_after_replace (rows : list event_row) (row : event_row) (ev : string) :
  event_rid row = ev ->
  filter (λ r, event_rid r = ev)
         (filter (λ r, event_rid r ≠ ev) rows ++ [row])%list = [row].
Proof.
  intros Hrow. rewrite filter_app.
  assert (filter (λ r, event_rid r = ev) (filter (λ r, event_rid r ≠ ev) rows) = [])
    as ->.
  { induction rows as [|r rows IH]; [reflexivity |].
    rewrite (filter_cons (λ r, event_rid r ≠ ev)).
    destruct (decide (event_rid r ≠ ev)) as [Hne|Heq]; [| exact IH].
    rewrite filter_cons. destruct (decide (event_rid r = ev)); [contradiction | exact IH]. }
  rewrite filter_cons, filter_nil.
  destruct (decide (event_rid row = ev)); [reflexivity | contradiction].
Qed.

Lemma process_success now d k p out d' :
  process_github_event_bundle now d k p = (out, d') ->
  status out = "success" ->
  exists owner repo url source_ row,
    extract p = Ok (Extracted owner repo url source_) /\
    rows_of_event d' k = [row] /\
    ev_repo_rid row = Utils.owner_repo_to_repo_rid owner repo /\
    bind_param (event_type_of p source_) = Ok (event_type row).
Proof.
  unfold process_github_event_bundle.
  destruct (extract p) as [[o r u s|m]|e];
    [| intros Heq; inversion Heq; discriminate
     | intros Heq; inversion Heq; discriminate].
  destruct (store _ _ _ _ _ _ _ _) as [[out'|e] d2] eqn:E;
    intros Heq; inversion Heq; subst; clear Heq; [| discriminate].
  intros _.
  apply store_cases in E
    as [(e & E & _)|[(e & E & _)|(d1 & ts & sha & text & c & _ & _ & E2)]];
    try discriminate.
  apply add_event_metadata_effect in E2
    as ((row & Hev & Hid & Hrid & Hty & _) & _).
  exists o, r, u, s, row. split_and!; auto.
  unfold rows_of_event. rewrite Hev. now apply rows_after_replace.
Qed.

(** An ingestion that does not end in success writes no event row. *)
Lemma process_failure now d k p out d' :
  process_github_event_bundle now d k p = (out, d') ->
  status out <> "success" ->
  events d' = events d.
Proof.
  unfold process_github_event_bundle.
  destruct (extract p) as [[o r u s|m]|e];
    [| intros Heq; now inversion Heq | intros Heq; now inversion Heq].
  destruct (store _ _ _ _ _ _ _ _) as [[out'|e] d2] eqn:E;
    intros Heq; inversion Heq; subst; clear Heq; intros Hs;
    apply store_cases in E
      as [(e' & E & Hd)|[(e' & E & Ha)|(d1 & ts & sha & text & c & E & _)]];
    try discriminate.
  - injection E as ->. now contradiction Hs.
  - now subst.
  - now apply add_repository_effect in Ha as (Hev & _).
Qed.

End Formats.

(** ** Classification of payloads, and the commit URL *)

Section Classification.
Import IndexDb Summary Repository.

Lemma mem_app_mid (x : string) (pre tl : list string) :
  mem x (pre ++ x :: tl)%list = true.
Proof.
  induction pre as [|y pre IH]; simpl.
  - now rewrite String.eqb_refl.
  - rewrite IH. apply orb_true_r.
Qed.

Lemma index_app_mid (x : string) (pre tl : list string) :
  mem x pre = false ->
  index x (pre ++ x :: tl)%list = Some (length pre).
Proof.
  induction pre as [|y pre IH]; simpl; intros Hpre.
  - now rewrite String.eqb_refl.
  - apply orb_false_iff in Hpre as [Hy Hpre]. rewrite Hy.
    now rewrite (IH Hpre).
Qed.

Lemma parse_commit_url_found (url : string) (pre rest : list string)
    (owner repo : string) :
  mem "repos" pre = false ->
  parse_commit_url url (pre ++ "repos" :: owner :: repo :: rest)%list
  = Ok (owner, repo).
Proof.
  intros Hpre. unfold parse_commit_url.
  rewrite mem_app_mid, (index_app_mid _ _ _ Hpre).
  assert ((length pre + 2 <? length (pre ++ "repos" :: owner :: repo :: rest)%list)%nat
          = true) as ->.
  { apply Nat.ltb_lt. rewrite length_app. simpl. lia. }
  rewrite !nth_error_app2 by lia.
  replace (length pre + 1 - length pre)%nat with 1%nat by lia.
  replace (length pre + 2 - length pre)%nat with 2%nat by lia.
  reflexivity.
Qed.

Lemma parse_commit_url_short (url : string) (pre tl : list string) :
  mem "repos" pre = false ->
  (length tl < 2)%nat ->
  parse_commit_url url (pre ++ "repos" :: tl)%list
  = Raise (ValueError ("Cannot parse owner/repo from URL: " ++ url)).
Proof.
  intros Hpre Hlen. unfold parse_commit_url.
  rewrite mem_app_mid, (index_app_mid _ _ _ Hpre).
  assert ((length pre + 2 <? length (pre ++ "repos" :: tl)%list)%nat = false) as ->.
  { apply Nat.ltb_ge. rewrite length_app. simpl. lia. }
  reflexivity.
Qed.

Lemma parse_commit_url_absent (url : string) (parts : list string) :
  mem "repos" parts = false ->
  parse_commit_url url parts
  = Raise (ValueError ("Cannot parse repository from commit URL: " ++ url)).
Proof. intros Hm. unfold parse_commit_url. now rewrite Hm. Qed.

(** The formats on the payloads of the specification's examples. *)
Example push_is_read_as_webhook :
  @extract demo_runtime push_payload
  = Ok (Extracted (JStr "acme") (JStr "widgets")
          (JStr "https://github.com/acme/widgets.git") (JStr "push")) /\
  commit_fields push_payload
  = Ok (JStr "abc1234", JStr "2024-05-01T10:00:00Z", JStr "Fix the build").
Proof. split; reflexivity. Qed.

Example push_is_stored :
  @process_github_event_bundle demo_runtime "t1" initialize_db
    "orn:github.event:1" push_payload
  = (Success "orn:github.event:1" "orn:github.repo:acme/widgets"
       (JStr "abc1234"),
     {| repositories :=
          {[ "orn:github.repo:acme/widgets" :=
               {| repo_url := CText "https://github.com/acme/widgets.git";
                  first_indexed := "t1"; last_updated := "t1" |} ]};
        events :=
          [ {| event_rid := "orn:github.event:1";
               ev_repo_rid := "orn:github.repo:acme/widgets";
               event_type := CText "push";
               timestamp := CText "2024-05-01T10:00:00Z";
               commit_sha := CText "abc1234";
               summary := "Push to acme/widgets: abc1234";
               bundle_rid := "orn:github.event:1" |} ] |}).
Proof. vm_compute. reflexivity. Qed.

(** A webhook payload that also carries the back-fill keys is still
    read as a webhook. *)
Example webhook_wins_over_backfill :
  @extract demo_runtime
    (("event_source_type", JStr "backfill_repo_details")
     :: ("payload", JObj []) :: push_payload)
  = @extract demo_runtime push_payload.
Proof. reflexivity. Qed.

(** C4, as the specification states it, fails on the reason of the
    skip: the empty payload has none of the three shapes and is skipped
    with another message. *)
Lemma unrecognized_payload_message :
  let result :=
    @process_github_event_bundle demo_runtime "t1" initialize_db
      "orn:github.event:1" [] in
  unrecognized [] = true /\
  result = (Skipped "Event doesn't match any known format"
              "orn:github.event:1", initialize_db) /\
  fst result <> Skipped "unrecognized event shape" "orn:github.event:1".
Proof. cbv zeta. split_and!; [reflexivity | reflexivity | discriminate]. Qed.

(** C4, amended. The first format whose test a payload passes decides
    how it is read, in the order webhook (a top-level [repository]),
    repository details of the back-fill, commit of the back-fill: a
    payload with a top-level [repository] is read as a webhook whatever
    else it holds.  A payload of none of the three shapes is skipped,
    with the message ["Event doesn't match any known format"] or, when
    it names another back-fill type, ["Unknown backfill event type: "]
    followed by that type, and the database is not touched.  For a
    webhook the event type that is stored is the payload's [event_type],
    or ["push"] when it has none. *)
Theorem formats_first_match_wins `{Runtime}
    (now : string) (d : db) (kobj_rid : string) (p : dict) :
  (webhook_shape p = true ->
     extract p =
       (owner ← path (JObj p) ["repository"; "owner"; "login"];
        repo ← path (JObj p) ["repository"; "name"];
        url ← path (JObj p) ["repository"; "clone_url"];
        Ok (Extracted owner repo url (get p "event_type" (JStr "push"))))) /\
  (webhook_shape p = false ->
   backfill_shape "backfill_repo_details" p = true ->
     extract p =
       (owner ← path (JObj p) ["payload"; "owner"; "login"];
        repo ← path (JObj p) ["payload"; "name"];
        url ← path (JObj p) ["payload"; "clone_url"];
        Ok (Extracted owner repo url (JStr "repository")))) /\
  (webhook_shape p = false ->
   backfill_shape "backfill_commit" p = true ->
     extract p =
       (commit_url ← path (JObj p) ["payload"; "url"];
        parts ← split_url commit_url;
        names ← parse_commit_url (fst parts) (snd parts);
        Ok (Extracted (JStr (fst names)) (JStr (snd names))
              (JStr ("https://github.com/" ++ fst names ++ "/"
                     ++ snd names ++ ".git"))
              (JStr "commit")))) /\
  (unrecognized p = true ->
     exists message,
       process_github_event_bundle now d kobj_rid p
         = (Skipped message kobj_rid, d) /\
       (message = "Event doesn't match any known format" \/
        exists est,
          lookup "event_source_type" p = Some est /\
          message = "Unknown backfill event type: " ++ format est)) /\
  (webhook_shape p = true ->
   status (fst (process_github_event_bundle now d kobj_rid p)) = "success" ->
     exists row,
       rows_of_event (snd (process_github_event_bundle now d kobj_rid p))
         kobj_rid = [row] /\
       bind_param (get p "event_type" (JStr "push")) = Ok (event_type row)).
Proof.
  split_and!.
  - apply extract_webhook.
  - apply extract_repo_details.
  - apply extract_backfill_commit.
  - intros Hu. unfold process_github_event_bundle.
    destruct (extract_unrecognized p Hu) as [->|(est & Hest & ->)]; eauto 10.
  - intros Hw Hs.
    destruct (process_github_event_bundle now d kobj_rid p) as [out d'] eqn:E.
    simpl in Hs |- *.
    destruct (process_success _ _ _ _ _ _ E Hs)
      as (o & r & u & s & row & Hx & Hrows & _ & Hty).
    exists row. split; [exact Hrows |].
    rewrite (extract_webhook p Hw) in Hx.
    assert (s = get p "event_type" (JStr "push")) as ->.
    { destruct (path (JObj p) ["repository"; "owner"; "login"]);
        cbn [mbind res_bind Py.bind] in Hx; [| discriminate].
      destruct (path (JObj p) ["repository"; "name"]);
        cbn [mbind res_bind Py.bind] in Hx; [| discriminate].
      destruct (path (JObj p) ["repository"; "clone_url"]);
        cbn [mbind res_bind Py.bind] in Hx; [| discriminate].
      congruence. }
    unfold event_type_of in Hty.
    now destruct (contains "event_source_type" p).
Qed.

Lemma formats_first_match_wins_witness :
  exists row,
    rows_of_event
      (snd (@process_github_event_bundle demo_runtime "t1" initialize_db
              "orn:github.event:1" push_payload))
      "orn:github.event:1" = [row] /\
    bind_param (get push_payload "event_type" (JStr "push"))
    = Ok (event_type row).
Proof.
  apply (@formats_first_match_wins demo_runtime "t1" initialize_db
           "orn:github.event:1" push_payload); reflexivity.
Defined.

(** C5. For a commit of the back-fill, the owner and the repository
    are the two segments that follow the first segment ["repos"] of the
    commit URL; when no segment is ["repos"], or fewer than two segments
    follow it, the ingestion ends in an error and stores nothing. *)
Theorem commit_url_names_repository `{Runtime}
    (now : string) (d : db) (kobj_rid : string) (p : dict) (url : string) :
  webhook_shape p = false ->
  backfill_shape "backfill_commit" p = true ->
  path (JObj p) ["payload"; "url"] = Ok (JStr url) ->
  (forall pre owner repo rest,
     split "/" url = (pre ++ "repos" :: owner :: repo :: rest)%list ->
     mem "repos" pre = false ->
     extract p =
       Ok (Extracted (JStr owner) (JStr repo)
             (JStr ("https://github.com/" ++ owner ++ "/" ++ repo ++ ".git"))
             (JStr "commit"))) /\
  (mem "repos" (split "/" url) = false \/
   (exists pre tl,
      split "/" url = (pre ++ "repos" :: tl)%list /\
      mem "repos" pre = false /\ (length tl < 2)%nat) ->
   exists message,
     process_github_event_bundle now d kobj_rid p
       = (Error (ValueError message) kobj_rid, d)).
Proof.
  intros Hw Hs Hurl.
  pose proof (extract_backfill_commit p Hw Hs) as Hx.
  rewrite Hurl in Hx. cbn [mbind res_bind Py.bind split_url fst snd] in Hx.
  split.
  - intros pre owner repo rest Hsplit Hpre.
    rewrite Hx, Hsplit, (parse_commit_url_found _ _ _ _ _ Hpre).
    reflexivity.
  - intros Hbad. unfold process_github_event_bundle. rewrite Hx.
    destruct Hbad as [Habs|(pre & tl & Hsplit & Hpre & Hlen)].
    + rewrite (parse_commit_url_absent _ _ Habs). simpl. eauto.
    + rewrite Hsplit, (parse_commit_url_short _ _ _ Hpre Hlen). simpl. eauto.
Qed.

Lemma commit_url_names_repository_witness :
  @extract demo_runtime backfill_commit_payload =
    Ok (Extracted (JStr "acme") (JStr "widgets")
          (JStr "https://github.com/acme/widgets.git") (JStr "commit")).
Proof.
  refine (proj1 (@commit_url_names_repository demo_runtime "t1" initialize_db
            "orn:github.event:2" backfill_commit_payload
            "https://api.example.com/repos/acme/widgets/commits/abc123"
            eq_refl eq_refl eq_refl)
          ["https:"; ""; "api.example.com"] "acme" "widgets"
          ["commits"; "abc123"] eq_refl eq_refl).
Defined.

End Classification.

(** ** Deduplication *)

Section Deduplication.
Import IndexDb Repository Handlers.

(** The two ways out of the bundle handler. *)
Lemma handle_event_bundle_cases `{Runtime} now n kobj :
  let prev := cache n !! text (rid kobj) in
  (is_update prev && negb (hash_changed prev kobj) = true /\
   handle_event_bundle now n kobj = (STOP_CHAIN, Unchanged, n)) \/
  (is_update prev && negb (hash_changed prev kobj) = false /\
   exists rep d',
     handle_event_bundle now n kobj =
       (Return (set_normalized kobj (if is_update prev then UPDATE else NEW)),
        rep, set_index n d') /\
     (rep = NotProcessed /\ d' = index n \/
      exists b, bundle kobj = Some b /\
        (Processed (fst (process_github_event_bundle now (index n)
                           (text (rid kobj)) (contents b))),
         snd (process_github_event_bundle now (index n)
                (text (rid kobj)) (contents b))) = (rep, d'))).
Proof.
  cbv zeta. unfold handle_event_bundle.
  destruct (is_update _ && negb _) eqn:E; [left; auto | right].
  split; [reflexivity |].
  assert (set_index n (index n) = n) as Hid by now destruct n.
  destruct (repository_service n).
  - change (bundle (set_normalized kobj _)) with (bundle kobj).
    destruct (bundle kobj) as [b|].
    + destruct (negb (truthy (JObj (contents b)))).
      * exists NotProcessed, (index n). rewrite Hid. auto.
      * change (text (rid (set_normalized kobj _))) with (text (rid kobj)).
        destruct (process_github_event_bundle _ _ _ _) as [o d'] eqn:P.
        exists (Processed o), d'. split; [reflexivity |]. right.
        exists b. split; [reflexivity |]. now rewrite P.
    + exists NotProcessed, (index n). rewrite Hid. auto.
  - exists NotProcessed, (index n). rewrite Hid. auto.
Qed.

Lemma handle_event_bundle_locks `{Runtime} now n kobj :
  repo_locks (snd (handle_event_bundle now n kobj)) = repo_locks n.
Proof.
  destruct (handle_event_bundle_cases now n kobj)
    as [(_ & ->)|(_ & rep & d' & -> & _)]; reflexivity.
Qed.

(** A delivery with its bundle, once through the pipeline, is in the
    cache under its fingerprint, so that the same delivery stops next. *)
Lemma deliver_twice `{Runtime} now1 now2 n kobj :
  is_Some (bundle kobj) ->
  let n1 := snd (deliver now1 n kobj) in
  deliver now2 n1 kobj = (STOP_CHAIN, Unchanged, n1).
Proof.
  intros [b Hb]. cbv zeta.
  assert (forall n0 p,
            cache n0 !! text (rid kobj) = Some p ->
            sha256_hash (manifest p) = sha256_hash (manifest b) ->
            deliver now2 n0 kobj = (STOP_CHAIN, Unchanged, n0)) as Hstop.
  { intros n0 p Hp Hh. unfold deliver, handle_event_bundle.
    rewrite Hp. unfold hash_changed.
    unfold bundle in Hb.
    destruct (k_manifest kobj) as [m|]; [| discriminate].
    destruct (k_contents kobj) as [c|]; [| discriminate].
    injection Hb as <-. simpl in Hh |- *. rewrite Hh, String.eqb_refl.
    reflexivity. }
  assert ((snd (deliver now1 n kobj) = n /\
           exists p, cache n !! text (rid kobj) = Some p /\
                     sha256_hash (manifest p) = sha256_hash (manifest b)) \/
          exists d', snd (deliver now1 n kobj)
                     = set_cache (set_index n d')
                         (<[text (rid kobj) := b]> (cache n))) as Hn1.
  { unfold deliver.
    destruct (handle_event_bundle_cases now1 n kobj)
      as [(Hc & ->)|(Hc & rep & d' & -> & _)].
    - left. split; [reflexivity |].
      destruct (cache n !! text (rid kobj)) as [p|]; [| discriminate].
      exists p. split; [reflexivity |].
      simpl in Hc. apply negb_true_iff in Hc. unfold hash_changed in Hc.
      unfold bundle in Hb.
      destruct (k_manifest kobj) as [m|]; [| discriminate].
      destruct (k_contents kobj) as [c|]; [| discriminate].
      injection Hb as <-. simpl.
      apply negb_false_iff, String.eqb_eq in Hc. exact Hc.
    - right. exists d'.
      change (bundle (set_normalized kobj ?t)) with (bundle kobj). rewrite Hb.
      now destruct (is_update _). }
  destruct Hn1 as [(-> & p & Hp & Hh)|(d' & ->)].
  - now apply (Hstop n p).
  - apply (Hstop _ b); [| reflexivity].
    simpl. apply lookup_insert_eq.
Qed.

(** The pipeline step changes the cache only. *)
Lemma deliver_handle `{Runtime} now n kobj :
  fst (deliver now n kobj) = fst (handle_event_bundle now n kobj) /\
  index (snd (deliver now n kobj))
  = index (snd (handle_event_bundle now n kobj)).
Proof.
  unfold deliver.
  destruct (handle_event_bundle now n kobj) as [[[|k|] rep] n']; auto.
  destruct (normalized_event_type k) as [[| |]|], (bundle k); auto.
Qed.

Lemma handle_processed `{Runtime} now n kobj o :
  snd (fst (handle_event_bundle now n kobj)) = Processed o ->
  exists b,
    process_github_event_bundle now (index n) (text (rid kobj)) (contents b)
    = (o, index (snd (handle_event_bundle now n kobj))).
Proof.
  destruct (handle_event_bundle_cases now n kobj)
    as [(_ & ->)|(_ & rep & d' & -> & Hproc)]; simpl.
  - discriminate.
  - intros ->. destruct Hproc as [[Hn _]|(b & _ & Hp)]; [discriminate |].
    exists b.
    destruct (process_github_event_bundle now (index n) (text (rid kobj))
                (contents b)) as [o' d2]. simpl in Hp. congruence.
Qed.

(** C1, amended. The bundle handler classifies a delivery by the
    fingerprint the cache holds for its identifier: NEW when the cache
    has no entry, UNCHANGED when the entry's hash is the delivery's (the
    handler then stops the chain and changes nothing), UPDATED when the
    two differ.  Hence the same identifier and payload delivered twice
    through the pipeline is reported unchanged the second time and
    written at most once: the second delivery leaves the node as the
    first left it.  An event that the first delivery stored has exactly
    one row; when the first delivery did not store it, because the
    ingestion did not end in success or was not attempted, the second
    does not store it either, and the table of events is as it was
    before the first. *)
Theorem deliveries_are_deduplicated `{Runtime}
    (now1 now2 : string) (n : node) (kobj : KnowledgeObject) :
  let prev := cache n !! text (rid kobj) in
  let first := deliver now1 n kobj in
  let second := deliver now2 (snd first) kobj in
  (prev = None ->
     classify (fst (fst (handle_event_bundle now1 n kobj))) = Some IsNew) /\
  (forall p m,
     prev = Some p -> k_manifest kobj = Some m ->
     sha256_hash (manifest p) = sha256_hash m ->
     handle_event_bundle now1 n kobj = (STOP_CHAIN, Unchanged, n)) /\
  (forall p m,
     prev = Some p -> k_manifest kobj = Some m ->
     sha256_hash (manifest p) <> sha256_hash m ->
     classify (fst (fst (handle_event_bundle now1 n kobj))) = Some IsUpdated) /\
  (is_Some (bundle kobj) ->
     second = (STOP_CHAIN, Unchanged, snd first) /\
     (forall o,
        snd (fst first) = Processed o -> status o = "success" ->
        exists row,
          rows_of_event (index (snd second)) (text (rid kobj)) = [row]) /\
     (forall o,
        snd (fst first) = Processed o -> status o <> "success" ->
        events (index (snd second)) = events (index n)) /\
     (snd (fst first) = NotProcessed -> index (snd second) = index n)).
Proof.
  cbv zeta. split_and!.
  - intros Hp.
    destruct (handle_event_bundle_cases now1 n kobj)
      as [(Hc & _)|(_ & rep & d' & -> & _)]; rewrite Hp in *.
    + discriminate.
    + reflexivity.
  - intros p m Hp Hm Hh. unfold handle_event_bundle.
    rewrite Hp. unfold hash_changed. rewrite Hm, Hh, String.eqb_refl.
    reflexivity.
  - intros p m Hp Hm Hh.
    destruct (handle_event_bundle_cases now1 n kobj)
      as [(Hc & _)|(_ & rep & d' & -> & _)]; rewrite Hp in *.
    + simpl in Hc. unfold hash_changed in Hc. rewrite Hm in Hc.
      apply negb_true_iff, negb_false_iff, String.eqb_eq in Hc. contradiction.
    + reflexivity.
  - intros Hb. rewrite (deliver_twice now1 now2 n kobj Hb).
    split; [reflexivity |].
    destruct (deliver_handle now1 n kobj) as [Hfst Hidx].
    rewrite Hfst. cbn [snd]. rewrite Hidx. split_and!.
    + intros o Hrep Hok.
      destruct (handle_processed now1 n kobj o Hrep) as [b P].
      destruct (process_success _ _ _ _ _ _ P Hok)
        as (_ & _ & _ & _ & row & _ & Hrows & _).
      eauto.
    + intros o Hrep Hno.
      destruct (handle_processed now1 n kobj o Hrep) as [b P].
      exact (process_failure _ _ _ _ _ _ P Hno).
    + destruct (handle_event_bundle_cases now1 n kobj)
        as [(_ & ->)|(_ & rep & d' & -> & Hproc)]; [reflexivity |].
      cbn [fst snd]. intros ->.
      destruct Hproc as [[_ ->]|(b & _ & [=])]. reflexivity.
Qed.

(** Two deliveries of one event, and no row: the first ingestion ends
    in an error, or is not attempted because the repository service is
    not set yet; the bundle is cached all the same, and the second
    delivery is stopped as unchanged. *)
Example unstored_delivery_stays_unstored :
  (let first := @deliver demo_runtime "t1" fresh_node untimed_delivery in
   let second := @deliver demo_runtime "t2" (snd first) untimed_delivery in
   snd (fst first) = Processed (Error IntegrityError "orn:github.event:2") /\
   second = (STOP_CHAIN, Unchanged, snd first) /\
   rows_of_event (index (snd second)) "orn:github.event:2" = []) /\
  (let first := @deliver demo_runtime "t1" idle_node push_delivery in
   let ready :=
     ServiceSetup.set_repository_service (snd first)
       {| index_db_path := "index.db" |} in
   let second := @deliver demo_runtime "t2" ready push_delivery in
   snd (fst first) = NotProcessed /\
   second = (STOP_CHAIN, Unchanged, ready) /\
   rows_of_event (index (snd second)) "orn:github.event:1" = []).
Proof. split; cbv zeta; split_and!; vm_compute; reflexivity. Qed.

Lemma deliveries_are_deduplicated_witness :
  let first := @deliver demo_runtime "t1" fresh_node push_delivery in
  let second := @deliver demo_runtime "t2" (snd first) push_delivery in
  second = (STOP_CHAIN, Unchanged, snd first) /\
  exists row,
    rows_of_event (index (snd second)) "orn:github.event:1" = [row].
Proof.
  cbv zeta.
  destruct (@deliveries_are_deduplicated demo_runtime "t1" "t2"
              fresh_node push_delivery) as (_ & _ & _ & Htwice).
  destruct Htwice as (Hsecond & Hrows & _); [simpl; eauto |].
  split; [exact Hsecond |].
  apply (Hrows (Success "orn:github.event:1" "orn:github.repo:acme/widgets"
                  (JStr "abc1234"))); reflexivity.
Defined.

End Deduplication.

(** ** Discovery of peers *)

Section Discovery.
Import Handlers.

Lemma provides_elem_of (t : rid_type) (profile : NodeProfile) :
  provides t profile = true <-> t ∈ provides_event profile.
Proof.
  unfold provides. rewrite existsb_exists. split.
  - intros (x & Hx & Heq). apply list_elem_of_In.
    destruct t, x; simpl in Heq; try discriminate; try exact Hx.
    apply String.eqb_eq in Heq. now subst.
  - intros Hin. exists t. split; [now apply list_elem_of_In |].
    destruct t; simpl; auto. apply String.eqb_refl.
Qed.

(** C9. For a newly discovered external peer whose profile is read:
    when the profile does not list [GitHubEvent] among the events it
    provides, the handler does nothing; when it does, the handler
    proposes an edge to the peer and asks for the identifiers of its
    events, and when none come back it stops there, without asking for
    any bundle. *)
Theorem discovery_of_a_peer
    (net : Network) (identity : RID) (kobj : KnowledgeObject)
    (b : Bundle) (profile : NodeProfile) :
  registered_for_discovery kobj = true ->
  normalized_event_type kobj = Some NEW ->
  source kobj = External ->
  bundle kobj = Some b ->
  validate_contents net (contents b) = Ok profile ->
  let actions := snd (handle_network_discovery net identity kobj) in
  (GitHubEvent ∉ provides_event profile -> actions = []) /\
  (GitHubEvent ∈ provides_event profile ->
     exists rest,
       actions = ProposeEdge identity (rid kobj) WEBHOOK [GitHubEvent]
                 :: FetchRids (rid kobj) [GitHubEvent] :: rest /\
       (fetch_rids net (rid kobj) [GitHubEvent] = Ok None \/
        fetch_rids net (rid kobj) [GitHubEvent] = Ok (Some []) ->
        rest = []) /\
       (forall r rs,
          fetch_rids net (rid kobj) [GitHubEvent] = Ok (Some (r :: rs)) ->
          exists handled_,
            rest = FetchBundles (rid kobj) (r :: rs) :: handled_ /\
            forall a, a ∈ handled_ -> exists hb, a = HandleBundle hb External)).
Proof.
  intros Hreg Hnew Hsrc Hb Hval. cbv zeta.
  unfold handle_network_discovery. rewrite Hnew, Hsrc, Hb, Hval.
  unfold registered_for_discovery in Hreg.
  destruct (rtype (rid kobj)); try discriminate. clear Hreg.
  split.
  - intros Hno.
    destruct (provides GitHubEvent profile) eqn:Hp; [| reflexivity].
    apply provides_elem_of in Hp. contradiction.
  - intros Hyes. apply provides_elem_of in Hyes. rewrite Hyes. simpl.
    unfold catch_up. eexists. split; [reflexivity |]. split.
    + intros [-> | ->]; reflexivity.
    + intros r rs ->. eexists. split; [reflexivity |].
      destruct (fetch_bundles net (rid kobj) (r :: rs)) as [bs|e].
      * intros a Ha. apply list_elem_of_fmap in Ha as (hb & -> & _). eauto.
      * intros a Ha. inversion Ha.
Qed.

Lemma discovery_of_a_peer_witness :
  snd (handle_network_discovery (sensor_network None) processor_rid
         sensor_discovery)
  = [ProposeEdge processor_rid sensor_rid WEBHOOK [GitHubEvent];
     FetchRids sensor_rid [GitHubEvent]].
Proof.
  destruct (discovery_of_a_peer (sensor_network None) processor_rid
              sensor_discovery
              {| manifest := {| m_rid := sensor_rid;
                                m_timestamp := "2024-05-01T09:00:00Z";
                                sha256_hash := "51ab" |};
                 contents := [("node_type", JStr "FULL")] |}
              {| provides_event := [GitHubEvent]; provides_state := [] |}
              eq_refl eq_refl eq_refl eq_refl eq_refl)
    as [_ Hyes].
  destruct Hyes as (rest & -> & Hnone & _).
  - apply list_elem_of_here.
  - rewrite Hnone; [reflexivity |]. left. reflexivity.
Defined.

End Discovery.

(** ** Repository locks *)

Section Locks.
Import IndexDb CacheManager.

Lemma setdefault_held (key k : string) (ls : gmap string bool) :
  setdefault key ls !! k = Some true <-> ls !! k = Some true.
Proof.
  unfold setdefault. destruct (ls !! key) eqn:E; [reflexivity |].
  destruct (decide (key = k)) as [->|Hne].
  - rewrite lookup_insert_eq, E. split; discriminate.
  - now rewrite lookup_insert_ne.
Qed.

Lemma setdefault_lookup (key : string) (ls : gmap string bool) :
  setdefault key ls !! key = Some (default false (ls !! key)).
Proof.
  unfold setdefault. destruct (ls !! key) eqn:E; simpl; [exact E |].
  apply lookup_insert_eq.
Qed.

Lemma holding_insert (ts : list task) (i j : nat) (t t' : task) (key : string) :
  ts !! i = Some t ->
  holding (<[i := t']> ts) j key <->
  (j = i /\ exists b, t' = Holding key b) \/ (j <> i /\ holding ts j key).
Proof.
  intros Hi. unfold holding.
  destruct (decide (j = i)) as [->|Hne].
  - rewrite list_lookup_insert_eq by (eapply lookup_lt_Some; eauto).
    split.
    + intros [b [= ->]]. left. eauto.
    + intros [[_ [b ->]]|[Hne _]]; [eauto | contradiction].
  - rewrite list_lookup_insert_ne by auto.
    split; [intros Hh; right; auto | intros [[Hji _]|[_ Hh]]; [contradiction | exact Hh]].
Qed.

(** A task that is not inside a region before and after its step
    changes nobody's being inside. *)
Lemma holding_insert_outside (ts : list task) (i j : nat) (t t' : task)
    (key : string) :
  ts !! i = Some t ->
  (forall k b, t <> Holding k b) ->
  (forall k b, t' <> Holding k b) ->
  holding (<[i := t']> ts) j key <-> holding ts j key.
Proof.
  intros Hi Ht Ht'. rewrite (holding_insert _ _ _ _ _ _ Hi). split.
  - intros [[_ [b ->]]|[_ Hh]]; [now destruct (Ht' key b) | exact Hh].
  - intros Hh. right. split; [| exact Hh].
    intros ->. destruct Hh as [b Hb]. rewrite Hi in Hb.
    injection Hb as ->. now destruct (Ht key b).
Qed.

Lemma release_keeps_invariant (s : sys) (i : nat) (key : string) (b : body)
    (x : exit) (d' : db) :
  exclusive s -> held_while_inside s ->
  tasks s !! i = Some (Holding key b) ->
  let s' := {| locks := <[key := false]> (locks s);
               index := d';
               tasks := <[i := Done x]> (tasks s) |} in
  exclusive s' /\ held_while_inside s'.
Proof.
  intros Hex Hin Hi. cbv zeta. split.
  - intros a c k Ha Hc. simpl in Ha, Hc.
    apply (holding_insert _ _ _ _ _ _ Hi) in Ha as [[_ [? [=]]]|[_ Ha]].
    apply (holding_insert _ _ _ _ _ _ Hi) in Hc as [[_ [? [=]]]|[_ Hc]].
    eapply Hex; eauto.
  - intros k. simpl. split.
    + intros Hk. destruct (decide (key = k)) as [->|Hne].
      * rewrite lookup_insert_eq in Hk. discriminate.
      * rewrite lookup_insert_ne in Hk by auto.
        apply Hin in Hk as [j Hj]. exists j.
        apply (holding_insert _ _ _ _ _ _ Hi). right. split; [| exact Hj].
        intros ->. destruct Hj as [b' Hj]. rewrite Hi in Hj. congruence.
    + intros [j Hj].
      apply (holding_insert _ _ _ _ _ _ Hi) in Hj as [[_ [? [=]]]|[Hne Hj]].
      destruct (decide (key = k)) as [->|Hk].
      * exfalso. apply Hne. eapply Hex; [exact Hj | exists b; exact Hi].
      * rewrite lookup_insert_ne by auto. apply Hin. eauto.
Qed.

Lemma same_regions_keep_invariant (s s' : sys) :
  (forall j k, holding (tasks s') j k <-> holding (tasks s) j k) ->
  (forall k, locks s' !! k = Some true <-> locks s !! k = Some true) ->
  exclusive s /\ held_while_inside s ->
  exclusive s' /\ held_while_inside s'.
Proof.
  intros Hh Hl [Hex Hin]. split.
  - intros a c k Ha Hc. apply Hh in Ha, Hc. eapply Hex; eauto.
  - intros k. rewrite (Hl k), (Hin k).
    split; intros [j Hj]; exists j; apply Hh; exact Hj.
Qed.

Lemma step_keeps_invariant (cwd : string) (s s' : sys) :
  step cwd s s' ->
  exclusive s /\ held_while_inside s ->
  exclusive s' /\ held_while_inside s'.
Proof.
  intros Hstep [Hex Hin].
  destruct Hstep as [s i repo_dir b Hi | s i key b Hi Hfree
                    | s i key f b d' Hi Hf | s i key f b e d' Hi Hf
                    | s i key Hi | s i key b Hi | s i key b Hi].
  - (* the lock is looked up *)
    apply (same_regions_keep_invariant s); [| | auto].
    + intros j k. simpl.
      apply (holding_insert_outside _ _ _ _ _ _ Hi); discriminate.
    + intros k. simpl. apply setdefault_held.
  - (* the lock is acquired *)
    assert (forall j, ~ holding (tasks s) j key) as Hnone.
    { intros j Hj. assert (locks s !! key = Some true) as Ht
        by (apply Hin; eauto). congruence. }
    split.
    + intros a c k Ha Hc. simpl in Ha, Hc.
      apply (holding_insert _ _ _ _ _ _ Hi) in Ha, Hc.
      destruct Ha as [[-> [? Ea]]|[Hna Ha]], Hc as [[-> [? Ec]]|[Hnc Hc]].
      * reflexivity.
      * injection Ea as <- _. now destruct (Hnone c).
      * injection Ec as <- _. now destruct (Hnone a).
      * eapply Hex; eauto.
    + intros k. simpl. split.
      * intros Hk. destruct (decide (key = k)) as [->|Hne].
        -- exists i. apply (holding_insert _ _ _ _ _ _ Hi). left. eauto.
        -- rewrite lookup_insert_ne in Hk by auto.
           apply Hin in Hk as [j Hj]. exists j.
           apply (holding_insert _ _ _ _ _ _ Hi). right. split; [| exact Hj].
           intros ->. destruct Hj as [b' Hj]. rewrite Hi in Hj. discriminate.
      * intros [j Hj].
        apply (holding_insert _ _ _ _ _ _ Hi) in Hj as [[_ [? Ej]]|[_ Hj]].
        -- injection Ej as <- _. apply lookup_insert_eq.
        -- destruct (decide (key = k)) as [->|Hne];
             [now destruct (Hnone j) |].
           rewrite lookup_insert_ne by auto. apply Hin. eauto.
  - (* a storage step inside the region *)
    apply (same_regions_keep_invariant s); [| reflexivity | auto].
    intros j k. simpl. rewrite (holding_insert _ _ _ _ _ _ Hi). split.
    + intros [[-> [? Ej]]|[_ Hh]]; [| exact Hh].
      injection Ej as <- _. eexists; exact Hi.
    + intros Hh. destruct (decide (j = i)) as [->|Hne]; [| auto].
      left. split; [reflexivity |].
      destruct Hh as [b' Hb']. rewrite Hi in Hb'. injection Hb' as <- _. eauto.
  - apply (release_keeps_invariant s i key (f :: b) (Raised e) d' Hex Hin Hi).
  - apply (release_keeps_invariant s i key [] Returned (index s) Hex Hin Hi).
  - apply (release_keeps_invariant s i key b Cancelled (index s) Hex Hin Hi).
  - (* cancelled while waiting *)
    apply (same_regions_keep_invariant s); [| reflexivity | auto].
    intros j k. simpl.
    apply (holding_insert_outside _ _ _ _ _ _ Hi); discriminate.
Qed.

Lemma reachable_invariant (cwd : string) (s : sys) :
  reachable cwd s -> exclusive s /\ held_while_inside s.
Proof.
  induction 1 as [s [Hfree Hcreated] | s s' _ IH Hstep].
  - assert (forall i key, ~ holding (tasks s) i key) as Hnone.
    { intros i key [b Hb]. destruct (Hcreated _ _ Hb) as (? & ? & [=]). }
    split.
    + intros i j key Hi. now destruct (Hnone i key).
    + intros key. split.
      * intros Hk. now destruct (Hfree key).
      * intros [i Hi]. now destruct (Hnone i key).
  - eapply step_keeps_invariant; eauto.
Qed.

Lemma with_repo_lock_free {A : Type} (cwd repo_dir : string)
    (coro : db -> res A * db) (ls : gmap string bool) (d : db) :
  ls !! lock_key cwd repo_dir <> Some true ->
  exists ls',
    with_repo_lock cwd repo_dir coro ls d
      = Some (fst (coro d), ls', snd (coro d)) /\
    ls' !! lock_key cwd repo_dir = Some false.
Proof.
  intros Hfree. unfold with_repo_lock.
  rewrite setdefault_lookup.
  destruct (ls !! lock_key cwd repo_dir) as [[|]|] eqn:E; simpl;
    [now destruct Hfree | |];
    destruct (coro d) as [r d']; simpl;
    eexists; (split; [reflexivity | apply lookup_insert_eq]).
Qed.

Lemma with_repo_lock_held {A : Type} (cwd repo_dir : string)
    (coro : db -> res A * db) (ls : gmap string bool) (d : db) :
  ls !! lock_key cwd repo_dir = Some true ->
  with_repo_lock cwd repo_dir coro ls d = None.
Proof.
  intros Hheld. unfold with_repo_lock.
  now rewrite setdefault_lookup, Hheld.
Qed.

(** C3, as the specification states it, fails: an ingestion writes its
    rows while the lock registry is, and stays, empty, so that no lock
    was created, let alone held, for the repository. *)
Lemma ingestion_takes_no_lock :
  let result :=
    @Handlers.handle_event_bundle demo_runtime "t1" fresh_node push_delivery in
  (exists row,
     rows_of_event (Handlers.index (snd result)) "orn:github.event:1" = [row]) /\
  is_Some (repositories (Handlers.index (snd result))
             !! "orn:github.repo:acme/widgets") /\
  Handlers.repo_locks fresh_node = ∅ /\
  Handlers.repo_locks (snd result) = ∅.
Proof.
  cbv zeta. split_and!.
  - eexists. reflexivity.
  - vm_compute. eauto.
  - reflexivity.
  - reflexivity.
Qed.

(** Two calls that name one directory, relatively and absolutely, meet
    at one lock: with the first inside, the second can only wait. *)
Example second_task_waits :
  reachable "/srv" one_inside /\
  forall s',
    step "/srv" one_inside s' ->
    ~ holding (tasks s') 1 "/srv/repos/acme__widgets.git".
Proof.
  assert (reachable "/srv" two_tasks) as H0.
  { apply reach_init. split.
    - intros key. simpl. rewrite lookup_empty. discriminate.
    - intros i t Hi. destruct i as [|[|i]]; simpl in Hi;
        [injection Hi as <- .. | discriminate]; eauto. }
  pose proof (reach_step _ _ _ H0
    (step_lookup "/srv" two_tasks 0 "repos/acme__widgets.git" [] eq_refl)) as H1.
  match type of H1 with
  | reachable _ ?s1 =>
      pose proof (reach_step _ _ _ H1
        (step_lookup "/srv" s1 1 "/srv/repos/acme__widgets.git" [] eq_refl))
        as H2
  end.
  match type of H2 with
  | reachable _ ?s2 =>
      pose proof (reach_step _ _ _ H2
        (step_acquire "/srv" s2 0 "/srv/repos/acme__widgets.git" []
           eq_refl eq_refl)) as Hreach
  end.
  change (reachable "/srv" one_inside) in Hreach.
  split; [exact Hreach |].
  intros s' Hstep Hin.
  inversion Hstep as [s i repo_dir b Hi | s i key b Hi Hfree
                     | s i key f b d' Hi Hf | s i key f b e d' Hi Hf
                     | s i key Hi | s i key b Hi | s i key b Hi]; subst;
    destruct i as [|[|i]]; simpl in Hi; try discriminate;
    try (injection Hi as <- <-); try (injection Hi as <-);
    destruct Hin as [b' Hb']; simpl in Hb'; discriminate.
Qed.

(** C3, amended. The ingestion of an event acquires no lock: it leaves
    [repo_locks] as it is.  [with_repo_lock] itself does what is said of
    it for the operation it is given: with the lock of the normalised
    key free, the operation runs, its result or error is handed on
    unchanged and the lock is free again afterwards; with the lock held,
    the caller waits.  Among tasks that go through [with_repo_lock], at
    most one at a time is inside the region of a key, and a lock is held
    exactly while some task is inside: it is released on return, on an
    error and on cancellation. *)
Theorem lock_discipline `{Runtime} (A : Type)
    (cwd repo_dir : string) (coro : db -> res A * db)
    (ls : gmap string bool) (d : db)
    (now : string) (n : Handlers.node) (kobj : Handlers.KnowledgeObject)
    (s : sys) :
  let key := lock_key cwd repo_dir in
  Handlers.repo_locks (snd (Handlers.handle_event_bundle now n kobj))
    = Handlers.repo_locks n /\
  (ls !! key <> Some true ->
     exists ls',
       with_repo_lock cwd repo_dir coro ls d
         = Some (fst (coro d), ls', snd (coro d)) /\
       ls' !! key = Some false) /\
  (ls !! key = Some true -> with_repo_lock cwd repo_dir coro ls d = None) /\
  (reachable cwd s -> exclusive s /\ held_while_inside s).
Proof.
  cbv zeta. split_and!.
  - apply handle_event_bundle_locks.
  - apply with_repo_lock_free.
  - apply with_repo_lock_held.
  - apply reachable_invariant.
Qed.

Lemma lock_discipline_witness :
  exclusive one_inside /\ held_while_inside one_inside.
Proof.
  apply (@lock_discipline demo_runtime unit "/srv" "repos/acme__widgets.git"
           (λ d, add_repository "t1" d "orn:github.repo:acme/widgets"
                   (JStr "https://github.com/acme/widgets.git"))
           ∅ initialize_db "t1" fresh_node push_delivery one_inside).
  exact (proj1 second_task_waits).
Defined.

End Locks.

(** ** Paths *)

Section Paths.

Lemma split_not_nil (c : ascii) (s : string) : split c s <> [].
Proof.
  destruct s as [|a s]; simpl; [discriminate |].
  destruct (Ascii.eqb a c); [discriminate |].
  destruct (split c s); discriminate.
Qed.

Lemma split_cons_other (c a : ascii) (s : string) :
  Ascii.eqb a c = false ->
  exists h t, split c s = h :: t /\ split c (String a s) = String a h :: t.
Proof.
  intros Ha. simpl. rewrite Ha.
  destruct (split c s) as [|h t] eqn:E; [now destruct (split_not_nil c s) |].
  eauto.
Qed.

Lemma split_app_sep (c : ascii) (a b : string) :
  split c (a ++ String c b) = (split c a ++ split c b)%list.
Proof.
  induction a as [|x a IH].
  - simpl. now rewrite Ascii.eqb_refl.
  - change (String x a ++ String c b) with (String x (a ++ String c b)).
    destruct (Ascii.eqb x c) eqn:Hx.
    + simpl. rewrite Hx, IH. reflexivity.
    + destruct (split_cons_other c x a Hx) as (h & t & Hs & ->).
      destruct (split_cons_other c x (a ++ String c b) Hx) as (h' & t' & Hs' & ->).
      rewrite IH, Hs in Hs'. simpl in Hs'. injection Hs' as <- <-.
      reflexivity.
Qed.

Lemma split_no_sep (c : ascii) (s : string) :
  has_char c s = false -> split c s = [s].
Proof.
  induction s as [|a s IH]; simpl; [reflexivity |].
  intros H. apply orb_false_iff in H as [Ha Hs].
  rewrite Ha, (IH Hs). reflexivity.
Qed.

Lemma split_free (c : ascii) (s : string) :
  Forall (λ x, has_char c x = false) (split c s).
Proof.
  induction s as [|a s IH]; simpl.
  - constructor; [reflexivity | constructor].
  - destruct (Ascii.eqb a c) eqn:Ha.
    + constructor; [reflexivity | exact IH].
    + destruct (split c s) as [|h t]; [repeat constructor; simpl; now rewrite Ha |].
      inversion IH as [|? ? Hh Ht]; subst.
      constructor; [simpl; now rewrite Ha, Hh | exact Ht].
Qed.

Lemma split_join (c : ascii) (l : list string) :
  l <> [] ->
  Forall (λ x, has_char c x = false) l ->
  split c (Py.join c l) = l.
Proof.
  induction l as [|x l IH]; [congruence |].
  intros _ Hall. inversion Hall as [|? ? Hx Hl]; subst.
  destruct l as [|y l].
  - simpl. now apply split_no_sep.
  - change (Py.join c (x :: y :: l)) with (x ++ String c (Py.join c (y :: l))).
    rewrite split_app_sep, (split_no_sep _ _ Hx), IH by (auto; discriminate).
    reflexivity.
Qed.

Lemma last_split_sep (c : ascii) (a d : string) :
  has_char c d = false ->
  last (split c (a ++ String c d)) = Some d.
Proof.
  intros Hd. rewrite split_app_sep, (split_no_sep _ _ Hd).
  apply last_snoc.
Qed.

Lemma string_length_app (a b : string) :
  String.length (a ++ b) = String.length a + String.length b.
Proof. induction a as [|x a IH]; simpl; [reflexivity | now rewrite IH]. Qed.

Lemma app_inv_tail_string (a b s : string) : a ++ s = b ++ s -> a = b.
Proof.
  revert b. induction a as [|x a IH]; intros [|y b] H.
  - reflexivity.
  - apply (f_equal String.length) in H.
    rewrite !string_length_app in H. simpl in H. lia.
  - apply (f_equal String.length) in H.
    rewrite !string_length_app in H. simpl in H. lia.
  - simpl in H. injection H as -> H. now rewrite (IH _ H).
Qed.

Lemma replace_free (c : ascii) (by_ s : string) :
  has_char c s = false -> replace c by_ s = s.
Proof.
  induction s as [|a s IH]; simpl; [reflexivity |].
  intros H. apply orb_false_iff in H as [Ha Hs].
  now rewrite Ha, (IH Hs).
Qed.

Lemma replace_app (c : ascii) (by_ a b : string) :
  replace c by_ (a ++ b) = replace c by_ a ++ replace c by_ b.
Proof.
  induction a as [|x a IH]; simpl; [reflexivity |].
  destruct (Ascii.eqb x c); rewrite IH; [now rewrite append_assoc | reflexivity].
Qed.

Lemma replace_removes (c : ascii) (by_ s : string) :
  has_char c by_ = false -> has_char c (replace c by_ s) = false.
Proof.
  intros Hby. induction s as [|a s IH]; simpl; [reflexivity |].
  destruct (Ascii.eqb a c) eqn:Ha.
  - now rewrite has_char_app, Hby, IH.
  - simpl. now rewrite Ha, IH.
Qed.

(** *** Directory names *)

Lemma repo_rid_to_dirname_prefix (x : string) :
  Utils.repo_rid_to_dirname (Utils.rid_prefix ++ x)
  = Ok (replace "/" "__" x ++ ".git").
Proof.
  unfold Utils.repo_rid_to_dirname.
  assert (startswith Utils.rid_prefix (Utils.rid_prefix ++ x) = true) as ->
    by (apply startswith_strip; rewrite strip_prefix_app; eauto).
  rewrite (owner_repo_part_strip _ x) by apply strip_prefix_app.
  reflexivity.
Qed.

Lemma dirname_of_pair (owner repo : string) :
  has_char "/" owner = false ->
  has_char "/" repo = false ->
  Utils.repo_rid_to_dirname (rid_of owner repo)
  = Ok (owner ++ String "_" (String "_" (repo ++ ".git"))).
Proof.
  intros Ho Hr. unfold rid_of. rewrite repo_rid_to_dirname_prefix.
  change (owner ++ "/" ++ repo) with (owner ++ String "/" repo).
  rewrite replace_app, (replace_free _ _ _ Ho).
  change (replace "/" "__" (String "/" repo))
    with ("__" ++ replace "/" "__" repo).
  rewrite (replace_free _ _ _ Hr), append_assoc. reflexivity.
Qed.

Lemma dirname_plain (x : string) :
  plain_name (replace "/" "__" x ++ ".git").
Proof.
  assert (forall s, String.length (s ++ ".git") >= 4) as Hlen
    by (intros s; rewrite string_length_app; simpl; lia).
  unfold plain_name. split_and!.
  - rewrite has_char_app, replace_removes by reflexivity. reflexivity.
  - intros E. pose proof (Hlen (replace "/" "__" x)) as L.
    rewrite E in L. simpl in L. lia.
  - intros E. pose proof (Hlen (replace "/" "__" x)) as L.
    rewrite E in L. simpl in L. lia.
  - intros E. pose proof (Hlen (replace "/" "__" x)) as L.
    rewrite E in L. simpl in L. lia.
Qed.

(** Identifiers whose owner holds neither ["/"] nor ["_"] and whose
    repository holds no ["/"] have directory names of their own. *)
Lemma dirname_injective (o1 r1 o2 r2 : string) :
  has_char "/" o1 = false -> has_char "_" o1 = false ->
  has_char "/" o2 = false -> has_char "_" o2 = false ->
  has_char "/" r1 = false -> has_char "/" r2 = false ->
  Utils.repo_rid_to_dirname (rid_of o1 r1)
  = Utils.repo_rid_to_dirname (rid_of o2 r2) ->
  o1 = o2 /\ r1 = r2.
Proof.
  intros Ho1 Hu1 Ho2 Hu2 Hr1 Hr2.
  rewrite !dirname_of_pair by assumption. intros [= E].
  pose proof (split_once_char_app "_" o1 (String "_" (r1 ++ ".git")) Hu1) as S1.
  pose proof (split_once_char_app "_" o2 (String "_" (r2 ++ ".git")) Hu2) as S2.
  rewrite E in S1. rewrite S1 in S2. injection S2 as -> E2.
  split; [reflexivity |]. now apply app_inv_tail_string in E2.
Qed.

(** *** The last component of a path *)

Lemma ends_with_component_last (d s : string) :
  has_char "/" d = false ->
  ends_with_component d s -> last (split "/" s) = Some d.
Proof.
  intros Hd [-> | [x ->]].
  - now rewrite (split_no_sep _ _ Hd).
  - now apply last_split_sep.
Qed.

Lemma ends_with_component_inj (d1 d2 s : string) :
  has_char "/" d1 = false -> has_char "/" d2 = false ->
  ends_with_component d1 s -> ends_with_component d2 s -> d1 = d2.
Proof.
  intros H1 H2 E1 E2.
  apply (ends_with_component_last _ _ H1) in E1.
  apply (ends_with_component_last _ _ H2) in E2. congruence.
Qed.

(** *** Normalisation keeps a plain last component *)

Lemma eqb_false_of_neq (a b : string) : a <> b -> String.eqb a b = false.
Proof. intros H. now apply String.eqb_neq. Qed.

Lemma norm_step_plain (initial : nat) (st : list string) (d : string) :
  plain_name d -> OsPath.norm_step initial st d = d :: st.
Proof.
  intros (_ & H0 & H1 & H2). unfold OsPath.norm_step.
  now rewrite !eqb_false_of_neq by assumption.
Qed.

Lemma norm_comps_snoc_plain (initial : nat) (cs : list string) (d : string) :
  plain_name d ->
  OsPath.norm_comps initial (cs ++ [d])
  = (OsPath.norm_comps initial cs ++ [d])%list.
Proof.
  intros Hd. unfold OsPath.norm_comps.
  rewrite fold_left_app. simpl. now rewrite (norm_step_plain _ _ _ Hd).
Qed.

Lemma join_snoc (c : ascii) (l : list string) (d : string) :
  l <> [] -> Py.join c (l ++ [d]) = Py.join c l ++ String c d.
Proof.
  induction l as [|x l IH]; [congruence |]. intros _.
  destruct l as [|y l]; [reflexivity |].
  change (Py.join c ((x :: y :: l) ++ [d]))
    with (x ++ String c (Py.join c ((y :: l) ++ [d]))).
  rewrite IH by discriminate.
  change (Py.join c (x :: y :: l)) with (x ++ String c (Py.join c (y :: l))).
  rewrite append_assoc. reflexivity.
Qed.

Lemma slashes_snoc (n : nat) (d : string) :
  OsPath.slashes (S n) ++ d = OsPath.slashes n ++ String "/" d.
Proof. induction n as [|n IH]; simpl in *; [reflexivity | now rewrite IH]. Qed.

Lemma app_sep_not_empty (x d : string) (c : ascii) :
  String.eqb (x ++ String c d) "" = false.
Proof. now destruct x. Qed.

Lemma startswith_sep_free (c : ascii) (s : string) :
  has_char c s = false -> startswith (String c "") s = false.
Proof.
  destruct s as [|a s]; simpl; [reflexivity |].
  intros H. apply orb_false_iff in H as [Ha _].
  rewrite Ascii.eqb_sym, Ha. reflexivity.
Qed.

Lemma initial_slashes_relative (s : string) :
  startswith "/" s = false -> OsPath.initial_slashes s = 0.
Proof. unfold OsPath.initial_slashes. now intros ->. Qed.

Lemma normpath_nonempty (s : string) :
  String.eqb s "" = false ->
  OsPath.normpath s =
    let p := OsPath.slashes (OsPath.initial_slashes s)
             ++ Py.join "/" (OsPath.norm_comps (OsPath.initial_slashes s)
                               (split "/" s)) in
    if String.eqb p "" then "." else p.
Proof. intros H. unfold OsPath.normpath. now rewrite H. Qed.

Lemma normpath_ends (d s : string) :
  plain_name d ->
  ends_with_component d s -> ends_with_component d (OsPath.normpath s).
Proof.
  intros Hd Hs. pose proof Hd as (Hfree & Hne & _).
  destruct Hs as [-> | [x ->]].
  - left. rewrite normpath_nonempty by now apply eqb_false_of_neq.
    cbv zeta.
    rewrite (initial_slashes_relative d) by now apply startswith_sep_free.
    rewrite (split_no_sep _ _ Hfree).
    change [d] with ([] ++ [d])%list.
    rewrite (norm_comps_snoc_plain _ _ _ Hd). simpl.
    now rewrite eqb_false_of_neq.
  - rewrite normpath_nonempty by apply app_sep_not_empty. cbv zeta.
    set (initial := OsPath.initial_slashes (x ++ String "/" d)).
    rewrite split_app_sep, (split_no_sep _ _ Hfree).
    rewrite (norm_comps_snoc_plain _ _ _ Hd).
    destruct (OsPath.norm_comps initial (split "/" x)) as [|c cs] eqn:E.
    + simpl Py.join. destruct initial as [|k].
      * left. simpl. now rewrite eqb_false_of_neq.
      * right. rewrite slashes_snoc, app_sep_not_empty. eauto.
    + rewrite join_snoc by discriminate.
      rewrite <- append_assoc, app_sep_not_empty. right. eauto.
Qed.

Lemma endswith_sep_split (a : string) :
  OsPath.endswith_sep a = true -> exists x, a = x ++ "/".
Proof.
  induction a as [|c a IH]; [discriminate |].
  destruct a as [|c' a].
  - simpl. intros Hc. apply Ascii.eqb_eq in Hc as ->. now exists "".
  - intros H. change (OsPath.endswith_sep (String c' a) = true) in H.
    destruct (IH H) as [x ->]. now exists (String c x).
Qed.

(** For a relative [p], [os.path.join(a, p)] puts one separator between
    the two, unless [a] is empty. *)
Lemma join_relative (a p : string) :
  startswith "/" p = false ->
  OsPath.join a p = p /\ a = "" \/
  exists x, OsPath.join a p = x ++ String "/" p /\
            (a = x \/ a = x ++ "/").
Proof.
  intros Hp. unfold OsPath.join. rewrite Hp.
  destruct (String.eqb_spec a "") as [->|Hne]; [left; auto |].
  right. simpl. destruct (OsPath.endswith_sep a) eqn:E.
  - destruct (endswith_sep_split a E) as [x ->]. exists x.
    rewrite append_assoc. auto.
  - exists a. auto.
Qed.

Lemma join_ends (d a s : string) :
  ends_with_component d s -> startswith "/" s = false ->
  ends_with_component d (OsPath.join a s).
Proof.
  intros Hs Hrel.
  destruct (join_relative a s Hrel) as [[-> _]|(x & -> & _)]; [exact Hs |].
  destruct Hs as [-> | [y ->]]; right.
  - eauto.
  - exists (x ++ String "/" y). now rewrite append_assoc.
Qed.

Lemma lock_key_ends (d cwd s : string) :
  plain_name d ->
  ends_with_component d s -> ends_with_component d (CacheManager.lock_key cwd s).
Proof.
  intros Hd Hs. unfold CacheManager.lock_key, OsPath.abspath, OsPath.isabs.
  apply (normpath_ends _ _ Hd).
  destruct (startswith "/" (OsPath.normpath s)) eqn:E.
  - now apply normpath_ends.
  - apply join_ends; [now apply normpath_ends | exact E].
Qed.

Lemma get_repo_dir_prefix (cwd base x : string) :
  CacheManager.get_repo_dir cwd base (Utils.rid_prefix ++ x)
  = Ok (CacheManager.lock_key cwd
          (OsPath.join base (replace "/" "__" x ++ ".git"))).
Proof.
  unfold CacheManager.get_repo_dir.
  assert (startswith Utils.rid_prefix (Utils.rid_prefix ++ x) = true) as ->
    by (apply startswith_strip; rewrite strip_prefix_app; eauto).
  now rewrite repo_rid_to_dirname_prefix.
Qed.

Lemma get_repo_dir_ends (cwd base x : string) :
  exists k,
    CacheManager.get_repo_dir cwd base (Utils.rid_prefix ++ x) = Ok k /\
    ends_with_component (replace "/" "__" x ++ ".git") k.
Proof.
  rewrite get_repo_dir_prefix. eexists. split; [reflexivity |].
  pose proof (dirname_plain x) as Hd.
  apply (lock_key_ends _ _ _ Hd).
  apply join_ends; [now left |].
  apply startswith_sep_free. apply Hd.
Qed.

(** *** Normalising twice, and normalising under a directory *)

Lemma norm_step_kept (initial : nat) (st : list string) (c : string) :
  Forall kept st -> Forall kept (OsPath.norm_step initial st c).
Proof.
  intros Hst. unfold OsPath.norm_step.
  destruct (String.eqb_spec c "") as [->|H0]; [exact Hst |].
  destruct (String.eqb_spec c ".") as [->|H1]; [exact Hst |].
  assert (kept c) as Hc by (split; assumption). simpl.
  destruct (String.eqb c ".."); simpl; [| now constructor].
  destruct st as [|top below].
  - destruct (Nat.eqb initial 0); [now constructor | exact Hst].
  - destruct (String.eqb top ".."); [now constructor |].
    now inversion Hst.
Qed.

Lemma norm_fold_kept (initial : nat) (cs st : list string) :
  Forall kept st -> Forall kept (fold_left (OsPath.norm_step initial) cs st).
Proof.
  revert st. induction cs as [|c cs IH]; intros st Hst; simpl; [exact Hst |].
  apply IH. now apply norm_step_kept.
Qed.

Lemma norm_step_push (initial : nat) (st : list string) (c : string) :
  c <> "" -> c <> "." -> c <> ".." -> OsPath.norm_step initial st c = c :: st.
Proof.
  intros H0 H1 H2. unfold OsPath.norm_step.
  now rewrite !eqb_false_of_neq by assumption.
Qed.

Lemma norm_step_up_pop (initial : nat) (top : string) (below : list string) :
  top <> ".." -> OsPath.norm_step initial (top :: below) ".." = below.
Proof.
  intros Ht. unfold OsPath.norm_step. simpl.
  now rewrite (eqb_false_of_neq top "..").
Qed.

(** A relative path and its normal form move a directory the same way. *)
Lemma norm_fold_absorb (initial : nat) (cs st : list string) :
  fold_left (OsPath.norm_step initial)
    (rev (fold_left (OsPath.norm_step 0) cs [])) st
  = fold_left (OsPath.norm_step initial) cs st.
Proof.
  induction cs as [|c cs IH] using rev_ind; [reflexivity |].
  rewrite !fold_left_app. simpl. rewrite <- IH.
  assert (Forall kept (fold_left (OsPath.norm_step 0) cs [])) as Hk
    by (apply norm_fold_kept; constructor).
  set (N := fold_left (OsPath.norm_step 0) cs []) in *. clearbody N. clear IH.
  destruct (String.eqb_spec c "") as [->|H0]; [reflexivity |].
  destruct (String.eqb_spec c ".") as [->|H1]; [reflexivity |].
  destruct (String.eqb_spec c "..") as [->|H2].
  - destruct N as [|top below]; [reflexivity |].
    destruct (String.eqb_spec top "..") as [->|Ht].
    + change (OsPath.norm_step 0 (".." :: below) "..")
        with (".." :: ".." :: below).
      simpl rev. rewrite !fold_left_app. reflexivity.
    + rewrite (norm_step_up_pop 0 top below Ht).
      simpl rev. rewrite fold_left_app. simpl.
      inversion Hk as [|? ? [Ht0 Ht1] _]; subst.
      rewrite (norm_step_push initial _ top Ht0 Ht1 Ht).
      now rewrite (norm_step_up_pop initial top _ Ht).
  - rewrite (norm_step_push 0 N c H0 H1 H2).
    simpl rev. rewrite fold_left_app. reflexivity.
Qed.

Lemma norm_step_free (initial : nat) (st : list string) (c : string) :
  free c -> Forall free st -> Forall free (OsPath.norm_step initial st c).
Proof.
  intros Hc Hst. unfold OsPath.norm_step.
  destruct (_ || _); [exact Hst |].
  destruct (negb _); [now constructor |].
  destruct st as [|top below].
  - destruct (Nat.eqb initial 0); [now constructor | exact Hst].
  - destruct (String.eqb top ".."); [now constructor | now inversion Hst].
Qed.

Lemma norm_fold_free (initial : nat) (cs st : list string) :
  Forall free cs -> Forall free st ->
  Forall free (fold_left (OsPath.norm_step initial) cs st).
Proof.
  revert st. induction cs as [|c cs IH]; intros st Hcs Hst; simpl; [exact Hst |].
  inversion Hcs; subst. apply IH; [assumption |]. now apply norm_step_free.
Qed.

Lemma norm_comps_clean (initial : nat) (s : string) :
  Forall kept (OsPath.norm_comps initial (split "/" s)) /\
  Forall free (OsPath.norm_comps initial (split "/" s)).
Proof.
  unfold OsPath.norm_comps. split; apply Forall_rev.
  - apply norm_fold_kept. constructor.
  - apply norm_fold_free; [apply split_free | constructor].
Qed.

Lemma join_empty (c : ascii) (l : list string) :
  Forall kept l -> Py.join c l = "" -> l = [].
Proof.
  destruct l as [|x l]; [reflexivity |].
  intros Hk Hj. inversion Hk as [|? ? [Hx _] _]; subst.
  destruct l as [|y l]; simpl in Hj.
  - contradiction.
  - destruct x; [contradiction | discriminate].
Qed.

Lemma startswith_app_first (c : ascii) (x rest : string) :
  x <> "" -> has_char c x = false ->
  startswith (String c "") (x ++ rest) = false.
Proof.
  destruct x as [|a x]; [contradiction |]. intros _ H. simpl in H |- *.
  apply orb_false_iff in H as [Ha _]. rewrite Ascii.eqb_sym, Ha. reflexivity.
Qed.

Lemma join_relative_result (l : list string) :
  Forall kept l -> Forall free l -> startswith "/" (Py.join "/" l) = false.
Proof.
  destruct l as [|x l]; [reflexivity |].
  intros Hk Hf. inversion Hk as [|? ? [Hx _] _]; inversion Hf; subst.
  destruct l as [|y l].
  - change (Py.join "/" [x]) with x. now apply startswith_sep_free.
  - change (Py.join "/" (x :: y :: l))
      with (x ++ String "/" (Py.join "/" (y :: l))).
    now apply startswith_app_first.
Qed.

(** The normal form of a relative path, which is relative. *)
Lemma normpath_relative (x : string) :
  startswith "/" x = false ->
  let l := OsPath.norm_comps 0 (split "/" x) in
  OsPath.normpath x = (if String.eqb (Py.join "/" l) "" then "." else Py.join "/" l)
  /\ startswith "/" (OsPath.normpath x) = false.
Proof.
  intros Hx. cbv zeta.
  destruct (norm_comps_clean 0 x) as [Hk Hf].
  assert (OsPath.normpath x =
          if String.eqb (Py.join "/" (OsPath.norm_comps 0 (split "/" x))) ""
          then "." else Py.join "/" (OsPath.norm_comps 0 (split "/" x))) as E.
  { destruct (String.eqb_spec x "") as [->|Hne]; [reflexivity |].
    rewrite normpath_nonempty by now apply eqb_false_of_neq.
    cbv zeta. now rewrite (initial_slashes_relative x Hx). }
  split; [exact E |]. rewrite E.
  destruct (String.eqb _ ""); [reflexivity |].
  now apply join_relative_result.
Qed.

Lemma norm_fold_normpath (initial : nat) (x : string) (st : list string) :
  startswith "/" x = false ->
  fold_left (OsPath.norm_step initial) (split "/" (OsPath.normpath x)) st
  = fold_left (OsPath.norm_step initial) (split "/" x) st.
Proof.
  intros Hx. destruct (normpath_relative x Hx) as [-> _].
  destruct (norm_comps_clean 0 x) as [Hk Hf].
  rewrite <- (norm_fold_absorb initial (split "/" x) st).
  fold (OsPath.norm_comps 0 (split "/" x)).
  destruct (String.eqb_spec (Py.join "/" (OsPath.norm_comps 0 (split "/" x))) "")
    as [E|E].
  - now rewrite (join_empty _ _ Hk E).
  - rewrite split_join; [reflexivity | | exact Hf].
    intros Hnil. rewrite Hnil in E. now apply E.
Qed.

Lemma startswith_cons (c a : ascii) (p s : string) :
  startswith (String c p) (String a s) = Ascii.eqb c a && startswith p s.
Proof. reflexivity. Qed.

(** The leading slashes of [c/x] do not depend on a relative [x]. *)
Lemma initial_slashes_under (c x y : string) :
  startswith "/" x = false -> startswith "/" y = false ->
  OsPath.initial_slashes (c ++ String "/" x)
  = OsPath.initial_slashes (c ++ String "/" y).
Proof.
  intros Hx Hy. unfold OsPath.initial_slashes.
  destruct c as [|a1 [|a2 [|a3 c]]];
    cbn [String.append];
    change "//" with (String "/" "/");
    change "///" with (String "/" (String "/" "/"));
    rewrite ?startswith_cons, ?Hx, ?Hy;
    reflexivity.
Qed.

Lemma normpath_under (c x : string) :
  startswith "/" x = false ->
  OsPath.normpath (c ++ String "/" (OsPath.normpath x))
  = OsPath.normpath (c ++ String "/" x).
Proof.
  intros Hx. destruct (normpath_relative x Hx) as [_ Hrel].
  rewrite (normpath_nonempty (c ++ String "/" x))
    by apply app_sep_not_empty.
  rewrite (normpath_nonempty (c ++ String "/" (OsPath.normpath x)))
    by apply app_sep_not_empty.
  cbv zeta.
  rewrite (initial_slashes_under c _ x Hrel Hx).
  unfold OsPath.norm_comps.
  rewrite !split_app_sep, !fold_left_app.
  now rewrite (norm_fold_normpath _ x _ Hx).
Qed.

(** *** Absolute paths *)

Lemma norm_step_entry (initial : nat) (st : list string) (c : string) :
  initial <> 0 -> free c ->
  Forall entry st -> Forall entry (OsPath.norm_step initial st c).
Proof.
  intros Hi Hc Hst.
  destruct (String.eqb_spec c "") as [->|H0]; [exact Hst |].
  destruct (String.eqb_spec c ".") as [->|H1]; [exact Hst |].
  destruct (String.eqb_spec c "..") as [->|H2].
  - destruct st as [|top below].
    + unfold OsPath.norm_step. simpl.
      destruct initial; [contradiction | constructor].
    + inversion Hst as [|? ? (_ & Ht & _) Hb]; subst.
      now rewrite (norm_step_up_pop _ _ _ Ht).
  - rewrite (norm_step_push _ _ _ H0 H1 H2).
    constructor; [repeat split; assumption | exact Hst].
Qed.

Lemma norm_fold_entry (initial : nat) (cs st : list string) :
  initial <> 0 -> Forall free cs ->
  Forall entry st -> Forall entry (fold_left (OsPath.norm_step initial) cs st).
Proof.
  intros Hi. revert st.
  induction cs as [|c cs IH]; intros st Hcs Hst; simpl; [exact Hst |].
  inversion Hcs; subst. apply IH; [assumption |]. now apply norm_step_entry.
Qed.

Lemma norm_fold_entries (initial : nat) (l st : list string) :
  Forall entry l ->
  fold_left (OsPath.norm_step initial) l st = (rev l ++ st)%list.
Proof.
  revert st. induction l as [|c l IH]; intros st Hl; simpl; [reflexivity |].
  inversion Hl as [|? ? ((H0 & H1) & H2 & _) Hl']; subst.
  rewrite (norm_step_push _ _ _ H0 H1 H2), (IH _ Hl').
  now rewrite <- app_assoc.
Qed.

Lemma initial_slashes_absolute (a : string) :
  startswith "/" a = true ->
  OsPath.initial_slashes a = 1 \/ OsPath.initial_slashes a = 2.
Proof.
  intros Ha. unfold OsPath.initial_slashes. rewrite Ha.
  destruct (_ && _); auto.
Qed.

(** The normal form of an absolute path: its leading slashes and its
    entries. *)
Lemma normpath_absolute (a : string) :
  startswith "/" a = true ->
  exists initial l,
    (initial = 1 \/ initial = 2) /\ Forall entry l /\
    OsPath.normpath a = OsPath.slashes initial ++ Py.join "/" l.
Proof.
  intros Ha.
  exists (OsPath.initial_slashes a),
         (OsPath.norm_comps (OsPath.initial_slashes a) (split "/" a)).
  pose proof (initial_slashes_absolute a Ha) as Hi.
  split_and!; [exact Hi | |].
  - unfold OsPath.norm_comps. apply Forall_rev.
    apply norm_fold_entry; [lia | apply split_free | constructor].
  - rewrite normpath_nonempty by (destruct a; [discriminate | reflexivity]).
    cbv zeta. destruct Hi as [-> | ->]; reflexivity.
Qed.

Lemma entries_clean (l : list string) :
  Forall entry l -> Forall kept l /\ Forall free l.
Proof.
  intros H. split; eapply Forall_impl; try exact H; intros c Hc; apply Hc.
Qed.

(** Such a normal form is absolute and is its own normal form. *)
Lemma normpath_of_normal (initial : nat) (l : list string) :
  initial = 1 \/ initial = 2 -> Forall entry l ->
  let n := OsPath.slashes initial ++ Py.join "/" l in
  startswith "/" n = true /\ OsPath.normpath n = n.
Proof.
  intros Hi Hl. cbv zeta.
  destruct (entries_clean l Hl) as [Hk Hf].
  pose proof (join_relative_result l Hk Hf) as Hrel.
  assert (startswith "/" (OsPath.slashes initial ++ Py.join "/" l) = true) as Habs
    by (destruct Hi as [-> | ->]; reflexivity).
  split; [exact Habs |].
  assert (OsPath.initial_slashes (OsPath.slashes initial ++ Py.join "/" l)
          = initial) as Hinit.
  { unfold OsPath.initial_slashes. rewrite Habs.
    destruct Hi as [-> | ->]; cbn [OsPath.slashes String.append];
      change "//" with (String "/" "/");
      change "///" with (String "/" (String "/" "/"));
      rewrite ?startswith_cons, ?Hrel; reflexivity. }
  assert (OsPath.norm_comps initial
            (split "/" (OsPath.slashes initial ++ Py.join "/" l)) = l) as Hcomps.
  { assert (fold_left (OsPath.norm_step initial)
              (split "/" (Py.join "/" l)) [] = rev l) as Hfold.
    { destruct l as [|x l'].
      - reflexivity.
      - rewrite split_join by (auto; discriminate).
        rewrite (norm_fold_entries _ _ _ Hl). apply app_nil_r. }
    unfold OsPath.norm_comps.
    destruct Hi as [-> | ->]; cbn [OsPath.slashes String.append].
    - change (String "/" (Py.join "/" l)) with ("" ++ String "/" (Py.join "/" l)).
      rewrite split_app_sep. simpl app. simpl fold_left at 1.
      change (OsPath.norm_step 1 [] "") with (@nil string).
      rewrite Hfold. apply rev_involutive.
    - change (String "/" (String "/" (Py.join "/" l)))
        with ("" ++ String "/" ("" ++ String "/" (Py.join "/" l))).
      rewrite !split_app_sep. simpl app. simpl fold_left at 1.
      change (OsPath.norm_step 2 (OsPath.norm_step 2 [] "") "") with (@nil string).
      rewrite Hfold. apply rev_involutive. }
  rewrite normpath_nonempty
    by (destruct Hi as [-> | ->]; reflexivity).
  cbv zeta. rewrite Hinit, Hcomps.
  destruct Hi as [-> | ->]; reflexivity.
Qed.

Lemma normpath_idempotent_absolute (a : string) :
  startswith "/" a = true ->
  startswith "/" (OsPath.normpath a) = true /\
  OsPath.normpath (OsPath.normpath a) = OsPath.normpath a.
Proof.
  intros Ha. destruct (normpath_absolute a Ha) as (initial & l & Hi & Hl & ->).
  now apply normpath_of_normal.
Qed.

(** *** Lock keys *)

Lemma join_under (a : string) :
  a <> "" ->
  exists c,
    (a = c \/ a = c ++ "/") /\
    forall p, startswith "/" p = false -> OsPath.join a p = c ++ String "/" p.
Proof.
  intros Hne. destruct (OsPath.endswith_sep a) eqn:E.
  - destruct (endswith_sep_split a E) as [c ->]. exists c.
    split; [now right |]. intros p Hp. unfold OsPath.join.
    rewrite Hp, E, orb_true_r. now rewrite append_assoc.
  - exists a. split; [now left |]. intros p Hp. unfold OsPath.join.
    now rewrite Hp, E, (eqb_false_of_neq a "" Hne).
Qed.

Lemma under_absolute (a c p : string) :
  startswith "/" a = true -> a = c \/ a = c ++ "/" ->
  startswith "/" (c ++ String "/" p) = true.
Proof.
  intros Ha Hc. destruct c as [|x c]; [reflexivity |].
  destruct Hc as [-> | ->]; exact Ha.
Qed.

Lemma absolute_not_empty (a : string) : startswith "/" a = true -> a <> "".
Proof. intros H ->. discriminate. Qed.

Lemma lock_key_absolute (cwd a : string) :
  startswith "/" a = true ->
  CacheManager.lock_key cwd a = OsPath.normpath a /\
  startswith "/" (OsPath.normpath a) = true /\
  OsPath.normpath (OsPath.normpath a) = OsPath.normpath a.
Proof.
  intros Ha. destruct (normpath_idempotent_absolute a Ha) as [Habs Hidem].
  unfold CacheManager.lock_key, OsPath.abspath, OsPath.isabs.
  now rewrite Habs.
Qed.

(** The working directory of the process is an absolute path. *)
Section WorkingDirectory.
Variable cwd : string.
Hypothesis cwd_absolute : startswith "/" cwd = true.

Lemma lock_key_relative (p : string) :
  startswith "/" p = false ->
  CacheManager.lock_key cwd p = OsPath.normpath (OsPath.join cwd p) /\
  startswith "/" (OsPath.join cwd p) = true.
Proof.
  intros Hp.
  destruct (join_under cwd (absolute_not_empty _ cwd_absolute))
    as (c & Hc & Hjoin).
  destruct (normpath_relative p Hp) as [_ Hrel].
  unfold CacheManager.lock_key, OsPath.abspath, OsPath.isabs.
  rewrite Hrel, (Hjoin _ Hrel), (Hjoin _ Hp).
  split; [now apply normpath_under | now apply (under_absolute cwd)].
Qed.

Lemma lock_key_join (p : string) :
  startswith "/" p = false ->
  CacheManager.lock_key cwd (OsPath.join cwd p) = CacheManager.lock_key cwd p.
Proof.
  intros Hp.
  destruct (lock_key_relative p Hp) as [-> Habs].
  now destruct (lock_key_absolute cwd _ Habs) as [-> _].
Qed.

Lemma lock_key_idempotent (p : string) :
  CacheManager.lock_key cwd (CacheManager.lock_key cwd p)
  = CacheManager.lock_key cwd p.
Proof.
  assert (exists a, startswith "/" a = true /\
                    CacheManager.lock_key cwd p = OsPath.normpath a)
    as (a & Ha & ->).
  { destruct (startswith "/" p) eqn:Hp.
    - exists p. split; [exact Hp |]. now apply lock_key_absolute.
    - destruct (lock_key_relative p Hp) as [-> Habs]. eauto. }
  destruct (lock_key_absolute cwd a Ha) as (_ & Habs & Hidem).
  destruct (lock_key_absolute cwd _ Habs) as (-> & _). exact Hidem.
Qed.

End WorkingDirectory.

Lemma endswith_sep_app (a b : string) :
  b <> "" -> OsPath.endswith_sep (a ++ b) = OsPath.endswith_sep b.
Proof.
  intros Hb. induction a as [|x a IH]; [reflexivity |].
  change (String x a ++ b) with (String x (a ++ b)).
  destruct (a ++ b) as [|y s] eqn:E.
  - destruct a; [simpl in E; contradiction | discriminate].
  - rewrite <- IH. reflexivity.
Qed.

Lemma startswith_relative_app (a b : string) :
  a <> "" -> startswith "/" a = false -> startswith "/" (a ++ b) = false.
Proof. destruct a as [|x a]; [contradiction | intros _ H; exact H]. Qed.

(** Joining under [cwd] first or last is the same for relative paths. *)
Lemma join_join (cwd base d : string) :
  cwd <> "" ->
  startswith "/" base = false -> startswith "/" d = false ->
  OsPath.join (OsPath.join cwd base) d = OsPath.join cwd (OsPath.join base d) /\
  startswith "/" (OsPath.join base d) = false.
Proof.
  intros Hcwd Hb Hd.
  destruct (join_under cwd Hcwd) as (c & Hc & Hjoin).
  destruct (String.eqb_spec base "") as [->|Hne].
  - change (OsPath.join "" d) with (if startswith "/" d then d else d).
    rewrite Hd. split; [| exact Hd].
    rewrite (Hjoin "" eq_refl), (Hjoin d Hd).
    unfold OsPath.join. rewrite Hd.
    rewrite (endswith_sep_app c "/") by discriminate.
    rewrite orb_true_r, append_assoc. reflexivity.
  - assert (exists y, forall a, a <> "" ->
              OsPath.join (a ++ base) d = (a ++ base) ++ y /\
              OsPath.join base d = base ++ y) as (y & Hy).
    { destruct (OsPath.endswith_sep base) eqn:E.
      - exists d. intros a Ha. unfold OsPath.join.
        rewrite Hd, (endswith_sep_app a base Hne), E, !orb_true_r. auto.
      - exists (String "/" d). intros a Ha. unfold OsPath.join.
        rewrite Hd, (endswith_sep_app a base Hne), E.
        rewrite (eqb_false_of_neq base "" Hne).
        rewrite (eqb_false_of_neq (a ++ base) "")
          by (destruct a; [contradiction | discriminate]).
        auto. }
    rewrite (Hjoin base Hb).
    destruct (Hy (c ++ "/")) as [E1 E2];
      [destruct c; discriminate |].
    change (c ++ String "/" base) with (c ++ ("/" ++ base)).
    rewrite <- append_assoc, E1, E2.
    assert (startswith "/" (base ++ y) = false) as Hrel
      by now apply startswith_relative_app.
    split; [| exact Hrel].
    rewrite (Hjoin _ Hrel).
    change (c ++ String "/" (base ++ y)) with (c ++ ("/" ++ (base ++ y))).
    now rewrite !append_assoc.
Qed.

Lemma get_repo_dir_join (cwd base repo_rid : string) :
  startswith "/" cwd = true -> startswith "/" base = false ->
  CacheManager.get_repo_dir cwd (OsPath.join cwd base) repo_rid
  = CacheManager.get_repo_dir cwd base repo_rid.
Proof.
  intros Hcwd Hbase.
  destruct (strip_prefix Utils.rid_prefix repo_rid) as [x|] eqn:E.
  - apply strip_prefix_Some in E as ->.
    rewrite !get_repo_dir_prefix. f_equal.
    pose proof (dirname_plain x) as (Hfree & _).
    destruct (join_join cwd base (replace "/" "__" x ++ ".git")
                (absolute_not_empty _ Hcwd) Hbase
                (startswith_sep_free _ _ Hfree)) as [-> Hrel].
    now apply lock_key_join.
  - apply startswith_false_strip in E.
    unfold CacheManager.get_repo_dir. now rewrite E.
Qed.

Lemma get_repo_dir_injective (cwd base o1 r1 o2 r2 : string) :
  has_char "/" o1 = false -> has_char "_" o1 = false ->
  has_char "/" o2 = false -> has_char "_" o2 = false ->
  has_char "/" r1 = false -> has_char "/" r2 = false ->
  CacheManager.get_repo_dir cwd base (rid_of o1 r1)
  = CacheManager.get_repo_dir cwd base (rid_of o2 r2) ->
  o1 = o2 /\ r1 = r2.
Proof.
  intros Ho1 Hu1 Ho2 Hu2 Hr1 Hr2 E.
  destruct (get_repo_dir_ends cwd base (o1 ++ "/" ++ r1)) as (k1 & E1 & H1).
  destruct (get_repo_dir_ends cwd base (o2 ++ "/" ++ r2)) as (k2 & E2 & H2).
  unfold rid_of in E. rewrite E1, E2 in E. injection E as <-.
  apply (dirname_injective o1 r1 o2 r2); try assumption.
  unfold rid_of. rewrite !repo_rid_to_dirname_prefix. f_equal.
  apply (ends_with_component_inj _ _ k1); try assumption; apply dirname_plain.
Qed.

(** C8, as the specification states it, fails: two distinct identifiers
    share a directory name, and with it a lock key. *)
Lemma lock_key_collision :
  rid_of "a" "b__c" <> rid_of "a__b" "c" /\
  Utils.repo_rid_to_dirname (rid_of "a" "b__c") = Ok "a__b__c.git" /\
  Utils.repo_rid_to_dirname (rid_of "a__b" "c") = Ok "a__b__c.git" /\
  CacheManager.get_repo_dir "/srv" "repos" (rid_of "a" "b__c")
  = CacheManager.get_repo_dir "/srv" "repos" (rid_of "a__b" "c").
Proof. split_and!; [discriminate | reflexivity..]. Qed.

(** C8, amended. The lock key of a repository is the same whatever the
    representation of its path: with an absolute working directory, a
    relative base directory and its absolute form give the same key, so
    do a relative and the absolute path of a repository directory, and
    a key that is normalised again is unchanged.  Keys are distinct for
    distinct identifiers whose owner holds neither ["/"] nor ["_"] and
    whose repository name holds no ["/"]; other identifiers may share a
    key. *)
Theorem lock_keys (cwd base o1 r1 o2 r2 repo_rid p : string) :
  startswith "/" cwd = true ->
  (has_char "/" o1 = false -> has_char "_" o1 = false ->
   has_char "/" o2 = false -> has_char "_" o2 = false ->
   has_char "/" r1 = false -> has_char "/" r2 = false ->
   CacheManager.get_repo_dir cwd base (rid_of o1 r1)
   = CacheManager.get_repo_dir cwd base (rid_of o2 r2) ->
   o1 = o2 /\ r1 = r2) /\
  (startswith "/" base = false ->
   CacheManager.get_repo_dir cwd (OsPath.join cwd base) repo_rid
   = CacheManager.get_repo_dir cwd base repo_rid) /\
  (startswith "/" p = false ->
   CacheManager.lock_key cwd (OsPath.join cwd p) = CacheManager.lock_key cwd p) /\
  CacheManager.lock_key cwd (CacheManager.lock_key cwd p)
  = CacheManager.lock_key cwd p.
Proof.
  intros Hcwd. split_and!.
  - apply get_repo_dir_injective.
  - now apply get_repo_dir_join.
  - now apply lock_key_join.
  - now apply lock_key_idempotent.
Qed.

Lemma lock_keys_witness :
  CacheManager.get_repo_dir "/srv" (OsPath.join "/srv" "repos")
    (rid_of "acme" "widgets")
  = CacheManager.get_repo_dir "/srv" "repos" (rid_of "acme" "widgets").
Proof.
  apply (lock_keys "/srv" "repos" "acme" "widgets" "acme" "gadgets"
           (rid_of "acme" "widgets") "repos/acme__widgets.git");
    reflexivity.
Defined.

End Paths.


(* ===================================================================== *)
(** * Part III: further properties of the code                            *)
(* ===================================================================== *)

(** ** Identifiers and directory names *)

Section MoreCodec.
Import Utils MoreUtils.

Lemma startswith_prefix_app (p x : string) : startswith p (p ++ x) = true.
Proof. apply startswith_strip. rewrite strip_prefix_app. eauto. Qed.

Lemma decode_Ok_shape (repo_rid owner repo : string) :
  repo_rid_to_owner_repo repo_rid = Ok (owner, repo) ->
  repo_rid = rid_prefix ++ owner ++ String "/" repo /\
  has_char "/" owner = false.
Proof.
  rewrite repo_rid_to_owner_repo_cuts.
  destruct (strip_prefix rid_prefix repo_rid) as [remainder|] eqn:E;
    [| discriminate].
  apply strip_prefix_Some in E as ->.
  destruct (split_once "/" remainder) as [[o r]|] eqn:S; [| discriminate].
  intros [= <- <-].
  apply split_once_char_Some in S as [-> Ho]. auto.
Qed.

(** X1. An identifier that decodes is the encoding of what it decodes
    to: encoding the owner and the repository that
    [repo_rid_to_owner_repo] returns gives the identifier back. *)
Theorem decoded_identifier_reencodes `{Runtime} (repo_rid owner repo : string) :
  repo_rid_to_owner_repo repo_rid = Ok (owner, repo) ->
  owner_repo_to_repo_rid (JStr owner) (JStr repo) = repo_rid.
Proof.
  intros Hd. apply decode_Ok_shape in Hd as [-> _]. reflexivity.
Qed.

Lemma decoded_identifier_reencodes_witness :
  @owner_repo_to_repo_rid demo_runtime (JStr "acme") (JStr "widgets/tools")
  = "orn:github.repo:acme/widgets/tools".
Proof.
  apply (@decoded_identifier_reencodes demo_runtime
           "orn:github.repo:acme/widgets/tools" "acme" "widgets/tools").
  reflexivity.
Defined.

(** X2. Two pairs whose owners hold no ["/"] have the same identifier
    only when they are the same pair. *)
Theorem encoding_is_injective `{Runtime} (o1 r1 o2 r2 : string) :
  has_char "/" o1 = false -> has_char "/" o2 = false ->
  owner_repo_to_repo_rid (JStr o1) (JStr r1)
  = owner_repo_to_repo_rid (JStr o2) (JStr r2) ->
  o1 = o2 /\ r1 = r2.
Proof.
  intros H1 H2 E. rewrite !owner_repo_to_repo_rid_str in E.
  assert (strip_prefix rid_prefix (rid_prefix ++ o1 ++ "/" ++ r1)
          = Some (o2 ++ "/" ++ r2)) as S
    by (rewrite E; apply strip_prefix_app).
  rewrite strip_prefix_app in S. injection S as S.
  pose proof (split_once_char_app "/" o1 r1 H1) as S1.
  pose proof (split_once_char_app "/" o2 r2 H2) as S2.
  change (o1 ++ "/" ++ r1) with (o1 ++ String "/" r1) in S.
  change (o2 ++ "/" ++ r2) with (o2 ++ String "/" r2) in S.
  rewrite S in S1. rewrite S1 in S2. now injection S2.
Qed.

Lemma encoding_is_injective_witness :
  "acme" = "acme" /\ "widgets" = "widgets".
Proof.
  apply (@encoding_is_injective demo_runtime "acme" "widgets" "acme" "widgets");
    reflexivity.
Defined.

Lemma endswith_app (suffix a : string) : endswith suffix (a ++ suffix) = true.
Proof.
  induction a as [|x a IH].
  - change ("" ++ suffix) with suffix.
    destruct suffix; cbn [endswith]; now rewrite String.eqb_refl.
  - change (String x a ++ suffix) with (String x (a ++ suffix)).
    cbn [endswith]. rewrite IH. apply orb_true_r.
Qed.

(** X3. [repo_rid_to_dirname] fails exactly on an identifier without
    the prefix; what it returns otherwise is one path component: it
    holds no ["/"], is not empty, ["."] or [".."], and ends in
    [".git"]. *)
Theorem dirname_is_one_component (repo_rid : string) :
  (startswith rid_prefix repo_rid = false ->
   repo_rid_to_dirname repo_rid = Raise (invalid_rid repo_rid)) /\
  (startswith rid_prefix repo_rid = true ->
   exists d, repo_rid_to_dirname repo_rid = Ok d /\
             plain_name d /\ endswith ".git" d = true).
Proof.
  split.
  - intros Hp. unfold repo_rid_to_dirname. now rewrite Hp.
  - intros Hp. apply startswith_strip in Hp as [x Hx].
    apply strip_prefix_Some in Hx as ->.
    rewrite repo_rid_to_dirname_prefix. eexists. split; [reflexivity |].
    split; [apply dirname_plain | apply endswith_app].
Qed.

Lemma dirname_is_one_component_witness :
  exists d, repo_rid_to_dirname "orn:github.repo:acme/widgets" = Ok d /\
            plain_name d /\ endswith ".git" d = true.
Proof.
  apply (dirname_is_one_component "orn:github.repo:acme/widgets").
  reflexivity.
Defined.

End MoreCodec.

(** ** Summaries *)

Section Summaries.
Import Utils Summary.
Context `{Runtime}.

Lemma summary_names (repo_rid : string) :
  exists names,
    match repo_rid_to_owner_repo repo_rid with
    | Ok p => Ok p
    | Raise (ValueError _) => Ok ("unknown", "unknown")
    | Raise e => Raise e
    end = Ok names /\
    (forall p, repo_rid_to_owner_repo repo_rid = Ok p -> names = p) /\
    ((exists e, repo_rid_to_owner_repo repo_rid = Raise e) ->
     names = ("unknown", "unknown")).
Proof.
  rewrite repo_rid_to_owner_repo_cuts.
  destruct (strip_prefix rid_prefix repo_rid) as [remainder|].
  - destruct (split_once "/" remainder) as [[o r]|].
    + exists (o, r). split_and!; [reflexivity | congruence |].
      intros [e He]. discriminate.
    + exists ("unknown", "unknown"). split_and!; [reflexivity | discriminate | auto].
  - exists ("unknown", "unknown"). split_and!; [reflexivity | discriminate | auto].
Qed.

(** X4. [summarize_event] raises in two cases only: the event type is
    not a string, which gives [AttributeError], or the event is a push
    whose commit SHA counts as true and is neither a string nor a list.
    In every other case it returns a summary, also for an identifier
    that cannot be decoded. *)
Theorem summary_raises_only_on_ill_typed
    (event_type_ : json) (repo_rid : string) (commit_sha_ : json)
    (additional_info : option dict) :
  match summarize_event event_type_ repo_rid commit_sha_ additional_info with
  | Ok _ =>
      exists s, event_type_ = JStr s /\
        (s = "push" -> truthy commit_sha_ = true -> sliceable commit_sha_ = true)
  | Raise e =>
      (e = AttributeError /\ forall s, event_type_ <> JStr s) \/
      (event_type_ = JStr "push" /\
       truthy commit_sha_ = true /\ sliceable commit_sha_ = false)
  end.
Proof.
  unfold summarize_event.
  destruct (summary_names repo_rid) as (names & -> & _).
  cbn [mbind res_bind Py.bind].
  destruct event_type_ as [| b | z | s | l | o];
    try (cbn [eq_str]; left; split; [reflexivity | discriminate]).
  cbn [eq_str].
  destruct (String.eqb_spec s "push") as [->|Hpush].
  - destruct (truthy commit_sha_) eqn:Ht.
    + destruct commit_sha_; cbn [slice7 mbind res_bind Py.bind];
        try (right; split_and!; reflexivity);
        exists "push"; auto.
    + exists "push". split; [reflexivity |]. discriminate.
  - destruct (String.eqb s "pull_request");
      [exists s; split; [reflexivity | contradiction] |].
    destruct (String.eqb s "issues");
      [exists s; split; [reflexivity | contradiction] |].
    destruct (String.eqb s "release");
      exists s; (split; [reflexivity | contradiction]).
Qed.

(** X5. The summary of a push with a commit SHA names the owner and
    the repository decoded from the identifier and at most the first
    seven characters of the SHA; an identifier that cannot be decoded
    gives ["unknown/unknown"] in their place, not an error. *)
Theorem push_summary_text
    (repo_rid sha : string) (additional_info : option dict) :
  sha <> "" ->
  (forall owner repo,
     repo_rid_to_owner_repo repo_rid = Ok (owner, repo) ->
     summarize_event (JStr "push") repo_rid (JStr sha) additional_info
     = Ok ("Push to " ++ owner ++ "/" ++ repo ++ ": " ++ take 7 sha)) /\
  ((exists e, repo_rid_to_owner_repo repo_rid = Raise e) ->
   summarize_event (JStr "push") repo_rid (JStr sha) additional_info
   = Ok ("Push to unknown/unknown: " ++ take 7 sha)) /\
  String.length (take 7 sha) <= 7.
Proof.
  intros Hsha.
  assert (truthy (JStr sha) = true) as Ht
    by (simpl; now rewrite (eqb_false_of_neq sha "")).
  split_and!.
  - intros owner repo Hd. unfold summarize_event.
    destruct (summary_names repo_rid) as (names & -> & Hn & _).
    rewrite (Hn _ Hd). cbn [mbind res_bind Py.bind eq_str].
    rewrite String.eqb_refl, Ht.
    cbn [slice7 mbind res_bind Py.bind format fst snd].
    f_equal. f_equal. now rewrite !append_assoc.
  - intros He. unfold summarize_event.
    destruct (summary_names repo_rid) as (names & -> & _ & Hn).
    rewrite (Hn He). cbn [mbind res_bind Py.bind eq_str].
    rewrite String.eqb_refl, Ht. reflexivity.
  - clear. generalize 7. intros n. revert sha.
    induction n as [|n IH]; intros [|a s]; simpl; try lia.
    specialize (IH s). lia.
Qed.

End Summaries.

Lemma push_summary_text_witness :
  @Summary.summarize_event demo_runtime (JStr "push")
    "orn:github.repo:acme/widgets" (JStr "abc1234def0") None
  = Ok "Push to acme/widgets: abc1234".
Proof.
  refine (proj1 (@push_summary_text demo_runtime
                   "orn:github.repo:acme/widgets" "abc1234def0" None _)
                 "acme" "widgets" _); [discriminate | reflexivity].
Defined.

(** ** The other helpers of utils.py *)

Section MoreUtilities.
Import Utils MoreUtils.

Lemma startswith_sep_app (x b : string) :
  startswith "/" x = true -> startswith "/" (x ++ b) = true.
Proof.
  destruct x as [|a x]; [discriminate |].
  change (String a x ++ b) with (String a (x ++ b)).
  rewrite !startswith_cons. cbn [startswith]. auto.
Qed.

Lemma startswith_sep_app_relative (x b : string) :
  startswith "/" x = false -> startswith "/" b = false ->
  startswith "/" (x ++ b) = false.
Proof.
  destruct x as [|a x]; [auto |]. intros Hx _.
  now apply startswith_relative_app.
Qed.

(** X6. [get_repo_dir_from_rid] fails exactly on an identifier without
    the prefix.  It keeps the slashes of the identifier: what follows
    the prefix, with [".git"] appended, is put under the base directory
    as it is, and when it starts with ["/"] the base directory is
    dropped and the result is that absolute path. *)
Theorem repo_dir_from_rid_cases (base_path repo_rid : string) :
  (startswith rid_prefix repo_rid = false ->
   get_repo_dir_from_rid base_path repo_rid = Raise (invalid_rid repo_rid)) /\
  (forall x, repo_rid = rid_prefix ++ x ->
     (startswith "/" x = true ->
      get_repo_dir_from_rid base_path repo_rid = Ok (x ++ ".git")) /\
     (startswith "/" x = false -> base_path <> "" ->
      exists c, (base_path = c \/ base_path = c ++ "/") /\
        get_repo_dir_from_rid base_path repo_rid
        = Ok (c ++ "/" ++ x ++ ".git"))).
Proof.
  split.
  - intros Hp. unfold get_repo_dir_from_rid. now rewrite Hp.
  - intros x ->.
    assert (get_repo_dir_from_rid base_path (rid_prefix ++ x)
            = Ok (OsPath.join base_path (x ++ ".git"))) as ->.
    { unfold get_repo_dir_from_rid. rewrite startswith_prefix_app.
      cbn [negb].
      now rewrite (owner_repo_part_strip _ x (strip_prefix_app _ _)). }
    split.
    + intros Hx. unfold OsPath.join.
      now rewrite (startswith_sep_app x ".git" Hx).
    + intros Hx Hb. destruct (join_under base_path Hb) as (c & Hc & Hj).
      exists c. split; [exact Hc |].
      rewrite Hj; [reflexivity |].
      now apply startswith_sep_app_relative.
Qed.

Lemma take_app_length (a b : string) : take (String.length a) (a ++ b) = a.
Proof.
  induction a as [|x a IH]; [now destruct b |].
  change (String x a ++ b) with (String x (a ++ b)).
  cbn [String.length take]. now rewrite IH.
Qed.

Lemma drop_last_app (a b : string) :
  drop_last (String.length b) (a ++ b) = a.
Proof.
  unfold drop_last. rewrite string_length_app.
  replace (String.length a + String.length b - String.length b)
    with (String.length a) by lia.
  apply take_app_length.
Qed.

Lemma rstrip_free (c : ascii) (s : string) :
  has_char c s = false -> rstrip c s = s.
Proof.
  induction s as [|a s IH]; [reflexivity |].
  cbn [has_char rstrip]. intros Hc.
  apply orb_false_elim in Hc as [Ha Hs].
  rewrite (IH Hs), Ha. now rewrite andb_false_r.
Qed.

Lemma rstrip_app (c : ascii) (a b : string) :
  rstrip c b <> "" -> rstrip c (a ++ b) = a ++ rstrip c b.
Proof.
  intros Hb. induction a as [|x a IH]; [reflexivity |].
  change (String x a ++ b) with (String x (a ++ b)).
  cbn [rstrip]. rewrite IH.
  replace (String.eqb (a ++ rstrip c b) "") with false; [reflexivity |].
  symmetry. apply eqb_false_of_neq.
  destruct a; [exact Hb | discriminate].
Qed.

Lemma has_char_eqb (c : ascii) (suffix s : string) :
  has_char c suffix = false -> has_char c s = true ->
  String.eqb suffix s = false.
Proof.
  intros Hs Ht. apply eqb_false_of_neq. intros ->. congruence.
Qed.

Lemma endswith_after_sep (c : ascii) (suffix a b : string) :
  has_char c suffix = false ->
  endswith suffix (a ++ String c b) = endswith suffix (String c b).
Proof.
  intros Hs. induction a as [|x a IH]; [reflexivity |].
  change (String x a ++ String c b) with (String x (a ++ String c b)).
  cbn [endswith]. rewrite IH.
  rewrite (has_char_eqb c suffix (String x (a ++ String c b)) Hs).
  - rewrite (has_char_eqb c suffix (String c b) Hs).
    + cbn [endswith orb].
      now rewrite (has_char_eqb c suffix (String c b) Hs)
        by (cbn [has_char]; now rewrite Ascii.eqb_refl).
    + cbn [has_char]. now rewrite Ascii.eqb_refl.
  - cbn [has_char]. rewrite has_char_sep. apply orb_true_r.
Qed.

Lemma endswith_sep_tail (c : ascii) (suffix b : string) :
  has_char c suffix = false ->
  endswith suffix (String c b) = endswith suffix b.
Proof.
  intros Hs. cbn [endswith].
  rewrite (has_char_eqb c suffix (String c b) Hs); [reflexivity |].
  cbn [has_char]. now rewrite Ascii.eqb_refl.
Qed.

End MoreUtilities.

Section UrlsAndReferences.
Import Utils MoreUtils.

Lemma split_repo_path (owner repo : string) :
  has_char "/" owner = false -> has_char "/" repo = false ->
  split "/" ("/" ++ owner ++ "/" ++ repo) = [""; owner; repo].
Proof.
  intros Ho Hr.
  change ("/" ++ owner ++ "/" ++ repo)
    with ("" ++ String "/" (owner ++ String "/" repo)).
  rewrite !split_app_sep.
  now rewrite (split_no_sep "/" owner Ho), (split_no_sep "/" repo Hr).
Qed.

Lemma repo_path_stripped (owner repo : string) (dot_git : bool) :
  repo <> "" -> has_char "/" repo = false ->
  (dot_git = false -> endswith ".git" repo = false) ->
  let path := rstrip "/" (repo_path owner repo dot_git) in
  (if endswith ".git" path then drop_last 4 path else path)
  = "/" ++ owner ++ "/" ++ repo.
Proof.
  intros Hne Hr Hg. cbv zeta.
  set (tail := if dot_git then ".git" else "").
  set (front := String "/" owner).
  assert (has_char "/" (repo ++ tail) = false) as Hrt
    by (rewrite has_char_app, Hr; now destruct dot_git).
  assert (rstrip "/" (repo_path owner repo dot_git)
          = front ++ String "/" (repo ++ tail)) as ->.
  { change (repo_path owner repo dot_git)
      with (front ++ ("/" ++ (repo ++ tail))).
    rewrite <- append_assoc.
    rewrite rstrip_app; rewrite (rstrip_free _ _ Hrt);
      [now rewrite append_assoc |].
    destruct repo; [contradiction | discriminate]. }
  rewrite endswith_after_sep, endswith_sep_tail by reflexivity.
  change ("/" ++ owner ++ "/" ++ repo) with (front ++ String "/" repo).
  destruct dot_git; subst tail.
  - rewrite endswith_app.
    assert (front ++ String "/" (repo ++ ".git")
            = (front ++ String "/" repo) ++ ".git") as ->
      by now rewrite append_assoc.
    apply (drop_last_app (front ++ String "/" repo) ".git").
  - now rewrite append_nil_r, (Hg eq_refl).
Qed.

(** X7. [get_repo_rid_from_url] reads the identifier of a repository off
    its URL: when the host ends in ["github.com"] and the path is
    ["/owner/repo"] or ["/owner/repo.git"], with neither name empty or
    holding a ["/"], the result is the identifier that
    [owner_repo_to_repo_rid] gives for the two names. *)
Theorem url_names_repository `{Runtime}
    (urlparse : string -> res ParseResult)
    (repo_url host owner repo : string) (dot_git : bool) :
  urlparse repo_url
  = Ok {| netloc := host; url_path := repo_path owner repo dot_git |} ->
  endswith "github.com" host = true ->
  owner <> "" -> has_char "/" owner = false ->
  repo <> "" -> has_char "/" repo = false ->
  (dot_git = false -> endswith ".git" repo = false) ->
  get_repo_rid_from_url urlparse repo_url
  = Ok (owner_repo_to_repo_rid (JStr owner) (JStr repo)).
Proof.
  intros Hp Hh Ho Hos Hr Hrs Hg. unfold get_repo_rid_from_url.
  rewrite Hp. cbn [mbind res_bind Py.bind netloc url_path].
  rewrite Hh. cbn [negb].
  rewrite (repo_path_stripped owner repo dot_git Hr Hrs Hg).
  rewrite (split_repo_path owner repo Hos Hrs).
  rewrite filter_cons_False by (intros Hf; now apply Hf).
  rewrite filter_cons_True by exact Ho.
  rewrite filter_cons_True by exact Hr.
  reflexivity.
Qed.

Lemma url_names_repository_witness :
  @get_repo_rid_from_url demo_runtime parse_plain_url
    "https://github.com/acme/widgets.git"
  = Ok "orn:github.repo:acme/widgets".
Proof.
  apply (@url_names_repository demo_runtime parse_plain_url
           "https://github.com/acme/widgets.git" "github.com"
           "acme" "widgets" true);
    try reflexivity; discriminate.
Defined.

Lemma ref_match_run (body : string) :
  body <> "" -> all_chars ref_char body = true ->
  ref_match body = true /\ ref_match (body ++ newline) = true.
Proof.
  induction body as [|c body IH]; [contradiction |].
  intros _ Hb. cbn [all_chars] in Hb.
  apply andb_true_iff in Hb as [Hc Hb].
  change (String c body ++ newline) with (String c (body ++ newline)).
  cbn [ref_match]. rewrite Hc. cbn [andb].
  destruct body as [|c' body'].
  - change ("" ++ newline) with newline.
    now rewrite !String.eqb_refl, !orb_true_r.
  - destruct IH as [-> ->]; [discriminate | exact Hb | auto].
Qed.

Lemma ref_match_shape (s : string) :
  ref_match s = true <-> reference_shape s.
Proof.
  split.
  - induction s as [|c rest IH]; [discriminate |].
    cbn [ref_match]. intros Hm.
    apply andb_true_iff in Hm as [Hc Hm].
    apply orb_true_iff in Hm as [Hm | Hm];
      [apply orb_true_iff in Hm as [Hm | Hm] |].
    + destruct (IH Hm) as (body & _ & Hb & Hs).
      exists (String c body). split; [discriminate |].
      split; [cbn [all_chars]; now rewrite Hc, Hb |].
      destruct Hs as [-> | ->]; [now left | now right].
    + apply String.eqb_eq in Hm as ->.
      exists (String c ""). split; [discriminate |].
      split; [cbn [all_chars]; now rewrite Hc | now left].
    + apply String.eqb_eq in Hm as ->.
      exists (String c ""). split; [discriminate |].
      split; [cbn [all_chars]; now rewrite Hc | now right].
  - intros (body & Hne & Hb & Hs).
    destruct (ref_match_run body Hne Hb) as [H1 H2].
    now destruct Hs as [-> | ->].
Qed.

(** X8. [sanitize_git_reference] returns the reference unchanged or
    raises [ValueError].  It accepts exactly the non-empty runs of
    letters, digits, [-], [_], [.] and [/], and such a run followed by
    one newline. *)
Theorem accepted_references (reference : string) :
  match sanitize_git_reference reference with
  | Ok r => r = reference /\ reference_shape reference
  | Raise e =>
      e = ValueError ("Invalid Git reference format: " ++ reference) /\
      ~ reference_shape reference
  end.
Proof.
  unfold sanitize_git_reference.
  destruct (ref_match reference) eqn:Hm; cbn [negb].
  - split; [reflexivity | now apply ref_match_shape].
  - split; [reflexivity |]. intros Hs.
    apply ref_match_shape in Hs. congruence.
Qed.

(** X9. The result of [format_unix_path] holds no backslash; the
    function changes nothing in a path without one, and applying it a
    second time changes nothing. *)
Theorem unix_path_has_no_backslash (path : string) :
  has_char backslash (format_unix_path path) = false /\
  (has_char backslash path = false -> format_unix_path path = path) /\
  format_unix_path (format_unix_path path) = format_unix_path path.
Proof.
  assert (has_char backslash (format_unix_path path) = false) as Hn
    by (apply replace_removes; reflexivity).
  split_and!; [exact Hn | apply replace_free |].
  now apply replace_free.
Qed.

End UrlsAndReferences.

(** ** The index database, call by call *)

Section Tables.
Import IndexDb.

Lemma add_repository_eq (now : string) (d : db) (repo_rid : string)
    (repo_url_ : json) :
  add_repository now d repo_rid repo_url_ =
  match bind_param repo_url_ ≫= not_null with
  | Raise e => (Raise e, d)
  | Ok u =>
      (Ok tt, {| repositories := upserted now repo_rid u (repositories d);
                 events := events d |})
  end.
Proof.
  unfold add_repository, select_repository, update_repository,
    insert_repository, upserted, connect.
  cbn [pending committed].
  case_bool_decide as Hk.
  - destruct Hk as [row Hrow]. rewrite Hrow.
    destruct (bind_param repo_url_) as [u|e]; [| reflexivity].
    cbn [mbind res_bind Py.bind]. now destruct u.
  - apply eq_None_not_Some in Hk. rewrite Hk.
    destruct (bind_param repo_url_) as [u|e]; [| reflexivity].
    cbn [mbind res_bind Py.bind]. now destruct u.
Qed.

Lemma add_event_metadata_eq (now : string) (d : db)
    (event_rid_ repo_rid : string) (event_type_ timestamp_ commit_sha_ : json)
    (summary_ bundle_rid_ : string) :
  add_event_metadata now d event_rid_ repo_rid event_type_ timestamp_
    commit_sha_ summary_ bundle_rid_ =
  match event_cells event_type_ timestamp_ commit_sha_ with
  | Raise e => (Raise e, d)
  | Ok (ty, ts, sha) =>
      (Ok tt,
       {| repositories := ensured now repo_rid (repositories d);
          events :=
            replaced event_rid_
              {| event_rid := event_rid_; ev_repo_rid := repo_rid;
                 event_type := ty; timestamp := ts; commit_sha := sha;
                 summary := summary_; bundle_rid := bundle_rid_ |}
              (events d) |})
  end.
Proof.
  unfold add_event_metadata, insert_or_replace_event, event_cells, ensured,
    replaced, connect.
  cbn [pending committed].
  destruct (bind_param event_type_) as [ty|e]; [| reflexivity].
  destruct (bind_param timestamp_) as [ts|e]; [| reflexivity].
  destruct (bind_param commit_sha_) as [sha|e]; [| reflexivity].
  cbn [mbind res_bind Py.bind].
  destruct (not_null ty) as [ty'|e]; [| reflexivity].
  destruct (not_null ts) as [ts'|e]; [| reflexivity].
  cbn [mbind res_bind Py.bind].
  unfold select_repository, insert_repository, with_pending.
  cbn [pending committed repositories events].
  case_bool_decide as Hk; cbn [negb].
  - destruct Hk as [row Hrow]. now rewrite Hrow.
  - apply eq_None_not_Some in Hk. now rewrite Hk.
Qed.

Lemma upserted_lookup (now repo_rid : string) (u : cell)
    (m : gmap string repo_row) (k : string) :
  upserted now repo_rid u m !! k =
  if decide (repo_rid = k) then
    Some {| repo_url := u;
            first_indexed := match m !! repo_rid with
                             | Some row => first_indexed row
                             | None => now
                             end;
            last_updated := now |}
  else m !! k.
Proof. unfold upserted. apply lookup_insert. Qed.

Lemma ensured_lookup (now repo_rid : string) (m : gmap string repo_row)
    (k : string) (row : repo_row) :
  m !! k = Some row -> ensured now repo_rid m !! k = Some row.
Proof.
  intros Hk. unfold ensured.
  destruct (m !! repo_rid) eqn:Hr; [exact Hk |].
  rewrite lookup_insert_ne; [exact Hk | congruence].
Qed.

Lemma ensured_present (now repo_rid : string) (m : gmap string repo_row) :
  is_Some (m !! repo_rid) -> ensured now repo_rid m = m.
Proof. intros [row Hr]. unfold ensured. now rewrite Hr. Qed.

End Tables.

Section TableProperties.
Import IndexDb Queries.

(** X10. [add_repository] is an upsert.  When a call with a URL that
    is a string has succeeded, the identifier has one row, which holds
    the URL and the time of the call as [last_updated]; the row keeps
    the [first_indexed] it had, if there was one.  No other repository
    row and no event row has changed. *)
Theorem add_repository_upserts (now : string) (d d' : db)
    (repo_rid repo_url_ : string) :
  add_repository now d repo_rid (JStr repo_url_) = (Ok tt, d') ->
  exists row,
    repositories d' !! repo_rid = Some row /\
    repo_url row = CText repo_url_ /\
    last_updated row = now /\
    first_indexed row = match repositories d !! repo_rid with
                        | Some old => first_indexed old
                        | None => now
                        end /\
    (forall k, k <> repo_rid ->
               repositories d' !! k = repositories d !! k) /\
    events d' = events d.
Proof.
  rewrite add_repository_eq.
  cbn [bind_param not_null mbind res_bind Py.bind].
  intros [= <-]. cbn [events repositories].
  eexists. rewrite upserted_lookup.
  destruct (decide (repo_rid = repo_rid)); [| congruence].
  split_and!; try reflexivity.
  intros k Hk. rewrite upserted_lookup.
  case_decide; [congruence | reflexivity].
Qed.

Lemma add_repository_upserts_witness :
  exists row,
    repositories
      (snd (add_repository "t2"
              (snd (add_repository "t1" initialize_db
                      "orn:github.repo:acme/widgets"
                      (JStr "https://github.com/acme/widgets")))
              "orn:github.repo:acme/widgets"
              (JStr "https://github.com/acme/widgets.git")))
      !! "orn:github.repo:acme/widgets" = Some row /\
    repo_url row = CText "https://github.com/acme/widgets.git" /\
    last_updated row = "t2" /\
    first_indexed row = "t1".
Proof.
  destruct (add_repository_upserts "t2"
              (snd (add_repository "t1" initialize_db
                      "orn:github.repo:acme/widgets"
                      (JStr "https://github.com/acme/widgets")))
              (snd (add_repository "t2"
                      (snd (add_repository "t1" initialize_db
                              "orn:github.repo:acme/widgets"
                              (JStr "https://github.com/acme/widgets")))
                      "orn:github.repo:acme/widgets"
                      (JStr "https://github.com/acme/widgets.git")))
              "orn:github.repo:acme/widgets"
              "https://github.com/acme/widgets.git" eq_refl)
    as (row & Hrow & Hurl & Hlast & Hfirst & _).
  exists row. now split_and!.
Defined.

Lemma NoDup_map_filter {A B : Type} (f : A -> B) (P : A -> Prop)
    `{!forall x, Decision (P x)} (l : list A) :
  NoDup (map f l) -> NoDup (map f (filter P l)).
Proof.
  induction l as [|a l IH]; [auto |].
  cbn [map]. intros Hn. apply NoDup_cons in Hn as [Ha Hn].
  rewrite filter_cons. case_decide; [| auto].
  cbn [map]. apply NoDup_cons. split; [| auto].
  intros Hin. apply Ha.
  apply list_elem_of_In, in_map_iff.
  apply list_elem_of_In, in_map_iff in Hin as (x & Hx & Hin).
  exists x. split; [exact Hx |].
  apply list_elem_of_In. apply list_elem_of_In in Hin.
  now apply list_elem_of_filter in Hin as [_ Hin].
Qed.

Lemma unique_replaced (ev : string) (row : event_row)
    (rows : list event_row) :
  event_rid row = ev ->
  NoDup (map event_rid rows) ->
  NoDup (map event_rid (replaced ev row rows)).
Proof.
  intros Hrow Hn. unfold replaced. rewrite map_app. cbn [map].
  apply NoDup_app. split_and!.
  - now apply NoDup_map_filter.
  - intros x Hx Hin. apply list_elem_of_singleton in Hin. subst x.
    apply list_elem_of_In, in_map_iff in Hx as (r & Hr & Hin).
    apply list_elem_of_In, list_elem_of_filter in Hin as [Hne _].
    congruence.
  - apply NoDup_singleton.
Qed.

Lemma unique_events_run_call (d : db) (c : db_call) :
  unique_events d -> unique_events (run_call d c).
Proof.
  unfold unique_events. intros Hd. destruct c; cbn [run_call].
  - rewrite add_repository_eq.
    now destruct (bind_param repo_url_ ≫= not_null).
  - rewrite add_event_metadata_eq.
    destruct (event_cells event_type_ timestamp_ commit_sha_)
      as [[[ty ts] sha]|e]; [| exact Hd].
    cbn [snd events]. now apply unique_replaced.
  - exact Hd.
  - cbn [prune_old_data events]. now apply NoDup_map_filter.
Qed.

(** X11. The table [events] never holds two rows with the same event
    identifier, whatever calls of [add_repository],
    [add_event_metadata], [update_repository_latest_commit] and
    [prune_old_data] have been made on a new database. *)
Theorem event_identifiers_are_unique (cs : list db_call) :
  unique_events (run_calls initialize_db cs).
Proof.
  assert (forall d, unique_events d -> unique_events (run_calls d cs)) as Hrun.
  { induction cs as [|c cs IH]; intros d Hd; [exact Hd |].
    apply IH. now apply unique_events_run_call. }
  apply Hrun. apply NoDup_nil_2.
Qed.

Lemma rows_of_event_replaced (ev ev' : string) (row : event_row)
    (rows : list event_row) :
  event_rid row = ev -> ev' <> ev ->
  filter (λ r, event_rid r = ev') (replaced ev row rows)
  = filter (λ r, event_rid r = ev') rows.
Proof.
  intros Hrow Hne. unfold replaced. rewrite filter_app.
  rewrite filter_cons_False by congruence.
  rewrite filter_nil, app_nil_r.
  induction rows as [|r rows IH]; [reflexivity |].
  rewrite !(filter_cons _ r).
  destruct (decide (event_rid r ≠ ev)) as [Hr|Hr].
  - rewrite (filter_cons _ r). case_decide; now rewrite IH.
  - apply dec_stable in Hr.
    destruct (decide (event_rid r = ev')); [congruence | exact IH].
Qed.

(** X12. [add_event_metadata] changes nothing that belongs to another
    event or to a repository that is already known: the rows stored
    under any other event identifier stay as they are, and every
    repository row that existed is still there unchanged, with its
    [last_updated] as before.  This holds whether the call succeeds or
    raises. *)
Theorem add_event_metadata_frame (now : string) (d : db)
    (event_rid_ repo_rid : string) (event_type_ timestamp_ commit_sha_ : json)
    (summary_ bundle_rid_ : string) :
  let d' := snd (add_event_metadata now d event_rid_ repo_rid event_type_
                   timestamp_ commit_sha_ summary_ bundle_rid_) in
  (forall other, other <> event_rid_ ->
     rows_of_event d' other = rows_of_event d other) /\
  (forall k row, repositories d !! k = Some row ->
                 repositories d' !! k = Some row).
Proof.
  cbv zeta. rewrite add_event_metadata_eq.
  destruct (event_cells event_type_ timestamp_ commit_sha_)
    as [[[ty ts] sha]|e]; [| now split].
  cbn [snd]. split.
  - intros other Hne. unfold rows_of_event. cbn [events].
    now apply rows_of_event_replaced.
  - intros k row Hk. cbn [repositories]. now apply ensured_lookup.
Qed.

Lemma ltb_empty (limit : string) :
  limit <> "" -> String.ltb "" limit = true.
Proof. now destruct limit. Qed.

Lemma compare_prefix (p a b : string) :
  String.compare (p ++ a) (p ++ b) = String.compare a b.
Proof.
  induction p as [|x p IH]; [reflexivity |].
  change (String x p ++ a) with (String x (p ++ a)).
  change (String x p ++ b) with (String x (p ++ b)).
  cbn [String.compare]. unfold Ascii.compare.
  now rewrite N.compare_refl, IH.
Qed.

Lemma ltb_same_day (day rest rest' : string) :
  String.ltb (day ++ String "T" rest) (day ++ String " " rest') = false.
Proof. unfold String.ltb. now rewrite compare_prefix. Qed.

(** X13. What [prune_old_data] deletes is settled by comparing texts,
    not times.  A row whose timestamp is the empty text, as every event
    stored without a commit has it, is deleted whatever the age limit.
    A row whose timestamp has a ["T"] where the cutoff, which starts
    the same, has its blank, as a timestamp of GitHub on the day of the
    cutoff has it, is kept whatever its time of day.  When the cutoff is
    NULL, nothing is deleted.  Repositories are never deleted, also not
    one that is left without events. *)
Theorem prune_compares_texts (cutoff : option string) (d : db) :
  let d' := prune_old_data (expired_before cutoff) d in
  (forall limit r,
     cutoff = Some limit -> limit <> "" ->
     timestamp r = CText "" -> r ∉ events d') /\
  (forall day rest rest' r,
     cutoff = Some (day ++ String " " rest') ->
     timestamp r = CText (day ++ String "T" rest) ->
     r ∈ events d -> r ∈ events d') /\
  (cutoff = None -> d' = d) /\
  repositories d' = repositories d.
Proof.
  cbv zeta. unfold prune_old_data. cbn [events repositories]. split_and!.
  - intros limit r -> Hl Ht Hin.
    apply list_elem_of_filter in Hin as [Hkeep _].
    rewrite Ht in Hkeep. cbn [expired_before] in Hkeep.
    rewrite (ltb_empty limit Hl) in Hkeep. discriminate.
  - intros day rest rest' r -> Ht Hin.
    apply list_elem_of_filter. split; [| exact Hin].
    rewrite Ht. cbn [expired_before]. apply ltb_same_day.
  - intros ->. destruct d as [m evs]. cbn [events repositories]. f_equal.
    induction evs as [|r evs IH]; [reflexivity |].
    rewrite filter_cons_True by reflexivity. now rewrite IH.
  - reflexivity.
Qed.

End TableProperties.

(** ** Processing an event, as a change of the database *)

Section Processing.
Import Utils IndexDb Queries Repository.
Context `{Runtime}.

Lemma store_written (kobj_rid : string) (payload : dict)
    (owner repo repo_url_ event_source : json) :
  let rid := owner_repo_to_repo_rid owner repo in
  exists (r : res outcome) (u : option cell) (row : option event_row),
    match r with
    | Ok o =>
        exists sha c x,
          o = Success kobj_rid rid sha /\ u = Some c /\ row = Some x /\
          event_rid x = kobj_rid /\ ev_repo_rid x = rid
    | Raise _ => row = None
    end /\
    forall now d,
      store now d kobj_rid payload owner repo repo_url_ event_source
      = (r, written now rid kobj_rid u row d).
Proof.
  cbv zeta. set (rid := owner_repo_to_repo_rid owner repo).
  destruct (bind_param repo_url_ ≫= not_null) as [u|e] eqn:Hu.
  2:{ exists (Raise e), None, None. split; [reflexivity |].
      intros now d. unfold store. fold rid.
      now rewrite add_repository_eq, Hu. }
  destruct (commit_fields payload) as [[[sha ts] msg]|e] eqn:Hc.
  2:{ exists (Raise e), (Some u), None. split; [reflexivity |].
      intros now d. unfold store. fold rid.
      now rewrite add_repository_eq, Hu, Hc. }
  set (ty := event_type_of payload event_source).
  set (ts' := if truthy sha then ts else JStr "").
  set (sha' := if truthy sha then sha else JNull).
  assert (forall now d,
            store now d kobj_rid payload owner repo repo_url_ event_source
            = match store_event now
                      {| repositories := upserted now rid u (repositories d);
                         events := events d |}
                      kobj_rid rid ty ts' sha' payload with
              | (Raise e, d2) => (Raise e, d2)
              | (Ok _, d2) => (Ok (Success kobj_rid rid sha), d2)
              end) as Hstore.
  { intros now d. unfold store. fold rid.
    rewrite add_repository_eq, Hu, Hc. fold ty.
    subst ts' sha'. now destruct (truthy sha). }
  destruct (Summary.summarize_event ty rid sha' (Some payload))
    as [text|e] eqn:Hs.
  2:{ exists (Raise e), (Some u), None. split; [reflexivity |].
      intros now d. rewrite Hstore. unfold store_event. now rewrite Hs. }
  destruct (event_cells ty ts' sha') as [[[cty cts] csha]|e] eqn:He.
  2:{ exists (Raise e), (Some u), None. split; [reflexivity |].
      intros now d. rewrite Hstore. unfold store_event.
      now rewrite Hs, add_event_metadata_eq, He. }
  exists (Ok (Success kobj_rid rid sha)), (Some u),
    (Some {| event_rid := kobj_rid; ev_repo_rid := rid;
             event_type := cty; timestamp := cts; commit_sha := csha;
             summary := text; bundle_rid := kobj_rid |}).
  split; [eexists _, _, _; split_and!; reflexivity |].
  intros now d. rewrite Hstore. unfold store_event.
  rewrite Hs, add_event_metadata_eq, He.
  cbn [repositories events written].
  rewrite ensured_present; [reflexivity |].
  rewrite upserted_lookup. case_decide; [eauto | congruence].
Qed.

Lemma process_written (kobj_rid : string) (payload : dict) :
  exists (out : outcome) (rid : string) (u : option cell)
         (row : option event_row),
    match out with
    | Success k' rid' _ =>
        k' = kobj_rid /\ rid' = rid /\
        exists c x, u = Some c /\ row = Some x /\
                    event_rid x = kobj_rid /\ ev_repo_rid x = rid
    | Skipped _ k' => k' = kobj_rid /\ u = None
    | Error _ k' => k' = kobj_rid /\ row = None
    end /\
    forall now d,
      process_github_event_bundle now d kobj_rid payload
      = (out, written now rid kobj_rid u row d).
Proof.
  destruct (extract payload) as [[owner repo url src | message] | e] eqn:Hx.
  - destruct (store_written kobj_rid payload owner repo url src)
      as (r & u & row & Hr & Hs).
    destruct r as [o|e].
    + destruct Hr as (sha & c & x & -> & -> & -> & Hk & Hrid).
      exists (Success kobj_rid (owner_repo_to_repo_rid owner repo) sha),
        (owner_repo_to_repo_rid owner repo), (Some c), (Some x).
      split; [split_and!; eauto 10 |].
      intros now d. unfold process_github_event_bundle.
      now rewrite Hx, Hs.
    + exists (Error e kobj_rid), (owner_repo_to_repo_rid owner repo), u, row.
      split; [now split |].
      intros now d. unfold process_github_event_bundle.
      now rewrite Hx, Hs.
  - exists (Skipped message kobj_rid), "", None, None.
    split; [now split |].
    intros now d. unfold process_github_event_bundle. now rewrite Hx.
  - exists (Error e kobj_rid), "", None, None.
    split; [now split |].
    intros now d. unfold process_github_event_bundle. now rewrite Hx.
Qed.

Lemma replaced_twice (k : string) (x : event_row) (rows : list event_row) :
  event_rid x = k -> replaced k x (replaced k x rows) = replaced k x rows.
Proof.
  intros Hx. unfold replaced. rewrite filter_app.
  rewrite (filter_cons_False _ x) by (intros Hne; now apply Hne).
  rewrite filter_nil, app_nil_r.
  now rewrite list_filter_filter_l by auto.
Qed.

(** X15. What the outcome of [process_github_event_bundle] says about
    the database it leaves.  After [success] the repository named in
    the outcome has a row and the event has exactly one row, which
    refers to that repository.  After [skipped] the database is as it
    was.  After [error] the table of events is as it was. *)
Theorem outcome_describes_database (now : string) (d : db)
    (kobj_rid : string) (payload : dict) :
  let d' := snd (process_github_event_bundle now d kobj_rid payload) in
  match fst (process_github_event_bundle now d kobj_rid payload) with
  | Success k repo_rid _ =>
      k = kobj_rid /\ is_Some (repositories d' !! repo_rid) /\
      exists row, rows_of_event d' kobj_rid = [row] /\
                  ev_repo_rid row = repo_rid
  | Skipped _ k => k = kobj_rid /\ d' = d
  | Error _ k => k = kobj_rid /\ events d' = events d
  end.
Proof.
  cbv zeta.
  destruct (process_written kobj_rid payload)
    as (out & rid & u & row & Hout & ->).
  cbn [fst snd]. destruct out as [k rid' sha | message k | e k].
  - destruct Hout as (-> & -> & c & x & -> & -> & Hk & Hrid).
    cbn [written repositories]. split_and!; [reflexivity | |].
    + rewrite upserted_lookup. case_decide; [eauto | congruence].
    + exists x. split; [| exact Hrid].
      unfold rows_of_event. cbn [events].
      now apply rows_after_replace.
  - destruct Hout as [-> ->]. now split.
  - destruct Hout as [-> ->]. split; [reflexivity |]. now destruct u.
Qed.

(** X16. Processing an event changes no row of another event, and it
    removes no repository: every repository row that existed is still
    there with the [first_indexed] it had.  This holds for every
    outcome. *)
Theorem processing_touches_one_event (now : string) (d : db)
    (kobj_rid : string) (payload : dict) :
  let d' := snd (process_github_event_bundle now d kobj_rid payload) in
  (forall other, other <> kobj_rid ->
     rows_of_event d' other = rows_of_event d other) /\
  (forall k row, repositories d !! k = Some row ->
     exists row', repositories d' !! k = Some row' /\
                  first_indexed row' = first_indexed row).
Proof.
  cbv zeta.
  destruct (process_written kobj_rid payload)
    as (out & rid & u & row & Hout & ->).
  cbn [snd].
  assert (forall x, u <> None -> row = Some x -> event_rid x = kobj_rid)
    as Hrow.
  { intros x Hu ->. destruct out as [k rid' sha | message k | e k].
    - destruct Hout as (_ & _ & c & x' & _ & [= <-] & Hk & _). exact Hk.
    - destruct Hout as [_ ->]. contradiction.
    - destruct Hout as [_ [=]]. }
  destruct u as [c|]; [| split; eauto].
  cbn [written]. split.
  - intros other Hne. unfold rows_of_event. cbn [events].
    destruct row as [x|]; [| reflexivity].
    apply rows_of_event_replaced; [| exact Hne].
    now apply Hrow.
  - intros k old Hk. cbn [repositories]. rewrite upserted_lookup.
    case_decide as Hrid; [| eauto].
    subst k. rewrite Hk. eauto.
Qed.

(** X17. When processing an event has not ended in an error, so that
    every connection it opened has been committed and closed,
    processing the same event a second time, at whatever time, gives
    the same outcome and leaves the table of events as the first call
    left it; in the table of repositories only [last_updated] can
    differ. *)
Theorem reprocessing_changes_nothing (now1 now2 : string) (d : db)
    (kobj_rid : string) (payload : dict) :
  status (fst (process_github_event_bundle now1 d kobj_rid payload))
  <> "error" ->
  let first := process_github_event_bundle now1 d kobj_rid payload in
  let second :=
    process_github_event_bundle now2 (snd first) kobj_rid payload in
  fst second = fst first /\
  events (snd second) = events (snd first) /\
  forall k,
    (λ row, (repo_url row, first_indexed row))
      <$> repositories (snd second) !! k
    = (λ row, (repo_url row, first_indexed row))
      <$> repositories (snd first) !! k.
Proof.
  intros _. cbv zeta.
  destruct (process_written kobj_rid payload)
    as (out & rid & u & row & Hout & Hp).
  rewrite !Hp. cbn [fst snd]. split; [reflexivity |].
  destruct u as [c|]; [| now split].
  cbn [written events repositories]. split.
  - destruct row as [x|]; [| reflexivity].
    apply replaced_twice.
    destruct out as [k rid' sha | message k | e k].
    + destruct Hout as (_ & _ & c' & x' & _ & [= <-] & Hk & _). exact Hk.
    + destruct Hout as [_ [=]].
    + destruct Hout as [_ [=]].
  - intros k. rewrite !upserted_lookup.
    case_decide as Hrid; [| reflexivity].
    destruct (decide (rid = rid)); [reflexivity | congruence].
Qed.

Lemma process_without_commit (now : string) (d : db) (kobj_rid : string)
    (payload : dict) :
  contains "head_commit" payload = false ->
  contains "event_source_type" payload = false ->
  status (fst (process_github_event_bundle now d kobj_rid payload))
  = "success" ->
  exists row,
    timestamp row = CText "" /\ event_rid row = kobj_rid /\
    events (snd (process_github_event_bundle now d kobj_rid payload))
    = replaced kobj_rid row (events d).
Proof.
  intros Hhead Hsrc. unfold process_github_event_bundle.
  destruct (extract payload) as [[owner repo url src | message] | e];
    try discriminate.
  unfold store. rewrite add_repository_eq.
  destruct (bind_param url ≫= not_null) as [u|e]; [| discriminate].
  assert (commit_fields payload = Ok (JNull, JStr "", JStr "")) as ->
    by (unfold commit_fields; now rewrite Hsrc, Hhead).
  cbn [truthy]. unfold store_event.
  destruct (Summary.summarize_event _ _ JNull (Some payload)) as [text|e];
    [| discriminate].
  rewrite add_event_metadata_eq. unfold event_cells.
  destruct (bind_param (event_type_of payload src)) as [ty|e];
    [| discriminate].
  cbn [bind_param mbind res_bind Py.bind].
  destruct (not_null ty) as [ty'|e]; [| discriminate].
  cbn [not_null mbind res_bind Py.bind fst snd events]. intros _.
  eexists. split_and!; [| | reflexivity]; reflexivity.
Qed.

(** X29. An event that is stored without a commit does not outlive the
    next pruning: when a payload without [head_commit] and without
    [event_source_type] has been ingested with success, the event has no
    row after [prune_old_data], whatever the age limit. *)
Theorem event_without_commit_is_pruned (now : string) (d : db)
    (kobj_rid : string) (payload : dict) (limit : string) :
  contains "head_commit" payload = false ->
  contains "event_source_type" payload = false ->
  limit <> "" ->
  status
    (fst (process_github_event_bundle now d kobj_rid payload))
  = "success" ->
  rows_of_event
    (prune_old_data (expired_before (Some limit))
       (snd (process_github_event_bundle now d kobj_rid payload)))
    kobj_rid
  = [].
Proof.
  intros Hhead Hsrc Hl Hok.
  destruct (process_without_commit now d kobj_rid payload Hhead Hsrc Hok)
    as (row & Htime & Hrid & He).
  unfold rows_of_event, prune_old_data. cbn [events].
  rewrite He. unfold replaced. clear He Hok.
  rewrite filter_app, (filter_cons_False _ row), filter_nil, app_nil_r.
  - induction (events d) as [|r evs IH]; [reflexivity |].
    rewrite (filter_cons _ r). case_decide as Hne; [| exact IH].
    rewrite (filter_cons _ r). case_decide; [| exact IH].
    rewrite (filter_cons _ r). case_decide; [contradiction | exact IH].
  - rewrite Htime. cbn [expired_before].
    rewrite (ltb_empty limit Hl). discriminate.
Qed.

End Processing.

(** ** Deliveries of the webhook *)

Section Webhooks.
Import Utils IndexDb Repository.
Context `{Runtime}.






End Webhooks.



Lemma reprocessing_changes_nothing_witness :
  let first :=
    @Repository.process_github_event_bundle demo_runtime "t1"
      IndexDb.initialize_db "ev1" push_payload in
  let second :=
    @Repository.process_github_event_bundle demo_runtime "t2"
      (snd first) "ev1" push_payload in
  fst second = fst first /\
  IndexDb.events (snd second) = IndexDb.events (snd first).
Proof.
  cbv zeta.
  destruct (@reprocessing_changes_nothing demo_runtime "t1" "t2"
              IndexDb.initialize_db "ev1" push_payload)
    as (Hout & Hevents & _); [vm_compute; discriminate |].
  now split.
Defined.

Lemma event_without_commit_is_pruned_witness :
  IndexDb.rows_of_event
    (IndexDb.prune_old_data
       (Queries.expired_before (Some "2024-02-01 00:00:00"))
       (snd (@Repository.process_github_event_bundle demo_runtime "t1"
               IndexDb.initialize_db "ev1"
               [("repository", acme_repository)])))
    "ev1"
  = [].
Proof.
  apply (@event_without_commit_is_pruned demo_runtime "t1"
           IndexDb.initialize_db "ev1" [("repository", acme_repository)]
           "2024-02-01 00:00:00");
    try reflexivity; discriminate.
Defined.

(** ** The handlers *)

Section MoreHandlers.
Import IndexDb Repository Handlers ServiceSetup.

Lemma cached_delivery_stops `{Runtime} (now : string) (n : node)
    (kobj : KnowledgeObject) (p : Bundle) (m : Manifest) :
  cache n !! text (rid kobj) = Some p ->
  k_manifest kobj = Some m ->
  sha256_hash (manifest p) = sha256_hash m ->
  deliver now n kobj = (STOP_CHAIN, Unchanged, n).
Proof.
  intros Hp Hm Hh. unfold deliver, handle_event_bundle.
  rewrite Hp. unfold hash_changed. rewrite Hm, Hh, String.eqb_refl.
  reflexivity.
Qed.

(** X20. An event that is delivered while no repository service is set
    is not stored, and it is not stored later either: the pipeline has
    cached its bundle, so once the service is set the same delivery is
    classified as unchanged and the handler stops without reading the
    payload. *)
Theorem early_delivery_is_lost `{Runtime} (now1 now2 : string) (n : node)
    (kobj : KnowledgeObject) (service : RepositoryService) :
  repository_service n = None ->
  is_Some (bundle kobj) ->
  let n1 := set_repository_service (snd (deliver now1 n kobj)) service in
  index n1 = index n /\
  deliver now2 n1 kobj = (STOP_CHAIN, Unchanged, n1).
Proof.
  intros Hsvc [b Hb]. cbv zeta.
  unfold bundle in Hb.
  destruct (k_manifest kobj) as [m|] eqn:Hm; [| discriminate].
  destruct (k_contents kobj) as [c|] eqn:Hc; [| discriminate].
  assert (snd (deliver now1 n kobj) = n /\
          (exists p, cache n !! text (rid kobj) = Some p /\
                     sha256_hash (manifest p) = sha256_hash m) \/
          snd (deliver now1 n kobj)
          = set_cache n (<[text (rid kobj) :=
                             {| manifest := m; contents := c |}]> (cache n)))
    as Hn1.
  { unfold deliver, handle_event_bundle. rewrite Hsvc.
    destruct (cache n !! text (rid kobj)) as [p|] eqn:Hp.
    - unfold hash_changed. rewrite Hm.
      destruct (String.eqb (sha256_hash (manifest p)) (sha256_hash m))
        eqn:Hh; cbn [is_update negb andb snd].
      + left. split; [reflexivity |]. exists p.
        split; [reflexivity | now apply String.eqb_eq].
      + right. cbn [normalized_event_type set_normalized rid].
        unfold bundle. cbn [k_manifest k_contents set_normalized].
        now rewrite Hm, Hc.
    - right. cbn [is_update andb snd normalized_event_type set_normalized rid].
      unfold bundle. cbn [k_manifest k_contents set_normalized].
      now rewrite Hm, Hc. }
  destruct Hn1 as [(-> & p & Hp & Hh) | ->].
  - split; [reflexivity |].
    now apply (cached_delivery_stops now2 _ kobj p m).
  - split; [reflexivity |].
    apply (cached_delivery_stops now2 _ kobj
             {| manifest := m; contents := c |} m);
      [| exact Hm | reflexivity].
    cbn [set_repository_service set_cache cache]. apply lookup_insert_eq.
Qed.

(** X21. [handle_network_discovery] acts only for a peer that is new,
    comes from outside, has a bundle and a profile that is read and
    lists [GitHubEvent].  What it then does is addressed to that peer:
    the edge it proposes goes from this node to the peer, the
    identifiers and bundles it asks for are the peer's, and every bundle
    it hands to the pipeline is one the peer returned. *)
Theorem discovery_acts_on_sensors_only (net : Network) (identity : RID)
    (kobj : KnowledgeObject) (a : action) :
  a ∈ snd (handle_network_discovery net identity kobj) ->
  (normalized_event_type kobj = Some NEW /\ source kobj = External /\
   exists b profile,
     bundle kobj = Some b /\
     validate_contents net (contents b) = Ok profile /\
     GitHubEvent ∈ provides_event profile) /\
  match a with
  | ProposeEdge source_ target edge_type rid_types =>
      source_ = identity /\ target = rid kobj /\ edge_type = WEBHOOK /\
      rid_types = [GitHubEvent] /\ rtype (rid kobj) = KoiNetNode
  | FetchRids peer rid_types =>
      peer = rid kobj /\ rid_types = [GitHubEvent]
  | FetchBundles peer rids =>
      peer = rid kobj /\ rids <> [] /\
      fetch_rids net (rid kobj) [GitHubEvent] = Ok (Some rids)
  | HandleBundle hb source_ =>
      source_ = External /\
      exists rids bundles,
        fetch_rids net (rid kobj) [GitHubEvent] = Ok (Some rids) /\
        fetch_bundles net (rid kobj) rids = Ok bundles /\
        hb ∈ bundles
  end.
Proof.
  unfold handle_network_discovery.
  destruct (normalized_event_type kobj) as [[| |]|];
    try (cbn [snd]; intros Ha; inversion Ha; fail).
  destruct (source kobj); [cbn [snd]; intros Ha; inversion Ha |].
  destruct (bundle kobj) as [b|]; [| cbn [snd]; intros Ha; inversion Ha].
  destruct (validate_contents net (contents b)) as [profile|e] eqn:Hv;
    [| cbn [snd]; intros Ha; inversion Ha].
  destruct (provides GitHubEvent profile) eqn:Hp; cbn [negb snd];
    [| intros Ha; inversion Ha].
  intros Ha. split.
  { split_and!; [reflexivity | reflexivity |].
    exists b, profile. split_and!; [reflexivity | exact Hv |].
    now apply provides_elem_of. }
  apply elem_of_app in Ha as [Ha | Ha].
  - destruct (rtype (rid kobj)) eqn:Ht; try (inversion Ha; fail).
    apply list_elem_of_singleton in Ha as ->. now split_and!.
  - unfold catch_up in Ha.
    apply elem_of_cons in Ha as [-> | Ha]; [now split |].
    destruct (fetch_rids net (rid kobj) [GitHubEvent])
      as [[[|r rs]|]|e] eqn:Hf; try (inversion Ha; fail).
    apply elem_of_cons in Ha as [-> | Ha]; [now split_and! |].
    destruct (fetch_bundles net (rid kobj) (r :: rs)) as [bundles|e] eqn:Hg;
      [| inversion Ha].
    apply list_elem_of_fmap in Ha as (hb & -> & Hin).
    split; [reflexivity |]. exists (r :: rs), bundles. now split_and!.
Qed.

End MoreHandlers.

Lemma early_delivery_is_lost_witness :
  let n1 := ServiceSetup.set_repository_service
              (snd (@Handlers.deliver demo_runtime "t1"
                      {| Handlers.cache := ∅;
                         Handlers.repository_service := None;
                         Handlers.index := IndexDb.initialize_db;
                         Handlers.repo_locks := ∅ |}
                      push_delivery))
              {| Handlers.index_db_path := "index.db" |} in
  Handlers.index n1 = IndexDb.initialize_db /\
  @Handlers.deliver demo_runtime "t2" n1 push_delivery
  = (Handlers.STOP_CHAIN, Handlers.Unchanged, n1).
Proof.
  apply (@early_delivery_is_lost demo_runtime "t1" "t2"
           {| Handlers.cache := ∅;
              Handlers.repository_service := None;
              Handlers.index := IndexDb.initialize_db;
              Handlers.repo_locks := ∅ |}
           push_delivery {| Handlers.index_db_path := "index.db" |});
    [reflexivity | cbn; eauto].
Defined.

Lemma discovery_acts_on_sensors_only_witness :
  (Handlers.normalized_event_type sensor_discovery = Some Handlers.NEW /\
   Handlers.source sensor_discovery = Handlers.External /\
   exists b profile,
     Handlers.bundle sensor_discovery = Some b /\
     Handlers.validate_contents (sensor_network None) (Handlers.contents b)
     = Ok profile /\
     Handlers.GitHubEvent ∈ Handlers.provides_event profile) /\
  (sensor_rid = Handlers.rid sensor_discovery /\
   [Handlers.GitHubEvent] = [Handlers.GitHubEvent]).
Proof.
  apply (discovery_acts_on_sensors_only (sensor_network None) processor_rid
           sensor_discovery
           (Handlers.FetchRids sensor_rid [Handlers.GitHubEvent])).
  cbn. apply list_elem_of_further, list_elem_of_here.
Defined.

(** ** The registry of locks and the directories *)

Section Registry.
Import IndexDb CacheManager LockRegistry.

(** X22. [get_repo_lock] returns the lock that [with_repo_lock] takes
    for the same directory and changes the state of no lock: a lock is
    held after the call exactly when it was held before, and a call of
    [with_repo_lock] that follows gives the result and the database it
    would have given without it. *)
Theorem get_repo_lock_is_passive {A : Type} (cwd repo_dir other : string)
    (coro : db -> res A * db) (ls : gmap string bool) (d : db) :
  let '(key, ls') := get_repo_lock cwd repo_dir ls in
  key = lock_key cwd repo_dir /\
  ls' !! key = Some (default false (ls !! key)) /\
  (forall k, ls' !! k = Some true <-> ls !! k = Some true) /\
  (λ out, (fst (fst out), snd out)) <$> with_repo_lock cwd other coro ls' d
  = (λ out, (fst (fst out), snd out)) <$> with_repo_lock cwd other coro ls d.
Proof.
  unfold get_repo_lock. split_and!.
  - reflexivity.
  - apply setdefault_lookup.
  - intros k. apply setdefault_held.
  - set (ls' := setdefault (lock_key cwd repo_dir) ls).
    destruct (decide (ls !! lock_key cwd other = Some true)) as [Hh|Hf].
    + rewrite (with_repo_lock_held cwd other coro ls d Hh).
      rewrite (with_repo_lock_held cwd other coro ls' d); [reflexivity |].
      now apply setdefault_held.
    + destruct (with_repo_lock_free cwd other coro ls d Hf) as (l1 & -> & _).
      destruct (with_repo_lock_free cwd other coro ls' d) as (l2 & -> & _);
        [| reflexivity].
      intros Hh. apply Hf. now apply setdefault_held in Hh.
Qed.

(** X23. [clear_locks] forgets the locks that are held: after it,
    [with_repo_lock] runs the operation for every directory at once,
    also for one whose lock was held when the registry was cleared. *)
Theorem clear_locks_forgets_held_locks {A : Type} (cwd repo_dir : string)
    (coro : db -> res A * db) (ls : gmap string bool) (d : db) :
  ls !! lock_key cwd repo_dir = Some true ->
  with_repo_lock cwd repo_dir coro ls d = None /\
  exists ls',
    with_repo_lock cwd repo_dir coro (clear_locks ls) d
    = Some (fst (coro d), ls', snd (coro d)).
Proof.
  intros Hh. split; [now apply with_repo_lock_held |].
  destruct (with_repo_lock_free cwd repo_dir coro (clear_locks ls) d)
    as (ls' & Hr & _); [| eauto].
  unfold clear_locks. now rewrite lookup_empty.
Qed.

Lemma clear_locks_forgets_held_locks_witness :
  with_repo_lock "/srv" "repos/acme__widgets.git"
    (λ d, add_repository "t1" d "orn:github.repo:acme/widgets"
            (JStr "https://github.com/acme/widgets.git"))
    {[ "/srv/repos/acme__widgets.git" := true ]} initialize_db = None /\
  exists ls',
    with_repo_lock "/srv" "repos/acme__widgets.git"
      (λ d, add_repository "t1" d "orn:github.repo:acme/widgets"
              (JStr "https://github.com/acme/widgets.git"))
      (clear_locks {[ "/srv/repos/acme__widgets.git" := true ]}) initialize_db
    = Some (fst (add_repository "t1" initialize_db
                   "orn:github.repo:acme/widgets"
                   (JStr "https://github.com/acme/widgets.git")),
            ls',
            snd (add_repository "t1" initialize_db
                   "orn:github.repo:acme/widgets"
                   (JStr "https://github.com/acme/widgets.git"))).
Proof.
  apply (clear_locks_forgets_held_locks "/srv" "repos/acme__widgets.git"
           (λ d, add_repository "t1" d "orn:github.repo:acme/widgets"
                   (JStr "https://github.com/acme/widgets.git"))
           {[ "/srv/repos/acme__widgets.git" := true ]} initialize_db).
  reflexivity.
Defined.

End Registry.

Section Directories.
Import Utils CacheManager.

Lemma lock_key_is_absolute (cwd p : string) :
  startswith "/" cwd = true -> startswith "/" (lock_key cwd p) = true.
Proof.
  intros Hcwd. unfold lock_key, OsPath.abspath, OsPath.isabs.
  destruct (startswith "/" (OsPath.normpath p)) eqn:E.
  - now destruct (lock_key_absolute cwd (OsPath.normpath p) E) as (_ & Hs & _).
  - destruct (lock_key_relative cwd Hcwd (OsPath.normpath p) E) as [_ Hj].
    now destruct (lock_key_absolute cwd _ Hj) as (_ & Hs & _).
Qed.

(** X24. With an absolute working directory, [get_repo_dir] fails
    exactly on an identifier without the prefix, and the directory it
    returns otherwise is an absolute path that ends in the directory
    name of the identifier and is its own lock key: [with_repo_lock]
    locks it under the very path. *)
Theorem repo_dir_is_its_own_key (cwd base_path repo_rid : string) :
  startswith "/" cwd = true ->
  (startswith rid_prefix repo_rid = false ->
   get_repo_dir cwd base_path repo_rid = Raise (invalid_rid repo_rid)) /\
  (startswith rid_prefix repo_rid = true ->
   exists dir name,
     get_repo_dir cwd base_path repo_rid = Ok dir /\
     repo_rid_to_dirname repo_rid = Ok name /\
     ends_with_component name dir /\
     startswith "/" dir = true /\
     lock_key cwd dir = dir).
Proof.
  intros Hcwd. split.
  - intros Hp. unfold get_repo_dir. now rewrite Hp.
  - intros Hp. apply startswith_strip in Hp as [x Hx].
    apply strip_prefix_Some in Hx as ->.
    destruct (get_repo_dir_ends cwd base_path x) as (k & Hk & Hends).
    exists k, (replace "/" "__" x ++ ".git").
    split; [exact Hk |].
    split; [apply repo_rid_to_dirname_prefix |].
    split; [exact Hends |].
    rewrite get_repo_dir_prefix in Hk. injection Hk as <-.
    split; [now apply lock_key_is_absolute |].
    now apply lock_key_idempotent.
Qed.

Lemma repo_dir_is_its_own_key_witness :
  exists dir name,
    get_repo_dir "/srv" "repos" "orn:github.repo:acme/widgets" = Ok dir /\
    repo_rid_to_dirname "orn:github.repo:acme/widgets" = Ok name /\
    ends_with_component name dir /\
    startswith "/" dir = true /\
    lock_key "/srv" dir = dir.
Proof.
  apply (proj2 (repo_dir_is_its_own_key "/srv" "repos"
                  "orn:github.repo:acme/widgets" eq_refl)).
  reflexivity.
Defined.

End Directories.

(** ** The command line and the queries *)

Section CommandLine.
Import Utils IndexDb Queries Cli.
Context `{Runtime}.

Lemma str_contains_has_char (c : ascii) (s : string) :
  str_contains (String c "") s = has_char c s.
Proof.
  unfold str_contains.
  destruct (split_once (String c "") s) as [[o r]|] eqn:E.
  - apply split_once_char_Some in E as [-> _]. now rewrite has_char_sep.
  - apply split_once_char_None in E. now rewrite E.
Qed.

Lemma resolve_repo_arg_eq (repo_arg : string) :
  resolve_repo_arg repo_arg = Ok (resolved repo_arg).
Proof.
  unfold resolve_repo_arg, resolved.
  rewrite (str_contains_has_char "/" repo_arg).
  destruct (has_char "/" repo_arg) eqn:Hc; [| reflexivity].
  destruct (startswith "orn:" repo_arg); [reflexivity |].
  cbn [negb andb]. unfold split1.
  destruct (split_once "/" repo_arg) as [[o r]|] eqn:E.
  - apply (split_once_char_Some "/") in E as [-> _]. reflexivity.
  - apply (split_once_char_None "/") in E. congruence.
Qed.

Lemma encoded_decodes (owner repo : json) :
  exists o r,
    repo_rid_to_owner_repo (owner_repo_to_repo_rid owner repo) = Ok (o, r).
Proof.
  rewrite repo_rid_to_owner_repo_cuts. unfold owner_repo_to_repo_rid.
  change "orn:github.repo:" with rid_prefix.
  rewrite strip_prefix_app.
  destruct (split_once "/" (format owner ++ "/" ++ format repo))
    as [[o r]|] eqn:E; [eauto |].
  apply (split_once_char_None "/") in E.
  change (format owner ++ "/" ++ format repo)
    with (format owner ++ String "/" (format repo)) in E.
  now rewrite has_char_sep in E.
Qed.

(** The [try] block, by what it leaves in the database. *)
Lemma try_add_repo_cases (console : Console) (now : string) (d : db)
    (repo_rid : string) :
  match repo_rid_to_owner_repo repo_rid with
  | Ok (owner, repo) =>
      match console_print console (adding_text owner repo) with
      | Ok _ =>
          exists r,
            try_add_repo console now d repo_rid
            = (r, if r is Ok _
                  then [adding_text owner repo; added_text repo_rid]
                  else [adding_text owner repo],
               {| repositories :=
                    upserted now repo_rid
                      (CText ("https://github.com/" ++ owner ++ "/" ++ repo))
                      (repositories d);
                  events := events d |}) /\
            r = console_print console (added_text repo_rid)
      | Raise e => try_add_repo console now d repo_rid = (Raise e, [], d)
      end
  | Raise e => try_add_repo console now d repo_rid = (Raise e, [], d)
  end.
Proof.
  unfold try_add_repo.
  destruct (repo_rid_to_owner_repo repo_rid) as [[owner repo]|e];
    [| reflexivity].
  destruct (console_print console (adding_text owner repo)) as [[]|e];
    [| reflexivity].
  rewrite add_repository_eq.
  cbn [bind_param not_null mbind res_bind Py.bind].
  destruct (console_print console (added_text repo_rid)) as [[]|e].
  - exists (Ok tt). now split.
  - exists (Raise e). now split.
Qed.

(** The [except] clause prints; it writes nothing. *)
Lemma add_repo_cmd_db (console : Console) (now : string) (d : db)
    (repo_arg : string) :
  snd (add_repo_cmd console now d repo_arg)
  = snd (try_add_repo console now d (resolved repo_arg)).
Proof.
  unfold add_repo_cmd. rewrite resolve_repo_arg_eq.
  destruct (try_add_repo console now d (resolved repo_arg))
    as [[[[]|e] printed] d']; [reflexivity |].
  now destruct (console_print console (error_text console e)).
Qed.

(** X25. What [add_repo_cmd] leaves in the database, whatever the
    terminal does.  It takes an argument that holds a ["/"] and does not
    start with ["orn:"] for [owner/repo], and any other argument for an
    identifier.  The repository is stored exactly when the identifier
    decodes and the first message is printed: then it has a row with the
    URL [https://github.com/owner/repo] of the decoded names, and
    nothing else in the database changes; in every other case the
    database is as it was.  On a terminal that prints every text the
    command does not raise and prints the two messages of success or
    the one of the error.  When the command raises, it is the message
    of an error that could not be printed. *)
Theorem add_repo_cmd_result (console : Console) (now : string) (d : db)
    (repo_arg : string) :
  let repo_rid := resolved repo_arg in
  let out := add_repo_cmd console now d repo_arg in
  match repo_rid_to_owner_repo repo_rid with
  | Ok (owner, repo) =>
      match console_print console (adding_text owner repo) with
      | Ok _ =>
          exists row,
            repositories (snd out) !! repo_rid = Some row /\
            repo_url row
            = CText ("https://github.com/" ++ owner ++ "/" ++ repo) /\
            last_updated row = now /\
            events (snd out) = events d /\
            (forall k, k <> repo_rid ->
                       repositories (snd out) !! k = repositories d !! k)
      | Raise _ => snd out = d
      end
  | Raise _ => snd out = d
  end /\
  ((forall text, console_print console text = Ok tt) ->
   fst (fst out) = Ok tt /\
   snd (fst out)
   = match repo_rid_to_owner_repo repo_rid with
     | Ok (owner, repo) => [adding_text owner repo; added_text repo_rid]
     | Raise e => [error_text console e]
     end) /\
  (forall e, fst (fst out) = Raise e ->
     exists cause, console_print console (error_text console cause) = Raise e).
Proof.
  cbv zeta. rewrite add_repo_cmd_db.
  unfold add_repo_cmd. rewrite resolve_repo_arg_eq.
  pose proof (try_add_repo_cases console now d (resolved repo_arg)) as Ht.
  destruct (repo_rid_to_owner_repo (resolved repo_arg)) as [[owner repo]|e0].
  - destruct (console_print console (adding_text owner repo)) as [[]|e1] eqn:Ha.
    + destruct Ht as (r & -> & Hr). split_and!.
      * cbn [snd repositories events].
        eexists. rewrite upserted_lookup.
        destruct (decide (resolved repo_arg = resolved repo_arg));
          [| congruence].
        split_and!; try reflexivity.
        intros k Hk. rewrite upserted_lookup.
        case_decide; [congruence | reflexivity].
      * intros Hall. rewrite Hr, (Hall (added_text _)). now split.
      * intros e. destruct r as [[]|e2]; [discriminate |].
        destruct (console_print console (error_text console e2)) eqn:He;
          [discriminate |].
        cbn [fst]. intros [= <-]. eauto.
    + rewrite Ht. split_and!.
      * reflexivity.
      * intros Hall. rewrite (Hall (adding_text _ _)) in Ha. discriminate.
      * intros e.
        destruct (console_print console (error_text console e1)) eqn:He;
          [discriminate |].
        cbn [fst]. intros [= <-]. eauto.
  - rewrite Ht. split_and!.
    + reflexivity.
    + intros Hall. rewrite (Hall (error_text _ _)). now split.
    + intros e.
      destruct (console_print console (error_text console e0)) eqn:He;
        [discriminate |].
      cbn [fst]. intros [= <-]. eauto.
Qed.

Lemma add_repo_cmd_cases_aux (console : Console) (now : string) (d : db)
    (repo_arg : string) :
  snd (add_repo_cmd console now d repo_arg) = d \/
  exists o r u,
    repo_rid_to_owner_repo (resolved repo_arg) = Ok (o, r) /\
    snd (add_repo_cmd console now d repo_arg)
    = {| repositories := upserted now (resolved repo_arg) u (repositories d);
         events := events d |}.
Proof.
  unfold add_repo_cmd. rewrite resolve_repo_arg_eq.
  pose proof (try_add_repo_cases console now d (resolved repo_arg)) as Ht.
  destruct (repo_rid_to_owner_repo (resolved repo_arg)) as [[owner repo]|e0].
  - destruct (console_print console (adding_text owner repo)) as [[]|e1].
    + destruct Ht as (r & -> & _). right. exists owner, repo. eexists.
      split; [reflexivity |].
      destruct r as [[]|e2]; [reflexivity |].
      now destruct (console_print console (error_text console e2)).
    + left. rewrite Ht.
      now destruct (console_print console (error_text console e1)).
  - left. rewrite Ht.
    now destruct (console_print console (error_text console e0)).
Qed.

Lemma decodable_weaken (d d' : db) :
  decodable d ->
  (forall k, is_Some (repositories d' !! k) ->
     is_Some (repositories d !! k) \/
     exists o r, repo_rid_to_owner_repo k = Ok (o, r)) ->
  decodable d'.
Proof.
  intros Hd Hk k Hin. destruct (Hk k Hin) as [Hold | Hnew]; auto.
Qed.

Lemma is_Some_upserted (now rid : string) (u : cell)
    (m : gmap string repo_row) (k : string) :
  is_Some (upserted now rid u m !! k) -> is_Some (m !! k) \/ k = rid.
Proof.
  rewrite upserted_lookup. case_decide; auto.
Qed.

Lemma decodable_run_command (console : Console) (d : db) (c : command) :
  decodable d -> decodable (run_command console d c).
Proof.
  intros Hd. destruct c as [now k p | now arg | expired | rid sha ts];
    cbn [run_command].
  - destruct (Repository.process_github_event_bundle now d k p)
      as [out d'] eqn:Hp. cbn [snd].
    unfold Repository.process_github_event_bundle in Hp.
    destruct (Repository.extract p) as [[o r url src | message] | e];
      try (injection Hp as _ <-; exact Hd).
    destruct (store_written k p o r url src) as (res_ & u & row & _ & Hs).
    rewrite Hs in Hp.
    assert (d' = written now (owner_repo_to_repo_rid o r) k u row d) as ->
      by (destruct res_; now injection Hp as _ <-).
    apply (decodable_weaken d); [exact Hd |].
    intros key. destruct u as [c|]; [| auto]. cbn [written repositories].
    intros Hin. apply is_Some_upserted in Hin as [Hin | ->]; [auto |].
    right. apply encoded_decodes.
  - pose proof (add_repo_cmd_cases_aux console now d arg) as Hc.
    destruct Hc as [-> | (o & r & u & Hdec & ->)]; [exact Hd |].
    apply (decodable_weaken d); [exact Hd |].
    intros key. cbn [repositories].
    intros Hin. apply is_Some_upserted in Hin as [Hin | ->]; eauto.
  - exact Hd.
  - intros key Hin. apply Hd. cbn [update_repository_latest_commit
      repositories] in Hin.
    rewrite lookup_alter in Hin. case_decide; [subst key |]; [| exact Hin].
    destruct (repositories d !! rid); [eauto | now destruct Hin].
Qed.

Lemma decodable_run_commands (console : Console) (cs : list command)
    (d : db) :
  decodable d -> decodable (run_commands console d cs).
Proof.
  revert d. induction cs as [|c cs IH]; intros d Hd; [exact Hd |].
  apply IH. now apply decodable_run_command.
Qed.

Lemma decodable_initialize_db : decodable initialize_db.
Proof. intros k [row Hk]. cbn in Hk. now rewrite lookup_empty in Hk. Qed.

(** X26. Every repository identifier in a database that has been
    written by ingesting events and by [add_repo_cmd] only, on whatever
    terminal, pruned or touched by [update_repository_latest_commit] in
    between, can be decoded by [repo_rid_to_owner_repo]. *)
Theorem stored_identifiers_decode (console : Console) (cs : list command) :
  decodable (run_commands console initialize_db cs).
Proof. apply decodable_run_commands, decodable_initialize_db. Qed.

End CommandLine.

Section Pages.
Import Utils IndexDb Queries.

Lemma page_length {A : Type} (limit offset : Z) (rows : list A) :
  (0 <= limit)%Z ->
  length (page limit offset rows)
  = min (Z.to_nat limit) (length rows - Z.to_nat offset).
Proof.
  intros Hl. unfold page.
  destruct (limit <? 0)%Z eqn:E; [apply Z.ltb_lt in E; lia |].
  now rewrite length_firstn, length_skipn.
Qed.

Lemma firstn_then_next {A : Type} (n m : nat) (l : list A) :
  (firstn n l ++ firstn m (skipn n l))%list = firstn (n + m) l.
Proof.
  revert l. induction n as [|n IH]; intros l; [reflexivity |].
  destruct l as [|a l]; [now destruct m |].
  cbn [firstn skipn Nat.add app]. now rewrite IH.
Qed.

Lemma page_app {A : Type} (limit offset : Z) (rows : list A) :
  (0 <= limit)%Z -> (0 <= offset)%Z ->
  (page limit offset rows ++ page limit (offset + limit) rows)%list
  = page (2 * limit) offset rows.
Proof.
  intros Hl Ho. unfold page.
  destruct (limit <? 0)%Z eqn:E; [apply Z.ltb_lt in E; lia |].
  destruct (2 * limit <? 0)%Z eqn:E2; [apply Z.ltb_lt in E2; lia |].
  replace (Z.to_nat (offset + limit))
    with (Z.to_nat limit + Z.to_nat offset) by lia.
  replace (Z.to_nat (2 * limit))
    with (Z.to_nat limit + Z.to_nat limit) by lia.
  rewrite <- skipn_skipn. apply firstn_then_next.
Qed.

Lemma page_elem {A : Type} (limit offset : Z) (rows : list A) (x : A) :
  x ∈ page limit offset rows -> x ∈ rows.
Proof.
  intros Hx. unfold page in Hx.
  assert (x ∈ skipn (Z.to_nat offset) rows) as Hs.
  { destruct (limit <? 0)%Z; [exact Hx |].
    eapply elem_of_sublist; [exact Hx | apply sublist_take]. }
  eapply elem_of_sublist; [exact Hs | apply sublist_drop].
Qed.

(** The parameters that [sqlite3] binds: integers of 64 bits. *)
Lemma get_events_for_repo_bound (order : list event_row -> list event_row)
    (d : db) (repo_rid : string) (limit offset : Z) :
  (- 2 ^ 63 <= limit < 2 ^ 63)%Z -> (- 2 ^ 63 <= offset < 2 ^ 63)%Z ->
  get_events_for_repo order d repo_rid limit offset
  = Ok (map select_info
          (page limit offset (order (events_of_repo d repo_rid)))).
Proof.
  intros [Hl1 Hl2] [Ho1 Ho2]. unfold get_events_for_repo.
  cbn [bind_param mbind res_bind Py.bind].
  assert (forall z, (- 2 ^ 63 <= z)%Z -> (z < 2 ^ 63)%Z ->
            ((- 2 ^ 63 <=? z) && (z <? 2 ^ 63))%Z = true) as Hin.
  { intros z Hz1 Hz2. apply andb_true_intro.
    split; [now apply Z.leb_le | now apply Z.ltb_lt]. }
  now rewrite (Hin limit Hl1 Hl2), (Hin offset Ho1 Ho2).
Qed.

(** X27. With a limit and an offset that are not negative and fit 64
    bits, [get_events_for_repo] returns at most [limit] rows, all of
    them rows of that repository, and successive pages join up: the
    page at [offset] followed by the page at [offset + limit] is the
    page of twice the size at [offset].  With the limit [-1] and no
    offset every row of the repository is returned.  A limit or an
    offset from [2 ^ 63] on raises [OverflowError]. *)
Theorem event_pages (order : list event_row -> list event_row)
    (d : db) (repo_rid : string) (limit offset : Z) :
  (forall rows, order rows ≡ₚ rows) ->
  (0 <= limit)%Z -> (0 <= offset)%Z ->
  (2 * limit < 2 ^ 63)%Z -> (offset + limit < 2 ^ 63)%Z ->
  (exists first next both,
     get_events_for_repo order d repo_rid limit offset = Ok first /\
     get_events_for_repo order d repo_rid limit (offset + limit) = Ok next /\
     get_events_for_repo order d repo_rid (2 * limit) offset = Ok both /\
     (first ++ next)%list = both /\
     length first <= Z.to_nat limit /\
     forall i, i ∈ first ->
       exists r, r ∈ events d /\ ev_repo_rid r = repo_rid /\
                 i = select_info r) /\
  (exists every,
     get_events_for_repo order d repo_rid (-1) 0 = Ok every /\
     every ≡ₚ map select_info (events_of_repo d repo_rid)) /\
  (forall big,
     (2 ^ 63 <= big)%Z ->
     get_events_for_repo order d repo_rid big offset = Raise OverflowError /\
     get_events_for_repo order d repo_rid limit big = Raise OverflowError).
Proof.
  intros Hperm Hl Ho Hl2 Hol.
  assert (- 2 ^ 63 < 0)%Z as Hneg by reflexivity.
  split_and!.
  - eexists _, _, _.
    rewrite !get_events_for_repo_bound by lia.
    split_and!; try reflexivity.
    + rewrite <- map_app. now rewrite page_app.
    + rewrite length_map, page_length by exact Hl. lia.
    + intros i Hi. apply list_elem_of_fmap in Hi as (r & -> & Hr).
      apply page_elem in Hr. rewrite Hperm in Hr.
      unfold events_of_repo in Hr.
      apply list_elem_of_filter in Hr as [Hrid Hr]. eauto.
  - eexists. rewrite get_events_for_repo_bound by lia.
    split; [reflexivity |].
    unfold page. cbn [Z.ltb Z.compare Z.to_nat skipn].
    change (map select_info) with (fmap (M:=list) select_info).
    now rewrite Hperm.
  - intros big Hbig.
    assert (((- 2 ^ 63 <=? big) && (big <? 2 ^ 63))%Z = false) as Hout
      by (apply andb_false_intro2; now apply Z.ltb_ge).
    assert (((- 2 ^ 63 <=? limit) && (limit <? 2 ^ 63))%Z = true) as Hin
      by (apply andb_true_intro;
          split; [apply Z.leb_le | apply Z.ltb_lt]; lia).
    unfold get_events_for_repo. cbn [bind_param mbind res_bind Py.bind].
    now rewrite Hout, Hin.
Qed.

End Pages.

Lemma stored_identifiers_decode_witness :
  exists owner repo,
    Utils.repo_rid_to_owner_repo "orn:github.repo:acme/widgets"
    = Ok (owner, repo).
Proof.
  apply (@stored_identifiers_decode demo_runtime plain_console
           [Ingest "t1" "ev1" push_payload; AddRepo "t2" "acme/gadgets"]
           "orn:github.repo:acme/widgets").
  vm_compute. eauto.
Defined.

Lemma event_pages_witness :
  let d := @run_commands demo_runtime plain_console IndexDb.initialize_db
             [Ingest "t1" "ev1" push_payload;
              Ingest "t2" "ev2" push_payload;
              Ingest "t3" "ev3" push_payload] in
  let rid := "orn:github.repo:acme/widgets" in
  exists first next both,
    Queries.get_events_for_repo (λ rows, rows) d rid 1 0 = Ok first /\
    Queries.get_events_for_repo (λ rows, rows) d rid 1 (0 + 1) = Ok next /\
    Queries.get_events_for_repo (λ rows, rows) d rid (2 * 1) 0 = Ok both /\
    (first ++ next)%list = both /\
    length first <= Z.to_nat 1 /\
    forall i, i ∈ first ->
      exists r, r ∈ IndexDb.events d /\ IndexDb.ev_repo_rid r = rid /\
                i = Queries.select_info r.
Proof.
  cbv zeta.
  refine (proj1 (event_pages (λ rows, rows)
                   (@run_commands demo_runtime plain_console
                      IndexDb.initialize_db
                      [Ingest "t1" "ev1" push_payload;
                       Ingest "t2" "ev2" push_payload;
                       Ingest "t3" "ev3" push_payload])
                   "orn:github.repo:acme/widgets" 1 0 _ _ _ _ _));
    [intros rows; reflexivity | lia | lia | reflexivity | reflexivity].
Defined.
